(** * vhdllint: a shallow embedding of the analysis engine

    The development follows [vhdllint.py].  Python [str] values are lists of
    characters, [int] values are [Z], lists are lists, and the module-level
    globals ([_lint_state], [_error_suppressions], ...) are threaded
    explicitly.  Characters are the 256 Latin-1 code points; the character
    classes of [str.isspace] and of the regular expression escapes [\s], [\w]
    and [\d] are transcribed for that range.

    Part I holds the definitions, Part II the facts proved about them. *)

From Stdlib Require Import String Ascii ZArith Lia Bool Arith List Permutation
Sorted.
Import ListNotations.

Local Open Scope Z_scope.

(* ===================================================================== *)
(** * Part I.  Definitions *)
(* ===================================================================== *)

(** ** Python strings *)

Definition str := list ascii.

Definition lit (s : string) : str := list_ascii_of_string s.

Definition chr_eqb (a b : ascii) : bool := Ascii.eqb a b.

Fixpoint str_eqb (a b : str) : bool :=
  match a, b with
  | [], [] => true
  | x :: a', y :: b' => chr_eqb x y && str_eqb a' b'
  | _, _ => false
  end.

Definition code (c : ascii) : nat := nat_of_ascii c.

(** [str.isspace] on one character (Latin-1 range). *)
Definition is_space (c : ascii) : bool :=
  let n := code c in
  ((9 <=? n) && (n <=? 13) || (28 <=? n) && (n <=? 32)
   || (n =? 133) || (n =? 160))%nat.

Definition is_digit (c : ascii) : bool :=
  let n := code c in ((48 <=? n) && (n <=? 57))%nat.

Definition is_ascii_upper (c : ascii) : bool :=
  let n := code c in ((65 <=? n) && (n <=? 90))%nat.

Definition is_ascii_lower (c : ascii) : bool :=
  let n := code c in ((97 <=? n) && (n <=? 122))%nat.

(** [\w] of a Unicode pattern: alphanumeric or underscore. *)
Definition is_word (c : ascii) : bool :=
  let n := code c in
  (is_digit c || is_ascii_upper c || is_ascii_lower c || (n =? 95)
   || (n =? 170) || (n =? 178) || (n =? 179) || (n =? 181)
   || (n =? 185) || (n =? 186) || (188 <=? n) && (n <=? 190)
   || (192 <=? n) && (n <=? 214) || (216 <=? n) && (n <=? 246)
   || (248 <=? n))%nat.

(** [str.lower] on one character; 215 is the multiplication sign. *)
Definition lower_chr (c : ascii) : ascii :=
  let n := code c in
  if (is_ascii_upper c
      || (192 <=? n) && (n <=? 222) && negb (n =? 215))%nat
  then ascii_of_nat (n + 32) else c.

Definition lower (s : str) : str := map lower_chr s.

(** [s.startswith(p)] *)
Fixpoint startswith (s p : str) {struct p} : bool :=
  match p with
  | [] => true
  | c :: p' =>
      match s with
      | [] => false
      | d :: s' => chr_eqb d c && startswith s' p'
      end
  end.

(** [s.find(p)]: the lowest index where [p] occurs, or [-1]. *)
Fixpoint find_from (s p : str) (i : Z) : Z :=
  if startswith s p then i
  else match s with
       | [] => -1
       | _ :: s' => find_from s' p (i + 1)
       end.

Definition find (s p : str) : Z := find_from s p 0.

(** [s.count(p)] for a non-empty [p]: non-overlapping occurrences, counted
    from the left.  The auxiliary [skip] counts characters of a match that
    are still to be stepped over. *)
Fixpoint count_from (s p : str) (skip : nat) : Z :=
  match s with
  | [] => 0
  | _ :: s' =>
      match skip with
      | S k => count_from s' p k
      | O => if startswith s p
             then 1 + count_from s' p (length p - 1)
             else count_from s' p 0
      end
  end.

Definition count (s p : str) : Z := count_from s p 0.

(** [s.replace(p, q)] for a non-empty [p]. *)
Fixpoint replace_from (s p q : str) (skip : nat) : str :=
  match s with
  | [] => []
  | c :: s' =>
      match skip with
      | S k => replace_from s' p q k
      | O => if startswith s p
             then q ++ replace_from s' p q (length p - 1)
             else c :: replace_from s' p q 0
      end
  end.

Definition replace (s p q : str) : str := replace_from s p q 0.

(** [s.lstrip()], [s.rstrip()], [s.strip()] *)
Fixpoint lstrip (s : str) : str :=
  match s with
  | c :: s' => if is_space c then lstrip s' else s
  | [] => []
  end.

Fixpoint rstrip (s : str) : str :=
  match s with
  | [] => []
  | c :: s' =>
      match rstrip s' with
      | [] => if is_space c then [] else [c]
      | r => c :: r
      end
  end.

Definition strip (s : str) : str := rstrip (lstrip s).

(** [s.split(sep)] for a one-character separator. *)
Fixpoint split (sep : ascii) (s : str) : list str :=
  match s with
  | [] => [[]]
  | c :: s' =>
      if chr_eqb c sep then [] :: split sep s'
      else match split sep s' with
           | w :: ws => (c :: w) :: ws
           | [] => [[c]]
           end
  end.

(** Slices [s[i:]], [s[:j]] and [s[i:j]] for indices within range. *)
Definition slice_from (s : str) (i : nat) : str := skipn i s.
Definition slice_to (s : str) (j : nat) : str := firstn j s.
Definition slice (s : str) (i j : nat) : str := firstn (j - i) (skipn i s).

Definition len (s : str) : Z := Z.of_nat (length s).

(** ** Exceptions *)

Inductive exn : Type :=
| AssertionError
| ValueError (culprit : str)
| IndexError
| AttributeError.

Inductive py_result (A : Type) : Type :=
| Ret (a : A)
| Exc (e : exn).

Arguments Ret {A} a.
Arguments Exc {A} e.

(** ** Regular expressions

    The subset of Python's [re] that the linter's patterns use, matched by
    backtracking in the order [re] tries the alternatives: left alternative
    first, greedy repetition longest first, lazy repetition shortest
    first.  A match state records the character before the cursor (for
    [\b]), the text still to be read, the cursor position and the spans of
    the capture groups set so far. *)

Inductive regex : Type :=
| Eps
| Cls (p : ascii -> bool)
| Seq (a b : regex)
| Alt (a b : regex)
| Star (greedy : bool) (a : regex)
| Grp (i : nat) (a : regex)
| Bol
| Eol
| Wb
| Look (positive : bool) (a : regex).

Record mstate : Type := {
  m_prev : option ascii;
  m_rest : str;
  m_pos : nat;
  m_caps : list (nat * (nat * nat))
}.

Definition advance (c : ascii) (tl : str) (st : mstate) : mstate :=
  {| m_prev := Some c; m_rest := tl; m_pos := S (m_pos st);
     m_caps := m_caps st |}.

Definition set_group (i : nat) (from : nat) (st : mstate) : mstate :=
  {| m_prev := m_prev st; m_rest := m_rest st; m_pos := m_pos st;
     m_caps := (i, (from, m_pos st)) :: m_caps st |}.

Definition word_before (st : mstate) : bool :=
  match m_prev st with Some c => is_word c | None => false end.

Definition word_after (st : mstate) : bool :=
  match m_rest st with c :: _ => is_word c | [] => false end.

Definition newline : ascii := ascii_of_nat 10.

(** [$] without MULTILINE: the end, or just before a final newline. *)
Definition at_eol (st : mstate) : bool :=
  match m_rest st with
  | [] => true
  | [c] => chr_eqb c newline
  | _ => false
  end.

(** The loop of a repetition: [body] is the matcher of the repeated
    pattern; an iteration that consumes nothing is not repeated.  [n] bounds
    the number of iterations and starts above the length of the text. *)
Definition star_loop (g : bool)
  (body : (mstate -> option mstate) -> mstate -> option mstate)
  (k : mstate -> option mstate) : nat -> mstate -> option mstate :=
  fix loop (n : nat) (st0 : mstate) {struct n} : option mstate :=
    match n with
    | O => k st0
    | S n' =>
        if g then
          match body (fun st1 =>
                   if (m_pos st0 <? m_pos st1)%nat then loop n' st1
                   else None) st0 with
          | Some x => Some x
          | None => k st0
          end
        else
          match k st0 with
          | Some x => Some x
          | None =>
              body (fun st1 =>
                   if (m_pos st0 <? m_pos st1)%nat then loop n' st1
                   else None) st0
          end
    end.

Fixpoint rmatch (r : regex) (k : mstate -> option mstate) (st : mstate)
  {struct r} : option mstate :=
  match r with
  | Eps => k st
  | Cls p =>
      match m_rest st with
      | c :: tl => if p c then k (advance c tl st) else None
      | [] => None
      end
  | Seq a b => rmatch a (rmatch b k) st
  | Alt a b =>
      match rmatch a k st with
      | Some x => Some x
      | None => rmatch b k st
      end
  | Star g a => star_loop g (rmatch a) k (S (length (m_rest st))) st
  | Grp i a => rmatch a (fun st1 => k (set_group i (m_pos st) st1)) st
  | Bol => if (m_pos st =? 0)%nat then k st else None
  | Eol => if at_eol st then k st else None
  | Wb => if xorb (word_before st) (word_after st) then k st else None
  | Look positive a =>
      match rmatch a (fun st1 => Some st1) st with
      | Some _ => if positive then k st else None
      | None => if positive then None else k st
      end
  end.

(** Pattern combinators. *)
Definition Plus (g : bool) (a : regex) : regex := Seq a (Star g a).
Definition Opt (g : bool) (a : regex) : regex :=
  if g then Alt a Eps else Alt Eps a.

Fixpoint Lit (s : str) : regex :=
  match s with
  | [] => Eps
  | c :: s' => Seq (Cls (chr_eqb c)) (Lit s')
  end.

(** A literal under IGNORECASE. *)
Fixpoint LitI (s : str) : regex :=
  match s with
  | [] => Eps
  | c :: s' =>
      Seq (Cls (fun d => chr_eqb (lower_chr d) (lower_chr c))) (LitI s')
  end.

Fixpoint Seqs (rs : list regex) : regex :=
  match rs with
  | [] => Eps
  | [r] => r
  | r :: rs' => Seq r (Seqs rs')
  end.

Fixpoint Alts (rs : list regex) : regex :=
  match rs with
  | [] => Eps
  | [r] => r
  | r :: rs' => Alt r (Alts rs')
  end.

Definition in_chars (cs : str) : ascii -> bool :=
  fun c => existsb (chr_eqb c) cs.
Definition one_of (s : string) : ascii -> bool := in_chars (lit s).
Definition none_of (s : string) : ascii -> bool :=
  fun c => negb (one_of s c).
(** [.] matches anything but a newline. *)
Definition dot : ascii -> bool := fun c => negb (chr_eqb c newline).
Definition not_word : ascii -> bool := fun c => negb (is_word c).

Definition init_state (s : str) : mstate :=
  {| m_prev := None; m_rest := s; m_pos := 0; m_caps := [] |}.

(** [pattern.match(s)] *)
Definition re_match (r : regex) (s : str) : option mstate :=
  rmatch r (fun st => Some st) (init_state s).

(** [pattern.search(s)]: the leftmost start at which the pattern matches;
    returns the start and the final state. *)
Fixpoint search_from (r : regex) (prev : option ascii) (rest : str)
  (pos : nat) : option (nat * mstate) :=
  match rmatch r (fun st => Some st)
          {| m_prev := prev; m_rest := rest; m_pos := pos; m_caps := [] |}
  with
  | Some st => Some (pos, st)
  | None =>
      match rest with
      | [] => None
      | c :: tl => search_from r (Some c) tl (S pos)
      end
  end.

Definition re_search (r : regex) (s : str) : option (nat * mstate) :=
  search_from r None s 0%nat.

(** [m.group(i)]: [None] when the group took no part in the match. *)
Fixpoint cap_span (i : nat) (caps : list (nat * (nat * nat)))
  : option (nat * nat) :=
  match caps with
  | [] => None
  | (j, sp) :: caps' => if (i =? j)%nat then Some sp else cap_span i caps'
  end.

Definition group (s : str) (st : mstate) (i : nat) : option str :=
  match cap_span i (m_caps st) with
  | Some (a, b) => Some (slice s a b)
  | None => None
  end.

(** [pattern.sub('', s)] for a pattern that matches no empty string: the
    leftmost non-overlapping matches are deleted.  [skip] counts the
    characters of the current match still to be dropped. *)
Fixpoint sub_from (r : regex) (prev : option ascii) (rest : str) (pos : nat)
  (skip : nat) : str :=
  match rest with
  | [] => []
  | c :: tl =>
      match skip with
      | S n => sub_from r (Some c) tl (S pos) n
      | O =>
          match rmatch r (fun st => Some st)
                  {| m_prev := prev; m_rest := rest; m_pos := pos;
                     m_caps := [] |}
          with
          | Some st =>
              if (pos <? m_pos st)%nat
              then sub_from r (Some c) tl (S pos) (m_pos st - pos - 1)
              else c :: sub_from r (Some c) tl (S pos) 0
          | None => c :: sub_from r (Some c) tl (S pos) 0
          end
      end
  end.

Definition re_sub (r : regex) (s : str) : str := sub_from r None s 0%nat 0%nat.

(** [re.findall(r'\b[\w\']+\b', s)]: the words of [s], left to right. *)
Definition word_chr : ascii -> bool :=
  fun c => is_word c || chr_eqb c "'"%char.

Definition RE_WORDS : regex := Seqs [Wb; Plus true (Cls word_chr); Wb].

Fixpoint findall_from (r : regex) (s : str) (prev : option ascii)
  (rest : str) (pos : nat) (skip : nat) : list str :=
  match rest with
  | [] => []
  | c :: tl =>
      match skip with
      | S n => findall_from r s (Some c) tl (S pos) n
      | O =>
          match rmatch r (fun st => Some st)
                  {| m_prev := prev; m_rest := rest; m_pos := pos;
                     m_caps := [] |}
          with
          | Some st =>
              if (pos <? m_pos st)%nat
              then slice s pos (m_pos st)
                   :: findall_from r s (Some c) tl (S pos) (m_pos st - pos - 1)
              else findall_from r s (Some c) tl (S pos) 0
          | None => findall_from r s (Some c) tl (S pos) 0
          end
      end
  end.

Definition findall (r : regex) (s : str) : list str :=
  findall_from r s None s 0%nat 0%nat.

(** ** Line references *)

Record LineRef : Type := { Line : Z; Column : Z; EndColumn : Z }.

(** [LineRef.__init__(line, column, end_column=None, length=1)] *)
Definition LineRef_init (line column : Z) (end_column : option Z)
  (length : Z) : LineRef :=
  {| Line := line; Column := column;
     EndColumn := match end_column with
                  | None => column + length
                  | Some e => e
                  end |}.

Definition any_chr : ascii -> bool := fun _ => true.

(** [LineRef.FromString]: [re.escape(name)] makes the pattern a literal. *)
Definition FromString (line_num : Z) (line name : str)
  (use_word_boundary : bool) : LineRef :=
  let pat := if use_word_boundary then Seqs [Wb; Grp 1 (Lit name); Wb]
             else Grp 1 (Lit name) in
  let pos := match re_search pat line with
             | Some (start, _) => Z.of_nat start
             | None => 0
             end in
  LineRef_init line_num pos None (len name).

(** [LineRef.FromStringR]: the last occurrence, found through a greedy
    any-character prefix (the DOTALL dot-star of the source pattern). *)
Definition FromStringR (line_num : Z) (line name : str) : LineRef :=
  let pat := Seqs [Star true (Cls any_chr); Wb; Grp 1 (Lit name); Wb] in
  let pos := match re_search pat line with
             | Some (_, st) =>
                 match cap_span 1 (m_caps st) with
                 | Some (a, _) => Z.of_nat a
                 | None => 0
                 end
             | None => 0
             end in
  LineRef_init line_num pos None (len name).

Definition OnlyLine (line_num : Z) : LineRef :=
  LineRef_init line_num 0 (Some 1) 1.

(** ** Diagnostics and the module state *)

Record Diagnostic : Type := {
  d_filename : str;
  d_lineref : LineRef;
  d_category : str;
  d_confidence : Z;
  d_message : str
}.

(** [_ERROR_CATEGORIES] *)
Definition _ERROR_CATEGORIES : list str := map lit [
  "build/arithmetic"; "build/deprecated"; "build/filename";
  "build/include_alpha"; "build/port_modes"; "build/port_types";
  "build/shadow"; "build/unused"; "build/vhdl2008";
  "build/vhdl2008/sensitivity"; "build/vhdl2008/outputs";
  "legal/copyright"; "readability/booleans"; "readability/capitalization";
  "readability/constants"; "readability/declarations";
  "readability/components"; "readability/fsm"; "readability/header";
  "readability/identifiers"; "readability/multiline_comment";
  "readability/naming"; "readability/nolint"; "readability/nul";
  "readability/others"; "readability/portmaps"; "readability/reserved";
  "readability/todo"; "readability/units"; "readability/utf8";
  "runtime/combinational_loop"; "runtime/integers"; "runtime/latches";
  "runtime/loops"; "runtime/multiple_drivers"; "runtime/rising_edge";
  "runtime/sensitivity"; "runtime/variables"; "whitespace/blank_line";
  "whitespace/comments"; "whitespace/end_of_line";
  "whitespace/ending_newline"; "whitespace/indent";
  "whitespace/line_length"; "whitespace/newline"; "whitespace/tab";
  "whitespace/todo" ]%string.

Definition _DEFAULT_FILTERS : list str := [lit "-build/include_alpha"].

Definition str_in (x : str) (l : list str) : bool := existsb (str_eqb x) l.

(** [_LintState]: the fields the sink reads and writes.  [written] is the
    log of diagnostics handed to the output stream, oldest first; the
    per-format rendering of a diagnostic is not modelled. *)
Record _LintState : Type := {
  verbose_level : Z;
  error_count : Z;
  filters : list str;
  _filters_backup : list str;
  counting : str;
  errors_by_category : list (str * Z);
  written : list Diagnostic
}.

(** [_LintState.__init__] *)
Definition LintState_init : _LintState :=
  {| verbose_level := 1; error_count := 0;
     filters := _DEFAULT_FILTERS; _filters_backup := _DEFAULT_FILTERS;
     counting := lit "total"; errors_by_category := []; written := [] |}.

Definition set_filters (st : _LintState) (fs : list str) : _LintState :=
  {| verbose_level := verbose_level st; error_count := error_count st;
     filters := fs; _filters_backup := _filters_backup st;
     counting := counting st; errors_by_category := errors_by_category st;
     written := written st |}.

Definition SetVerboseLevel (st : _LintState) (level : Z) : _LintState :=
  {| verbose_level := level; error_count := error_count st;
     filters := filters st; _filters_backup := _filters_backup st;
     counting := counting st; errors_by_category := errors_by_category st;
     written := written st |}.

Definition signed (filt : str) : bool :=
  startswith filt (lit "+") || startswith filt (lit "-").

(** The validation loop at the end of [AddFilters]. *)
Fixpoint first_unsigned (fs : list str) : option str :=
  match fs with
  | [] => None
  | filt :: fs' => if negb (signed filt) then Some filt else first_unsigned fs'
  end.

(** The appending loop of [AddFilters]. *)
Fixpoint append_clean (acc : list str) (parts : list str) : list str :=
  match parts with
  | [] => acc
  | filt :: parts' =>
      let clean_filt := strip filt in
      match clean_filt with
      | [] => append_clean acc parts'
      | _ => append_clean (acc ++ [clean_filt]) parts'
      end
  end.

(** [_LintState.AddFilters]: the list is extended first and validated
    afterwards, so the state keeps the new entries also when the call
    raises. *)
Definition AddFilters (st : _LintState) (fs : str)
  : _LintState * py_result unit :=
  let st' := set_filters st (append_clean (filters st) (split ","%char fs)) in
  match first_unsigned (filters st') with
  | Some filt => (st', Exc (ValueError filt))
  | None => (st', Ret tt)
  end.

(** [_LintState.SetFilters] *)
Definition SetFilters (st : _LintState) (fs : str)
  : _LintState * py_result unit :=
  AddFilters (set_filters st _DEFAULT_FILTERS) fs.

Definition BackupFilters (st : _LintState) : _LintState :=
  {| verbose_level := verbose_level st; error_count := error_count st;
     filters := filters st; _filters_backup := filters st;
     counting := counting st; errors_by_category := errors_by_category st;
     written := written st |}.

Definition RestoreFilters (st : _LintState) : _LintState :=
  set_filters st (_filters_backup st).

(** ** NOLINT suppressions *)

Definition key_eqb (a b : option str) : bool :=
  match a, b with
  | None, None => true
  | Some x, Some y => str_eqb x y
  | _, _ => false
  end.

Definition set_add (x : Z) (s : list Z) : list Z :=
  if existsb (Z.eqb x) s then s else s ++ [x].

(** [d.get(k, set())] on a dictionary of line sets. *)
Fixpoint dict_get (d : list (option str * list Z)) (k : option str)
  : list Z :=
  match d with
  | [] => []
  | (k', s) :: d' => if key_eqb k k' then s else dict_get d' k
  end.

(** [d.setdefault(k, set()).add(x)] *)
Fixpoint setdefault_add (d : list (option str * list Z)) (k : option str)
  (x : Z) : list (option str * list Z) :=
  match d with
  | [] => [(k, [x])]
  | (k', s) :: d' =>
      if key_eqb k k' then (k', set_add x s) :: d'
      else (k', s) :: setdefault_add d' k x
  end.

(** The three suppression tables: [_error_suppressions],
    [_error_suppressions_region] and [_global_error_suppressions]. *)
Record Suppressions : Type := {
  _error_suppressions : list (option str * list Z);
  _error_suppressions_region : list str;
  _global_error_suppressions : list (str * bool)
}.

(** [ResetNolintSuppressions] *)
Definition ResetNolintSuppressions : Suppressions :=
  {| _error_suppressions := []; _error_suppressions_region := [];
     _global_error_suppressions := [] |}.

Fixpoint global_get (d : list (str * bool)) (k : str) : bool :=
  match d with
  | [] => false
  | (k', b) :: d' => if str_eqb k k' then b else global_get d' k
  end.

Definition line_in (x : Z) (s : list Z) : bool := existsb (Z.eqb x) s.

(** [IsErrorSuppressedByNolint] *)
Definition IsErrorSuppressedByNolint (sup : Suppressions) (category : str)
  (linenum : Z) : bool :=
  global_get (_global_error_suppressions sup) category
  || line_in linenum (dict_get (_error_suppressions sup) (Some category))
  || line_in linenum (dict_get (_error_suppressions sup) None).

(** ** The diagnostic sink *)

(** The filter loop of [_ShouldPrintError]; the [assert False] branch is
    the [AssertionError] outcome. *)
Fixpoint filter_walk (category : str) (fs : list str) (is_filtered : bool)
  : py_result bool :=
  match fs with
  | [] => Ret is_filtered
  | one_filter :: fs' =>
      if startswith one_filter (lit "-") then
        filter_walk category fs'
          (if startswith category (skipn 1 one_filter) then true
           else is_filtered)
      else if startswith one_filter (lit "+") then
        filter_walk category fs'
          (if startswith category (skipn 1 one_filter) then false
           else is_filtered)
      else Exc AssertionError
  end.

(** [_ShouldPrintError] *)
Definition _ShouldPrintError (sup : Suppressions) (st : _LintState)
  (category : str) (confidence linenum : Z) : py_result bool :=
  if IsErrorSuppressedByNolint sup category linenum then Ret false
  else if confidence <? verbose_level st then Ret false
  else match filter_walk category (filters st) false with
       | Exc e => Exc e
       | Ret is_filtered => if is_filtered then Ret false else Ret true
       end.

Fixpoint bump (d : list (str * Z)) (k : str) : list (str * Z) :=
  match d with
  | [] => [(k, 0 + 1)]
  | (k', n) :: d' => if str_eqb k k' then (k', n + 1) :: d'
                     else (k', n) :: bump d' k
  end.

(** [_LintState.IncrementErrorCount] *)
Definition IncrementErrorCount (st : _LintState) (category : str)
  : _LintState :=
  let by_cat :=
    if str_in (counting st) [lit "toplevel"; lit "detailed"] then
      let category :=
        if negb (str_eqb (counting st) (lit "detailed"))
        then hd [] (split "/"%char category) else category in
      bump (errors_by_category st) category
    else errors_by_category st in
  {| verbose_level := verbose_level st; error_count := error_count st + 1;
     filters := filters st; _filters_backup := _filters_backup st;
     counting := counting st; errors_by_category := by_cat;
     written := written st |}.

Definition write (st : _LintState) (d : Diagnostic) : _LintState :=
  {| verbose_level := verbose_level st; error_count := error_count st;
     filters := filters st; _filters_backup := _filters_backup st;
     counting := counting st; errors_by_category := errors_by_category st;
     written := written st ++ [d] |}.

(** [Error]: count and write the diagnostic when the gates let it pass. *)
Definition Error (sup : Suppressions) (st : _LintState) (d : Diagnostic)
  : py_result _LintState :=
  let linenum := Line (d_lineref d) in
  match _ShouldPrintError sup st (d_category d) (d_confidence d) linenum with
  | Exc e => Exc e
  | Ret true => Ret (write (IncrementErrorCount st (d_category d)) d)
  | Ret false => Ret st
  end.

(** A diagnostic as a rule hands it to its [error] callback. *)
Definition report (filename : str) (lineref : LineRef) (category : string)
  (confidence : Z) (message : str) : Diagnostic :=
  {| d_filename := filename; d_lineref := lineref;
     d_category := lit category; d_confidence := confidence;
     d_message := message |}.

(** ** Parsing NOLINT comments *)

Definition endswith (s p : str) : bool := startswith (rev s) (rev p).

(** A category between parentheses, as group 2 of the NOLINT pattern
    captures it. *)
Definition parens (category : str) : str := lit "(" ++ category ++ lit ")".

Definition chr (c : ascii) : regex := Cls (chr_eqb c).

(** The pattern of [ParseNolintSuppressions]:
    word boundary, NOLINT, an optional NEXTLINE, BEGIN or END (group 1),
    word boundary, an optional parenthesised category (group 2). *)
Definition RE_NOLINT : regex :=
  Seqs [Wb; Lit (lit "NOLINT");
        Opt true (Grp 1 (Alts [Lit (lit "NEXTLINE"); Lit (lit "BEGIN");
                               Lit (lit "END")]));
        Wb;
        Opt true (Grp 2 (Seqs [chr "("; Plus true (Cls (none_of ")"));
                               chr ")"]))].

Definition opt_is (o : option str) (s : string) : bool :=
  match o with Some x => str_eqb x (lit s) | None => false end.

Definition region_add (c : str) (r : list str) : list str :=
  if str_in c r then r else r ++ [c].

Definition region_remove (c : str) (r : list str) : list str :=
  filter (fun x => negb (str_eqb x c)) r.

Definition with_suppressions (sup : Suppressions)
  (d : list (option str * list Z)) : Suppressions :=
  {| _error_suppressions := d;
     _error_suppressions_region := _error_suppressions_region sup;
     _global_error_suppressions := _global_error_suppressions sup |}.

Definition with_region (sup : Suppressions) (r : list str) : Suppressions :=
  {| _error_suppressions := _error_suppressions sup;
     _error_suppressions_region := r;
     _global_error_suppressions := _global_error_suppressions sup |}.

Definition suppress (sup : Suppressions) (k : option str) (line : Z)
  : Suppressions :=
  with_suppressions sup (setdefault_add (_error_suppressions sup) k line).

(** The directive part of [ParseNolintSuppressions]: the tables after the
    line's directive, and the diagnostics handed to [error]. *)
Definition parse_directive (sup : Suppressions) (filename raw_line : str)
  (linenum : Z) : Suppressions * list Diagnostic :=
  match re_search RE_NOLINT raw_line with
  | None => (sup, [])
  | Some (_, matched) =>
      let g1 := group raw_line matched 1 in
      let suppressed_line :=
        if opt_is g1 "NEXTLINE" then linenum + 1 else linenum in
      let begin_region := opt_is g1 "BEGIN" in
      let end_region := opt_is g1 "END" in
      match group raw_line matched 2 with
      | None => (suppress sup None suppressed_line, [])
      | Some category =>
          if str_eqb category (parens (lit "*")) then
            (suppress sup None suppressed_line, [])
          else if startswith category (lit "(")
                  && endswith category (lit ")") then
            let category := slice category 1 (length category - 1) in
            if str_in category _ERROR_CATEGORIES then
              let region := _error_suppressions_region sup in
              let region :=
                if begin_region then region_add category region
                else if end_region then
                  (if str_in category region
                   then region_remove category region else region)
                else region in
              (suppress (with_region sup region) (Some category)
                 suppressed_line, [])
            else
              (sup,
               [report filename (FromString linenum raw_line category true)
                  "readability/nolint" 5
                  (lit "Unknown NOLINT error category: " ++ category)])
          else (sup, [])
      end
  end.

(** [ParseNolintSuppressions]: the directive, then every category of an
    open region is suppressed on this line. *)
Definition ParseNolintSuppressions (sup : Suppressions)
  (filename raw_line : str) (linenum : Z) : Suppressions * list Diagnostic :=
  let (sup1, errors) := parse_directive sup filename raw_line linenum in
  (fold_left (fun s category => suppress s (Some category) linenum)
     (_error_suppressions_region sup1) sup1,
   errors).

(** ** The filter gate, as the specification words it

    "Walk the filter list left to right; the last matching entry wins":
    the entries that apply to a category are those whose text after the
    sign is a prefix of the category, and the verdict is that of the last
    of them. *)

Definition applies (category one_filter : str) : bool :=
  startswith category (skipn 1 one_filter).

Definition last_match (category : str) (fs : list str) : option str :=
  List.find (applies category) (rev fs).

Definition filtered_by_last_match (category : str) (fs : list str) : bool :=
  match last_match category fs with
  | Some one_filter => startswith one_filter (lit "-")
  | None => false
  end.

(** The three gates of [_ShouldPrintError], each on its own. *)
Definition passes_gates (sup : Suppressions) (st : _LintState)
  (category : str) (confidence linenum : Z) : bool :=
  negb (IsErrorSuppressedByNolint sup category linenum)
  && (verbose_level st <=? confidence)
  && match filter_walk category (filters st) false with
     | Ret false => true
     | _ => false
     end.

(** ** A run of the sink

    During a file the rules call [error] again and again while the
    suppression tables evolve; no rule reads the verbosity.  A run is
    therefore the list of the calls made, each with the tables in force at
    that moment.  An [AssertionError] ends the run. *)

Fixpoint run (st : _LintState) (calls : list (Suppressions * Diagnostic))
  : _LintState * py_result unit :=
  match calls with
  | [] => (st, Ret tt)
  | (sup, d) :: calls' =>
      match Error sup st d with
      | Ret st' => run st' calls'
      | Exc e => (st, Exc e)
      end
  end.

(** The diagnostics a run wrote. *)
Definition emitted (st : _LintState) (calls : list (Suppressions * Diagnostic))
  : list Diagnostic :=
  skipn (length (written st)) (written (fst (run st calls))).

(** Whether one call of [Error] writes its diagnostic. *)
Definition emits (sup : Suppressions) (st : _LintState) (d : Diagnostic)
  : bool :=
  match Error sup st d with
  | Ret st' => (length (written st) <? length (written st'))%nat
  | Exc _ => false
  end.

(** The gate as a function of the two settings it reads. *)
Definition gate (v : Z) (fs : list str) (c : Suppressions * Diagnostic)
  : bool :=
  negb (IsErrorSuppressedByNolint (fst c) (d_category (snd c))
          (Line (d_lineref (snd c))))
  && (v <=? d_confidence (snd c))
  && negb (filtered_by_last_match (d_category (snd c)) fs).

(** Two calls used to exercise the sink. *)
Definition two_calls : list (Suppressions * Diagnostic) :=
  [ (ResetNolintSuppressions,
     report (lit "a.vhd") (OnlyLine 3) "whitespace/tab" 1 (lit "Tab found"));
    (ResetNolintSuppressions,
     report (lit "a.vhd") (OnlyLine 4) "runtime/latches" 5 (lit "Latch")) ].

(** ** NOLINT comments over a whole file *)





(** [raw_lines[linenum]] *)
Definition line_at (raw_lines : list str) (linenum : Z) : option str :=
  if linenum <? 0 then None else nth_error raw_lines (Z.to_nat linenum).





(** ** Drivers

    The three driver classes.  Every place that builds a driver
    ([CheckGenerics], [CheckPorts], [CheckConstants], [CheckPortMap],
    [CheckProcess]) gives a plain or a possible driver a string as scope
    and a process driver the start line of its process, an [int]; the
    constructors carry these types. *)

Inductive driver : Type :=
| Driver (scope : str) (line : Z)
| PossibleDriver (scope : str) (line : Z)
| ProcessDriver (scope : Z) (line : Z).

Definition driver_line (d : driver) : Z :=
  match d with
  | Driver _ l | PossibleDriver _ l | ProcessDriver _ l => l
  end.

(** [isinstance(d, PossibleDriver)] *)
Definition is_possible (d : driver) : bool :=
  match d with PossibleDriver _ _ => true | _ => false end.

(** [hash(n)] of an [int] (CPython, 64-bit build). *)
Definition hash_int (n : Z) : Z :=
  let h := Z.sgn n * (Z.abs n mod (2 ^ 61 - 1)) in
  if h =? -1 then -2 else h.

(** [Driver.__eq__]: two drivers on the same line are the same. *)
Definition Driver__eq__ (self other : driver) : bool :=
  driver_line self =? driver_line other.

(** [Driver.__hash__] *)
Definition Driver__hash__ (self : driver) : Z := hash_int (driver_line self).

(** [ProcessDriver.__eq__]: two drivers of the same process are the same;
    the [int] scope of a process driver never equals a string scope. *)
Definition ProcessDriver__eq__ (self other : driver) : bool :=
  match self, other with
  | ProcessDriver s1 _, ProcessDriver s2 _ => s1 =? s2
  | _, _ => false
  end.

(** [ProcessDriver.__hash__] *)
Definition ProcessDriver__hash__ (self : driver) : Z :=
  match self with
  | ProcessDriver s _ => hash_int s
  | _ => Driver__hash__ self
  end.

Definition py_hash (d : driver) : Z :=
  match d with
  | ProcessDriver _ _ => ProcessDriver__hash__ d
  | _ => Driver__hash__ d
  end.

(** [a == b]: the method of the left operand's class, except that a right
    operand of a subclass of the left operand's class is asked first. *)
Definition py_eq (a b : driver) : bool :=
  match a, b with
  | ProcessDriver _ _, _ => ProcessDriver__eq__ a b
  | Driver _ _, ProcessDriver _ _ => ProcessDriver__eq__ b a
  | _, _ => Driver__eq__ a b
  end.

(** [set(...)]: an element is added unless an element already present has
    the same hash and compares equal to it (the present one on the left).
    The list keeps the elements in the order they were added. *)
Definition same (present new : driver) : bool :=
  (py_hash present =? py_hash new) && py_eq present new.

Definition set_insert (acc : list driver) (d : driver) : list driver :=
  if existsb (fun e => same e d) acc then acc else acc ++ [d].

Definition py_set (ds : list driver) : list driver :=
  fold_left set_insert ds [].

(** ** Identifiers with a type *)

Record IdentifierWithType : Type := {
  id_name : str;
  id_lineref : LineRef;
  id_refs : Z;
  id_stype : str;
  id_init : option str;
  id_drivers : list driver
}.

(** [IdentifierWithType.AddDriver] *)
Definition AddDriver (i : IdentifierWithType) (d : driver)
  : IdentifierWithType :=
  {| id_name := id_name i; id_lineref := id_lineref i; id_refs := id_refs i;
     id_stype := id_stype i; id_init := id_init i;
     id_drivers := id_drivers i ++ [d] |}.

Definition GetDrivers (i : IdentifierWithType) : list driver := id_drivers i.

Definition GetUniqueDrivers (i : IdentifierWithType) : list driver :=
  py_set (id_drivers i).

(** [IdentifierWithType.HasMultipleDrivers] *)
Definition HasMultipleDrivers (i : IdentifierWithType) : bool :=
  let unique := GetUniqueDrivers i in
  let known := py_set (filter (fun d => negb (is_possible d)) unique) in
  (1 <? length known)%nat.

(** ** Counting drivers, as the specification words it

    "Multiple drivers holds when the number of drivers that are not
    PossibleDriver, under each class's equality, exceeds one": a plain
    driver counts by its line, a process driver by its scope. *)

Definition known_key (d : driver) : option (Z + Z) :=
  match d with
  | Driver _ l => Some (inl l)
  | ProcessDriver s _ => Some (inr s)
  | PossibleDriver _ _ => None
  end.

Fixpoint known_keys (ds : list driver) : list (Z + Z) :=
  match ds with
  | [] => []
  | d :: ds' =>
      match known_key d with
      | Some k => k :: known_keys ds'
      | None => known_keys ds'
      end
  end.

Definition key_dec (a b : Z + Z) : {a = b} + {a <> b}.
Proof. decide equality; apply Z.eq_dec. Defined.

Definition distinct_known (ds : list driver) : nat :=
  length (nodup key_dec (known_keys ds)).

(** No possible driver is followed by a known driver on its own line. *)
Fixpoint possible_lines_clear (ds : list driver) : bool :=
  match ds with
  | [] => true
  | d :: ds' =>
      (if is_possible d
       then forallb (fun e => is_possible e
                              || negb (driver_line e =? driver_line d)) ds'
       else true)
      && possible_lines_clear ds'
  end.

Definition with_drivers (ds : list driver) : IdentifierWithType :=
  {| id_name := lit "sig"; id_lineref := OnlyLine 1; id_refs := 0;
     id_stype := lit "std_logic"; id_init := None; id_drivers := ds |}.

(** The driver list on which dropping the possible drivers after, instead
    of before, the deduplication shows. *)
Definition absorbed_drivers : list driver :=
  [PossibleDriver [] 5; Driver [] 5; Driver [] 7].

(** Possible drivers already in the set are on other lines than the known
    drivers still to come. *)
Definition apart (acc ds : list driver) : Prop :=
  forall p e, In p acc -> is_possible p = true ->
              In e ds -> is_possible e = false ->
              driver_line e <> driver_line p.

(** ** Whole-file checks *)

Definition marker_front : str :=
  lit "// marker so line numbers and indices both start at 1".
Definition marker_back : str :=
  lit "// marker so line numbers end in a known way".

(** The first statement of [ProcessFileData]: the lines of the file
    between two marker lines. *)
Definition pad (lines : list str) : list str :=
  marker_front :: lines ++ [marker_back].

(** [lines[i]] for an index within range. *)
Definition line_of (lines : list str) (i : Z) : str :=
  nth (Z.to_nat i) lines [].

(** [CheckForHeader] *)
Definition CheckForHeader (filename : str) (lines : list str)
  : list Diagnostic :=
  if negb (startswith (line_of lines 1) (lit "--"))
  then [report filename (OnlyLine 0) "readability/header" 5
          (lit "No file header found.")]
  else [].

(** [CheckForCopyright]: lines 1 to 30 are searched. *)
Definition CheckForCopyright (filename : str) (lines : list str)
  : list Diagnostic :=
  if existsb (fun line =>
                match re_search (Lit (lit "Copyright")) line with
                | Some _ => true
                | None => false
                end)
       (firstn 30 (skipn 1 lines))
  then []
  else [report filename (OnlyLine 0) "legal/copyright" 5
          (lit "No copyright message found.  You should have a line: "
           ++ lit "Copyright [year] <Copyright Owner>")].

Definition nul : ascii := ascii_of_nat 0.

(** [CheckForBadCharacters]: the NUL rule.  The Unicode replacement
    character of the other rule lies outside the modelled range. *)
Fixpoint CheckForBadCharacters_from (filename : str) (lines : list str)
  (linenum : Z) : list Diagnostic :=
  match lines with
  | [] => []
  | line :: rest =>
      (if existsb (chr_eqb nul) line
       then [report filename (FromString linenum line [nul] false)
               "readability/nul" 5 (lit "Line contains NUL byte.")]
       else [])
      ++ CheckForBadCharacters_from filename rest (linenum + 1)
  end.

Definition CheckForBadCharacters (filename : str) (lines : list str)
  : list Diagnostic :=
  CheckForBadCharacters_from filename lines 0.

(** [CheckForNewlineAtEOF]; [lines[-2]] is the last line of the file. *)
Definition CheckForNewlineAtEOF (filename : str) (lines : list str)
  : list Diagnostic :=
  let n := Z.of_nat (length lines) in
  let last := line_of lines (n - 2) in
  if (n <? 3) || negb (match last with [] => true | _ => false end)
  then [report filename (LineRef_init (n - 2) (len last - 1) None 1)
          "whitespace/ending_newline" 5
          (lit "Could not find a newline character at the end of the file.")]
  else [].

(** [IsBlankLine] *)
Definition IsBlankLine (line : str) : bool :=
  match re_match (Seqs [Star true (Cls is_space); Eol]) line with
  | Some _ => true
  | None => false
  end.

(** The last rule of [CheckStyle]: three blank lines in a row, reported
    on the first of them. *)
Fixpoint blank_scan (window : list str) (blank_cnt : Z) : bool :=
  match window with
  | [] => false
  | rline :: rest =>
      let blank_cnt := if IsBlankLine rline then blank_cnt + 1
                       else blank_cnt in
      if 3 <=? blank_cnt then true else blank_scan rest blank_cnt
  end.

Definition CheckStyle_blank_lines (filename : str) (raw_lines : list str)
  (linenum : Z) : list Diagnostic :=
  if blank_scan (firstn 3 (skipn (Z.to_nat linenum) raw_lines)) 0
  then [report filename (OnlyLine linenum) "whitespace/blank_line" 4
          (lit "Redundant blank lines. Consider deleting some of these "
           ++ lit "extra lines.")]
  else [].

(** The reports of these checks in the order [ProcessFileData] runs
    them, for a file with no block comment. *)
Definition file_level_reports (filename : str) (file_lines : list str)
  : list Diagnostic :=
  let lines := pad file_lines in
  CheckForHeader filename lines
  ++ CheckForCopyright filename lines
  ++ flat_map (fun n => CheckStyle_blank_lines filename lines (Z.of_nat n))
       (seq 0 (length lines))
  ++ CheckForBadCharacters filename lines
  ++ CheckForNewlineAtEOF filename lines.



(** ** The line cleanser *)

Definition dquote : ascii := ascii_of_nat 34.
Definition squote : ascii := "'"%char.
Definition backslash : ascii := ascii_of_nat 92.

(** [IsCppString]: the count of double quotes, less the escaped ones and
    the ones written as a character literal, is odd. *)
Definition IsCppString (line : str) : bool :=
  let line := replace line (lit "--") (lit "XX") in
  Z.land (count line [dquote] - count line [backslash; dquote]
          - count line [squote; dquote; squote]) 1 =? 1.

(** [_RE_PATTERN_C_COMMENTS]: slash star, then characters other than a
    star or stars not followed by a slash, then star slash. *)
Definition RE_C_COMMENTS : regex :=
  Seqs [chr "/"; chr "*";
        Star true (Alt (Cls (none_of "*"))
                       (Seq (chr "*") (Look false (chr "/"))));
        chr "*"; chr "/"].

(** [_RE_PATTERN_CLEANSE_LINE_C_COMMENTS]: a comment with the blanks around
    it at the end of the line; or with the blanks after it; or with the
    blanks before it when a non-word character follows; or alone. *)
Definition RE_CLEANSE_LINE_C_COMMENTS : regex :=
  Grp 1 (Alts [
    Seqs [Star true (Cls is_space); RE_C_COMMENTS;
          Star true (Cls is_space); Eol];
    Seqs [RE_C_COMMENTS; Plus true (Cls is_space)];
    Seqs [Plus true (Cls is_space); RE_C_COMMENTS; Look true (Cls not_word)];
    RE_C_COMMENTS ]).

(** The first step of [CleanseComments]: the line is cut at its first
    double dash unless the text before it ends inside a string. *)
Definition strip_line_comment (line : str) : str :=
  let commentpos := find line (lit "--") in
  if negb (commentpos =? -1)
     && negb (IsCppString (slice_to line (Z.to_nat commentpos)))
  then rstrip (slice_to line (Z.to_nat commentpos))
  else line.

(** [CleanseComments] *)
Definition CleanseComments (line : str) : str :=
  re_sub RE_CLEANSE_LINE_C_COMMENTS (strip_line_comment line).

(** [_RE_PATTERN_INCLUDE] *)
Definition RE_INCLUDE : regex :=
  Seqs [Bol; Star true (Cls is_space); chr "#"; Star true (Cls is_space);
        Lit (lit "include"); Star true (Cls is_space);
        Grp 1 (Cls (in_chars [ "<"%char; dquote ]));
        Grp 2 (Star true (Cls (fun c => negb (in_chars [">"%char; dquote] c))));
        Cls (in_chars [ ">"%char; dquote ]);
        Star true (Cls dot); Eol].

Definition is_hex (c : ascii) : bool :=
  is_digit c || one_of "abcdefABCDEF" c.

(** [_RE_PATTERN_CLEANSE_LINE_ESCAPES]: a backslash followed by one of the
    escape letters, by digits, or by x and hexadecimal digits. *)
Definition RE_CLEANSE_LINE_ESCAPES : regex :=
  Seq (Cls (chr_eqb backslash))
      (Grp 1 (Alts [
         Cls (in_chars (lit "abfnrtv?" ++ [dquote; backslash; squote]));
         Plus true (Cls is_digit);
         Seq (chr "x") (Plus true (Cls is_hex)) ])).

Definition is_quote (c : ascii) : bool := in_chars [squote; dquote] c.

(** The pattern of the loop of [_CollapseStrings]: the text before the
    first quote character (group 1), that character (group 2) and the
    rest (group 3). *)
Definition RE_FIRST_QUOTE : regex :=
  Seqs [Bol; Grp 1 (Star true (Cls (fun c => negb (is_quote c))));
        Grp 2 (Cls is_quote); Grp 3 (Star true (Cls dot)); Eol].

Definition group_or_empty (s : str) (st : mstate) (i : nat) : str :=
  match group s st i with Some x => x | None => [] end.

(** The [while True] loop of [_CollapseStrings].  Every turn that continues
    shortens [elided]; [fuel] bounds the number of turns, and [None] stands
    for a loop cut short. *)
Fixpoint collapse_loop (fuel : nat) (elided collapsed : str) : option str :=
  match fuel with
  | O => None
  | S fuel' =>
      match re_match RE_FIRST_QUOTE elided with
      | None => Some (collapsed ++ elided)
      | Some matched =>
          let head := group_or_empty elided matched 1 in
          let quote := group_or_empty elided matched 2 in
          let tail := group_or_empty elided matched 3 in
          if str_eqb quote [dquote] then
            let second_quote := find tail [dquote] in
            if 0 <=? second_quote then
              collapse_loop fuel'
                (slice_from tail (Z.to_nat (second_quote + 1)))
                (collapsed ++ head ++ [dquote; dquote])
            else Some (collapsed ++ elided)
          else Some (collapsed ++ elided)
      end
  end.

(** [CleansedLines._CollapseStrings] *)
Definition _CollapseStrings (elided : str) : option str :=
  match re_match RE_INCLUDE elided with
  | Some _ => Some elided
  | None =>
      let elided := re_sub RE_CLEANSE_LINE_ESCAPES elided in
      collapse_loop (S (length elided)) elided []
  end.

(** [CleansedLines]: the views of a file. *)
Record CleansedLines : Type := {
  elided : list str;
  lines : list str;
  raw_lines : list str;
  num_lines : Z
}.

(** The body of the loop of [CleansedLines.__init__] for one line: the
    entries it appends to [lines] and to [elided]. *)
Definition cleanse_line (raw : str) : option (str * str) :=
  let line := CleanseComments raw in
  match _CollapseStrings line with
  | Some collapsed => Some (line, CleanseComments collapsed)
  | None => None
  end.

Fixpoint cleanse_lines (raws : list str) : option (list str * list str) :=
  match raws with
  | [] => Some ([], [])
  | raw :: raws' =>
      match cleanse_line raw, cleanse_lines raws' with
      | Some (l, e), Some (ls, es) => Some (l :: ls, e :: es)
      | _, _ => None
      end
  end.

(** [CleansedLines.__init__] *)
Definition CleansedLines_init (raws : list str) : option CleansedLines :=
  match cleanse_lines raws with
  | Some (ls, es) =>
      Some {| elided := es; lines := ls; raw_lines := raws;
              num_lines := Z.of_nat (length raws) |}
  | None => None
  end.

Definition NumLines (clean_lines : CleansedLines) : Z :=
  num_lines clean_lines.

(** ** Vocabulary for the facts about the cleanser *)

(** A continuation (or a matcher under a continuation) that fails on every
    state whose remaining text satisfies [P]. *)
Definition fails_where (P : str -> Prop) (k : mstate -> option mstate)
  : Prop :=
  forall st, P (m_rest st) -> k st = None.

(** [P] holds of the tail of a text whenever it holds of the text. *)
Definition tail_closed (P : str -> Prop) : Prop :=
  forall c t, P (c :: t) -> P t.

(** The match state after the characters of [h] have been read. *)
Fixpoint consume (h : str) (st : mstate) : mstate :=
  match h with
  | [] => st
  | c :: h' => consume h' (advance c (tl (m_rest st)) st)
  end.

(** The text has no occurrence of slash-star. *)
Fixpoint opens_comment (s : str) : bool :=
  match s with
  | [] => false
  | c :: t =>
      (chr_eqb c "/" && match t with
                        | d :: _ => chr_eqb d "*"
                        | [] => false
                        end)
      || opens_comment t
  end.

(** A line the amended idempotence covers: no block comment opener, no
    backslash, no newline character. *)
Definition plain_line (raw : str) : Prop :=
  find raw (lit "/*") = -1
  /\ existsb (chr_eqb backslash) raw = false
  /\ existsb (chr_eqb newline) raw = false.

(** Cleansing twice is cleansing once: the views of a file, cleansed
    again, come out as they are. *)
Definition cleansing_idempotent (raws : list str) : Prop :=
  exists c,
    CleansedLines_init raws = Some c
    /\ (exists c1, CleansedLines_init (lines c) = Some c1
                   /\ lines c1 = lines c /\ elided c1 = elided c)
    /\ (exists c2, CleansedLines_init (elided c) = Some c2
                   /\ lines c2 = elided c /\ elided c2 = elided c).

(** The longest prefix of characters satisfying [p], and what follows. *)
Fixpoint take_while (p : ascii -> bool) (s : str) : str :=
  match s with
  | c :: t => if p c then c :: take_while p t else []
  | [] => []
  end.

Fixpoint drop_while (p : ascii -> bool) (s : str) : str :=
  match s with
  | c :: t => if p c then drop_while p t else s
  | [] => []
  end.

Definition not_quote (c : ascii) : bool := negb (is_quote c).

(** The class [p] does not match at the start of [t]. *)
Definition stops (p : ascii -> bool) (t : str) : Prop :=
  match t with [] => True | c :: _ => p c = false end.

(** The shape of a line after the collapsing loop: text without quote
    characters, then either nothing more, or a quote that ends the loop (a
    single quote, or a double quote with no partner), or an empty pair of
    double quotes and a line of that shape again. *)
Inductive collapsed : str -> Prop :=
| cd_plain s : forallb not_quote s = true -> collapsed s
| cd_stop h q tail :
    forallb not_quote h = true -> is_quote q = true ->
    chr_eqb q dquote = false \/ existsb (chr_eqb dquote) tail = false ->
    collapsed (h ++ q :: tail)
| cd_pair h y :
    forallb not_quote h = true -> collapsed y ->
    collapsed (h ++ dquote :: dquote :: y).

(** The three properties of [plain_line] in the form the proofs use. *)
Definition tame (s : str) : Prop :=
  opens_comment s = false
  /\ existsb (chr_eqb backslash) s = false
  /\ forallb dot s = true.

(** Lines for the facts about the cleanser: a string with a double dash
    in it followed by a comment, and a block comment between two dashes. *)
Definition quoted_dash_line : str :=
  lit "x <= " ++ [dquote] ++ lit "ab--c" ++ [dquote] ++ lit " & y; -- note".

Definition dashes_around_comment : str := lit "a <= b -/* neg */- c;".

Definition escapes_line : str :=
  [backslash] ++ lit "x" ++ [backslash] ++ lit "n41".

(** ** The expression matcher *)

(** [s[i:j]] with Python's treatment of negative and overlong indices. *)
Definition clamp (n i : Z) : nat :=
  Z.to_nat (Z.max 0 (Z.min n (if i <? 0 then i + n else i))).

Definition py_slice (s : str) (i j : Z) : str :=
  slice s (clamp (len s) i) (clamp (len s) j).

(** The pattern [\boperator\s*$]. *)
Definition RE_OPERATOR : regex :=
  Seqs [Wb; Lit (lit "operator"); Star true (Cls is_space); Eol].

Definition found (r : regex) (s : str) : bool :=
  match re_search r s with Some _ => true | None => false end.

Definition matched (r : regex) (s : str) : bool :=
  match re_match r s with Some _ => true | None => false end.

Definition opt_chr_is (o : option ascii) (c : ascii) : bool :=
  match o with Some x => chr_eqb x c | None => false end.

(** The nesting stack, innermost bracket first. *)
Fixpoint pop_angles (stack : list ascii) : list ascii :=
  match stack with
  | c :: stack' => if chr_eqb c "<" then pop_angles stack' else stack
  | [] => []
  end.

Definition closes (open close : ascii) : bool :=
  chr_eqb open "(" && chr_eqb close ")"
  || chr_eqb open "[" && chr_eqb close "]"
  || chr_eqb open "{" && chr_eqb close "}".

(** [FindEndOfExpressionInLine]: [rest] is [line[i:]] and [before] is
    [line[i - 1]].  The result is the end position, or [-1] and the stack
    at the end of the line ([None] for an expression that cannot be
    closed). *)
Fixpoint find_end_in_line (line rest : str) (before : option ascii)
  (i : nat) (stack : list ascii) : Z * option (list ascii) :=
  match rest with
  | [] => (-1, Some stack)
  | char :: rest' =>
      let next := find_end_in_line line rest' (Some char) (S i) in
      if one_of "([{" char then next (char :: stack)
      else if chr_eqb char "<" then
        if (0 <? i)%nat && opt_chr_is before "<" then
          match stack with
          | top :: stack' =>
              if chr_eqb top "<" then
                match stack' with
                | [] => (-1, None)
                | _ => next stack'
                end
              else next stack
          | [] => next stack
          end
        else if (0 <? i)%nat && found RE_OPERATOR (slice_to line i)
        then next stack
        else next ("<"%char :: stack)
      else if one_of ")]}" char then
        match pop_angles stack with
        | [] => (-1, None)
        | top :: stack' =>
            if closes top char then
              match stack' with
              | [] => (Z.of_nat i + 1, None)
              | _ => next stack'
              end
            else (-1, None)
        end
      else if chr_eqb char ">" then
        if (0 <? i)%nat
           && (opt_chr_is before "-"
               || found RE_OPERATOR (slice_to line (i - 1)))
        then next stack
        else
          match stack with
          | top :: stack' =>
              if chr_eqb top "<" then
                match stack' with
                | [] => (Z.of_nat i + 1, None)
                | _ => next stack'
                end
              else next stack
          | [] => next stack
          end
      else if chr_eqb char ";" then
        match pop_angles stack with
        | [] => (-1, None)
        | stack' => next stack'
        end
      else next stack
  end.

Definition FindEndOfExpressionInLine (line : str) (startpos : nat)
  (stack : list ascii) : Z * option (list ascii) :=
  find_end_in_line line (skipn startpos line)
    (match startpos with
     | O => None
     | S n => nth_error line n
     end)
    startpos stack.

(** The loop of [CloseExpression] over the lines after the first;
    [following] holds the elided lines from [linenum + 1] on.  The result
    is the line, its number and the end position. *)
Fixpoint close_forward (following : list str) (line : str) (linenum : Z)
  (stack : option (list ascii)) (num_lines : Z) : str * Z * Z :=
  match stack, following with
  | Some ((_ :: _) as stack), line' :: following' =>
      match FindEndOfExpressionInLine line' 0 stack with
      | (end_pos, stack') =>
          if -1 <? end_pos then (line', linenum + 1, end_pos)
          else close_forward following' line' (linenum + 1) stack' num_lines
      end
  | _, _ => (line, num_lines, -1)
  end.

(** The pattern [<[<=]]. *)
Definition RE_SHIFT_OR_LE : regex := Seq (chr "<") (Cls (one_of "<=")).

(** [CloseExpression]; [line[pos]] raises [IndexError] beyond the end of
    the elided line. *)
Definition CloseExpression (clean_lines : CleansedLines) (linenum : Z)
  (pos : nat) : py_result (str * Z * Z) :=
  let line := line_of (elided clean_lines) linenum in
  match nth_error line pos with
  | None => Exc IndexError
  | Some c =>
      if negb (one_of "({[<" c) || matched RE_SHIFT_OR_LE (slice_from line pos)
      then Ret (line, NumLines clean_lines, -1)
      else
        match FindEndOfExpressionInLine line pos [] with
        | (end_pos, stack) =>
            if -1 <? end_pos then Ret (line, linenum, end_pos)
            else Ret (close_forward
                        (skipn (Z.to_nat (linenum + 1)) (elided clean_lines))
                        line linenum stack (NumLines clean_lines))
        end
  end.

(** [ExtractExpression] *)
Definition ExtractExpression (clean_lines : CleansedLines) (line_num : Z)
  (pos : nat) : py_result (str * Z * Z) :=
  match CloseExpression clean_lines line_num pos with
  | Exc e => Exc e
  | Ret (endline, endlinenum, endpos) =>
      let first := line_of (lines clean_lines) line_num in
      if line_num =? endlinenum then
        Ret (py_slice first (Z.of_nat pos + 1) (endpos - 1),
             endlinenum, endpos)
      else
        let between :=
          firstn (Z.to_nat (endlinenum - (line_num + 1)))
            (skipn (Z.to_nat (line_num + 1)) (lines clean_lines)) in
        Ret (slice_from first (pos + 1) ++ concat between
             ++ py_slice endline 0 (endpos - 1),
             endlinenum, endpos)
  end.

(** ** The declaration parser *)

Definition RE_WS : regex := Star true (Cls is_space).

(** The pattern of [MatchDeclaration], matched under IGNORECASE:
    an optional kind (groups 1 and 2), the names (group 3, as short as
    possible), a colon, an optional word (group 4, the direction), the
    type up to a semicolon or colon (group 5), an optional initial value
    (groups 6 and 7) and an optional semicolon. *)
Definition RE_DECLARATION : regex :=
  Seqs [RE_WS;
        Opt true (Grp 1 (Seqs [Wb;
                               Grp 2 (Alts [LitI (lit "variable");
                                            LitI (lit "signal");
                                            LitI (lit "constant")]);
                               Wb]));
        RE_WS;
        Grp 3 (Plus false (Cls dot));
        RE_WS; chr ":"; RE_WS;
        Opt true (Grp 4 (Seqs [Wb; Plus true (Cls is_word); Wb]));
        RE_WS;
        Grp 5 (Seqs [Wb; Cls is_word; Plus true (Cls (none_of ";:"))]);
        RE_WS;
        Opt true (Grp 6 (Seqs [Lit (lit ":="); RE_WS;
                               Grp 7 (Plus true (Cls (none_of ";")))]));
        Opt true (chr ";")].

(** The pattern [:=\s*\(\s*]. *)
Definition RE_INIT_PAREN : regex :=
  Seqs [Lit (lit ":="); RE_WS; chr "("; RE_WS].

(** ["".join(s.split())]: the text without its whitespace. *)
Definition remove_whitespace (s : str) : str :=
  filter (fun c => negb (is_space c)) s.

(** What [MatchDeclaration] returns when it finds a declaration. *)
Record Declaration : Type := {
  decl_type : option str;
  name_list : list str;
  direction : option str;
  stype : str;
  init : option str;
  decl_pos : Z
}.

Definition is_str (s : str) (t : string) : bool := str_eqb s (lit t).

(** The integer-range rule at the end of [MatchDeclaration]. *)
Definition integer_reports (filename : str) (line_num : Z) (oline : str)
  (decl_type : option str) (stype : str) (check_int_range : bool)
  : list Diagnostic :=
  if negb (opt_is decl_type "constant") && check_int_range then
    (if is_str stype "integer"
     then [report filename (FromString line_num oline stype true)
             "runtime/integers" 5
             (lit "Integer types must have a range specified.")]
     else [])
    ++ (if is_str stype "natural"
        then [report filename (FromString line_num oline stype true)
                "runtime/integers" 5
                (lit "Natural types must have a range specified.")]
        else [])
    ++ (if is_str stype "positive"
        then [report filename (FromString line_num oline stype true)
                "runtime/integers" 5
                (lit "Positive types must have a range specified.")]
        else [])
  else [].

(** [MatchDeclaration]: the diagnostics handed to [error] and the
    declaration found, [None] standing for "no match". *)
Definition MatchDeclaration (filename : str) (clean_lines : CleansedLines)
  (line_num : Z) (pos : nat) (check_int_range : bool)
  (req_decl_type : option str) (endpos : option Z)
  : py_result (list Diagnostic * option Declaration) :=
  let oline := line_of (lines clean_lines) line_num in
  let oline := match endpos with
               | Some e => py_slice oline 0 e
               | None => oline
               end in
  let line := slice_from oline pos in
  match re_match RE_DECLARATION line with
  | None => Ret ([], None)
  | Some m =>
      let decl_type := option_map (fun s => strip (lower s)) (group line m 2) in
      let names := group_or_empty line m 3 in
      let direction := option_map strip (group line m 4) in
      let stype := strip (group_or_empty line m 5) in
      let init := option_map strip (group line m 7) in
      let pos := (pos + m_pos m)%nat in
      if match req_decl_type, decl_type with
         | Some r, Some t => negb (str_eqb r t)
         | Some _, None => true
         | None, _ => false
         end
      then Ret ([], None)
      else
        let name_list := split ","%char (remove_whitespace names) in
        let finish (init : option str) (pos : nat) :=
          Ret ((if (1 <? length name_list)%nat
                then [report filename (FromString line_num oline names true)
                        "readability/declarations" 1
                        (lit "Avoid using multiple declarations per line.")]
                else [])
               ++ integer_reports filename line_num oline decl_type stype
                    check_int_range,
               Some {| decl_type := decl_type; name_list := name_list;
                       direction := direction; stype := stype;
                       init := init; decl_pos := Z.of_nat pos |}) in
        match re_search RE_INIT_PAREN (slice_from line pos) with
        | None => finish init pos
        | Some (_, m') =>
            let pos := (m_pos m' - 1)%nat in
            match ExtractExpression clean_lines line_num pos with
            | Exc e => Exc e
            | Ret (string, _, _) =>
                finish (Some (lit "(" ++ remove_whitespace string ++ lit ")"))
                       pos
            end
        end
  end.



(** One line as a cleansed file. *)
Definition one_line (line : string) : CleansedLines :=
  {| elided := [lit line]; lines := [lit line]; raw_lines := [lit line];
     num_lines := 1 |}.

(** ** Results of rule functions

    A rule function returns, raises, or leaves the part of the linter
    that this development follows: a function or a procedure declared
    inside a process (their bodies are checked by [CheckFunction] and
    [CheckProcedure]), and a label that is not a plain word (the source
    pastes the label into a pattern, where other characters would be read
    as pattern syntax). *)

Inductive outcome (A : Type) : Type :=
| Returns (a : A)
| Raises (e : exn)
| Unmodelled.

Arguments Returns {A} a.
Arguments Raises {A} e.
Arguments Unmodelled {A}.

Definition bind {A B} (x : outcome A) (f : A -> outcome B) : outcome B :=
  match x with
  | Returns a => f a
  | Raises e => Raises e
  | Unmodelled => Unmodelled
  end.

Definition of_result {A} (x : py_result A) : outcome A :=
  match x with
  | Ret a => Returns a
  | Exc e => Raises e
  end.

(** ** Symbol tables

    The module-level tables as far as the process rule reads and writes
    them: the signals (ports included) and the constants, each a [dict]
    from the lower-case name to the identifier, and the stack of local
    scopes, the innermost last.  An identifier is stored once, in the
    table of its kind; [_all_identifiers] and [_other_identifiers] hold
    further references for the naming and usage rules and are left out,
    and so are the reference counts that [CheckIdentifiers] bumps. *)

Definition dict (A : Type) : Type := list (str * A).

Fixpoint lookup {A} (k : str) (d : dict A) : option A :=
  match d with
  | [] => None
  | (k', v) :: d' => if str_eqb k k' then Some v else lookup k d'
  end.

(** [d[k] = v]: an existing key keeps its place. *)
Fixpoint store {A} (k : str) (v : A) (d : dict A) : dict A :=
  match d with
  | [] => [(k, v)]
  | (k', v') :: d' =>
      if str_eqb k k' then (k', v) :: d' else (k', v') :: store k v d'
  end.

(** A [Variable] or a [LocalConstant]. *)
Record LocalIdentifier : Type := {
  is_constant : bool;
  local : IdentifierWithType
}.

Record symbols : Type := {
  _signal_identifiers : dict IdentifierWithType;
  _constant_identifiers : dict IdentifierWithType;
  _local_identifiers : list (dict LocalIdentifier)
}.

Definition with_signals (st : symbols) (d : dict IdentifierWithType)
  : symbols :=
  {| _signal_identifiers := d;
     _constant_identifiers := _constant_identifiers st;
     _local_identifiers := _local_identifiers st |}.

Definition with_constants (st : symbols) (d : dict IdentifierWithType)
  : symbols :=
  {| _signal_identifiers := _signal_identifiers st;
     _constant_identifiers := d;
     _local_identifiers := _local_identifiers st |}.

Definition with_locals (st : symbols) (scopes : list (dict LocalIdentifier))
  : symbols :=
  {| _signal_identifiers := _signal_identifiers st;
     _constant_identifiers := _constant_identifiers st;
     _local_identifiers := scopes |}.

Definition is_some {A} (o : option A) : bool :=
  match o with Some _ => true | None => false end.

Definition IsSignalIdentifier (st : symbols) (name : str) : bool :=
  is_some (lookup (lower name) (_signal_identifiers st)).

Definition GetSignalIdentifier (st : symbols) (name : str)
  : option IdentifierWithType :=
  lookup (lower name) (_signal_identifiers st).

Definition IsConstantIdentifier (st : symbols) (name : str) : bool :=
  is_some (lookup (lower name) (_constant_identifiers st)).

Definition GetConstantIdentifier (st : symbols) (name : str)
  : option IdentifierWithType :=
  lookup (lower name) (_constant_identifiers st).

(** The entry of the first scope, from the outermost on, that holds the
    name. *)
Fixpoint first_scope (k : str) (scopes : list (dict LocalIdentifier))
  : option LocalIdentifier :=
  match scopes with
  | [] => None
  | scope :: rest =>
      match lookup k scope with
      | Some v => Some v
      | None => first_scope k rest
      end
  end.

Definition IsVariableIdentifier (st : symbols) (name : str) : bool :=
  match first_scope (lower name) (_local_identifiers st) with
  | Some v => negb (is_constant v)
  | None => false
  end.

Definition GetVariableIdentifier (st : symbols) (name : str)
  : option IdentifierWithType :=
  option_map local (first_scope (lower name) (_local_identifiers st)).

Definition IsSignalOrVariableIdentifier (st : symbols) (name : str) : bool :=
  IsVariableIdentifier st name || IsSignalIdentifier st name.

Definition IsIdentifierWithType (st : symbols) (name : str) : bool :=
  if IsVariableIdentifier st name then true
  else if IsSignalIdentifier st name then true
  else if IsConstantIdentifier st name then true
  else false.

Definition GetIdentifierWithType (st : symbols) (name : str)
  : option IdentifierWithType :=
  if IsVariableIdentifier st name then GetVariableIdentifier st name
  else if IsSignalIdentifier st name then GetSignalIdentifier st name
  else if IsConstantIdentifier st name then GetConstantIdentifier st name
  else None.

(** The change of the first scope that holds the name. *)
Fixpoint update_scope (k : str) (f : IdentifierWithType -> IdentifierWithType)
  (scopes : list (dict LocalIdentifier)) : list (dict LocalIdentifier) :=
  match scopes with
  | [] => []
  | scope :: rest =>
      match lookup k scope with
      | Some v =>
          store k {| is_constant := is_constant v; local := f (local v) |}
            scope :: rest
      | None => scope :: update_scope k f rest
      end
  end.

(** [GetIdentifierWithType(name).AddDriver(d)]: the identifier object is
    changed in place, in the table that holds it. *)
Definition add_driver (st : symbols) (name : str) (d : driver) : symbols :=
  let k := lower name in
  if IsVariableIdentifier st name then
    with_locals st
      (update_scope k (fun i => AddDriver i d) (_local_identifiers st))
  else if IsSignalIdentifier st name then
    match GetSignalIdentifier st name with
    | Some i => with_signals st (store k (AddDriver i d) (_signal_identifiers st))
    | None => st
    end
  else if IsConstantIdentifier st name then
    match GetConstantIdentifier st name with
    | Some i =>
        with_constants st (store k (AddDriver i d) (_constant_identifiers st))
    | None => st
    end
  else st.

(** [AddLocalScope] *)
Definition AddLocalScope (st : symbols) : symbols :=
  with_locals st (_local_identifiers st ++ [[]]).

(** [RemoveLocalScope]: the last scope is popped (its unused identifiers
    are reported in a category of their own). *)
Definition RemoveLocalScope (st : symbols) : py_result symbols :=
  match _local_identifiers st with
  | [] => Exc IndexError
  | _ => Ret (with_locals st (removelast (_local_identifiers st)))
  end.

Definition new_identifier (name stype : str) (init : option str)
  (lineref : LineRef) : IdentifierWithType :=
  {| id_name := name; id_lineref := lineref; id_refs := 0;
     id_stype := stype; id_init := init; id_drivers := [] |}.

(** [AddLocalIdentifier]: the identifier enters the last scope;
    [_local_identifiers[-1]] raises [IndexError] when there is none. *)
Definition AddLocalIdentifier (st : symbols) (name stype : str)
  (init : option str) (lineref : LineRef) (constant : bool)
  : py_result symbols :=
  match _local_identifiers st with
  | [] => Exc IndexError
  | scopes =>
      Ret (with_locals st
             (removelast scopes
              ++ [store (lower name)
                    {| is_constant := constant;
                       local := new_identifier name stype init lineref |}
                    (last scopes [])]))
  end.

(** ** Sets of names

    [set(...)] of strings: Python iterates over such a set in an order
    that depends on the hash seed of the run.  The development is
    parametric in it: [set_order l] is the order in which the run iterates
    over the set built from the list [l], [intersection_order l] the order
    in which it iterates over an intersection whose elements are those of
    [l]. *)

Definition str_dec (a b : str) : {a = b} + {a <> b} :=
  list_eq_dec ascii_dec a b.

Class SetOrder : Type := {
  set_order : list str -> list str;
  set_order_perm : forall l, Permutation (set_order l) (nodup str_dec l);
  intersection_order : list str -> list str;
  intersection_order_perm :
    forall l, Permutation (intersection_order l) (nodup str_dec l)
}.

(** [s.add(x)], the set kept as the list of its elements. *)
Definition str_set_add (x : str) (s : list str) : list str :=
  if str_in x s then s else s ++ [x].

(** ** Uses of identifiers *)

Definition space : regex := Cls is_space.
Definition any : regex := Cls dot.
Definition word : regex := Cls is_word.

(** [_PATTERN_IDENTIFIER_USE], its three groups numbered from [n]: a
    dotted name (group [n+1]) and an optional parenthesised part (group
    [n+2]). *)
Definition IDENTIFIER_USE (n : nat) : regex :=
  Grp n (Seq (Grp (n + 1)
                (Seq word
                   (Star true (Cls (fun c => is_word c || chr_eqb c ".")))))
           (Opt true (Grp (n + 2)
                        (Seqs [RE_WS; chr "("; Star false any; chr ")"])))).

(** The assignment pattern of [FindUsedVariables]: as little text as
    possible, an identifier use, [<=] or [:=], the right-hand side
    (group 4) up to the last semicolon. *)
Definition RE_ASSIGNMENT : regex :=
  Seqs [Star false any; IDENTIFIER_USE 1; RE_WS; Cls (one_of "<:"); chr "=";
        Grp 4 (Star true any); chr ";"].

(** [FindUsedVariables]: the names written and read, in the order in which
    the two sets are built, and whether the line is an assignment. *)
Definition FindUsedVariables (st : symbols) (line : str)
  (direct_lhs_name : bool) : list str * list str * bool :=
  match re_match RE_ASSIGNMENT line with
  | Some m =>
      let write_words :=
        if direct_lhs_name then [group_or_empty line m 1]
        else findall RE_WORDS (group_or_empty line m 2) in
      (filter (IsSignalIdentifier st) write_words,
       filter (IsSignalIdentifier st)
         (findall RE_WORDS (group_or_empty line m 4)),
       true)
  | None =>
      ([], filter (IsSignalIdentifier st) (findall RE_WORDS line), false)
  end.

(** ** Lines of a range *)

(** [for l in xrange(l, l + n): if p(lines[l]): return l]. *)
Fixpoint first_line (p : str -> bool) (all_lines : list str) (n : nat)
  (l : Z) : option Z :=
  match n with
  | O => None
  | S n' =>
      if p (line_of all_lines l) then Some l
      else first_line p all_lines n' (l + 1)
  end.

(** The number of lines [xrange(a, b)] runs through. *)
Definition span (a b : Z) : nat := Z.to_nat (b - a).

(** ['%s' % label] read as a pattern: a plain word stands for itself, the
    missing label for the word [None]. *)
Definition label_pattern (label : option str) : option regex :=
  match label with
  | None => Some (LitI (lit "None"))
  | Some s => if forallb is_word s then Some (LitI s) else None
  end.

(** ** Functions and procedures inside a process

    [CheckFunctions] and [CheckProcedures] as far as they decide whether a
    subprogram starts on the line: the header pattern and the search for
    the end line. *)

Definition RE_FUNCTION : regex :=
  Seqs [RE_WS;
        Opt true (Grp 1 (Seqs [Wb;
                               Grp 2 (Alt (LitI (lit "pure"))
                                          (LitI (lit "impure")));
                               Plus true space]));
        Wb; LitI (lit "function"); Plus true space; Grp 3 (Plus true word)].

Definition RE_PROCEDURE : regex :=
  Seqs [RE_WS; Wb; LitI (lit "procedure"); Plus true space;
        Grp 1 (Plus true word)].

(** [.*\bend\b\s*(kind|NAME|kind\s+NAME|)\s*;] *)
Definition RE_END_SUBPROGRAM (kind : string) (name : str) : regex :=
  Seqs [Star true any; Wb; LitI (lit "end"); Wb; RE_WS;
        Grp 1 (Alts [LitI (lit kind); LitI name;
                     Seqs [LitI (lit kind); Plus true space; LitI name];
                     Eps]);
        RE_WS; chr ";"].

Definition subprogram_found (header : regex) (name_group : nat)
  (kind : string) (clean_lines : CleansedLines) (line_num : Z) : option Z :=
  let pline := line_of (lines clean_lines) line_num in
  match re_match header pline with
  | None => None
  | Some m =>
      let name := group_or_empty pline m name_group in
      first_line (matched (RE_END_SUBPROGRAM kind name)) (lines clean_lines)
        (span line_num (NumLines clean_lines)) line_num
  end.

(** The end line of the function that [CheckFunctions] finds at the line,
    if it finds one. *)
Definition CheckFunctions_found : CleansedLines -> Z -> option Z :=
  subprogram_found RE_FUNCTION 3 "function".

Definition CheckProcedures_found : CleansedLines -> Z -> option Z :=
  subprogram_found RE_PROCEDURE 1 "procedure".

(** ** Local declarations *)

Fixpoint add_locals (st : symbols) (line_num : Z) (line : str)
  (names : list str) (stype : str) (init : option str) (constant : bool)
  : py_result symbols :=
  match names with
  | [] => Ret st
  | name :: rest =>
      match AddLocalIdentifier st name stype init
              (FromString line_num line name true) constant with
      | Exc e => Exc e
      | Ret st' => add_locals st' line_num line rest stype init constant
      end
  end.

(** [CheckVariables]: the tables after the call and the names declared,
    [None] when the line declares no variable. *)
Definition CheckVariables (filename : str) (clean_lines : CleansedLines)
  (line_num : Z) (check_int_range : bool) (st : symbols)
  : py_result (symbols * option (list str)) :=
  let line := line_of (lines clean_lines) line_num in
  match MatchDeclaration filename clean_lines line_num 0 check_int_range
          (Some (lit "variable")) None with
  | Exc e => Exc e
  | Ret (_, None) => Ret (st, None)
  | Ret (_, Some d) =>
      match add_locals st line_num line (name_list d) (stype d) (init d)
              false with
      | Exc e => Exc e
      | Ret st' => Ret (st', Some (name_list d))
      end
  end.

(** [CheckLocalConstants] *)
Definition CheckLocalConstants (filename : str) (clean_lines : CleansedLines)
  (line_num : Z) (st : symbols) : py_result symbols :=
  let line := line_of (lines clean_lines) line_num in
  match MatchDeclaration filename clean_lines line_num 0 false
          (Some (lit "constant")) None with
  | Exc e => Exc e
  | Ret (_, None) => Ret st
  | Ret (_, Some d) =>
      add_locals st line_num line (name_list d) (stype d) (init d) true
  end.

(** ** The process rule: patterns

    All of them are matched through [Match], under IGNORECASE. *)

(** [.*?(IDENTIFIER_USE)'event] *)
Definition RE_EVENT_CLOCK : regex :=
  Seqs [Star false any; Grp 1 (IDENTIFIER_USE 2); LitI (lit "'event")].

(** [.*\bEDGE\s*\((IDENTIFIER_USE)\)] for [rising_edge], [falling_edge]. *)
Definition RE_EDGE (edge : string) : regex :=
  Seqs [Star true any; Wb; LitI (lit edge); RE_WS; chr "(";
        Grp 1 (IDENTIFIER_USE 2); chr ")"].

(** [^(\w+.)?clk.*], [.*clk$] and [.*clk_i$] *)
Definition RE_CLK_PREFIX : regex :=
  Seqs [Bol; Opt true (Grp 1 (Seq (Plus true word) any)); LitI (lit "clk");
        Star true any].
Definition RE_CLK_SUFFIX : regex :=
  Seqs [Star true any; LitI (lit "clk"); Eol].
Definition RE_CLK_I_SUFFIX : regex :=
  Seqs [Star true any; LitI (lit "clk_i"); Eol].

(** [.*\bbegin\b] *)
Definition RE_BEGIN : regex :=
  Seqs [Star true any; Wb; LitI (lit "begin"); Wb].

(** An optional label: [((.*?)\s*:)?], groups 1 and 2. *)
Definition RE_LABEL : regex :=
  Opt true (Grp 1 (Seqs [Grp 2 (Star false any); RE_WS; chr ":"])).

(** [\s*((.*?)\s*:)?.*\bcase\s+(.+?)\s+is] *)
Definition RE_CASE : regex :=
  Seqs [RE_WS; RE_LABEL; Star true any; Wb; LitI (lit "case");
        Plus true space; Grp 3 (Plus false any); Plus true space;
        LitI (lit "is")].

(** [.*\bend\s+WHAT(\s+LABEL)?\b] for [case] and [loop]. *)
Definition RE_END_BLOCK (what : string) (label : regex) : regex :=
  Seqs [Star true any; Wb; LitI (lit "end"); Plus true space;
        LitI (lit what); Opt true (Grp 1 (Seq (Plus true space) label)); Wb].

(** [\s*((.*?)\s*:)?.*\bloop\b\s*$] *)
Definition RE_LOOP : regex :=
  Seqs [RE_WS; RE_LABEL; Star true any; Wb; LitI (lit "loop"); Wb; RE_WS;
        Eol].

(** [.*?(\w+)'event] *)
Definition RE_EVENT : regex :=
  Seqs [Star false any; Grp 1 (Plus true word); LitI (lit "'event")].

(** [.*?\bwhen\s+(.*?)\s*=>] *)
Definition RE_WHEN : regex :=
  Seqs [Star false any; Wb; LitI (lit "when"); Plus true space;
        Grp 1 (Star false any); RE_WS; Lit (lit "=>")].

(** [.*?((.*?)\s*[<:]\=(.*?))\s*;] *)
Definition RE_STATE_ASSIGNMENT : regex :=
  Seqs [Star false any;
        Grp 1 (Seqs [Grp 2 (Star false any); RE_WS; Cls (one_of "<:");
                     chr "="; Grp 3 (Star false any)]);
        RE_WS; chr ";"].

(** The header of a process: an optional label, the word [process] and
    an optional parenthesised list (group 3; its inside, taken greedily,
    is group 4). *)
Definition RE_PROCESS : regex :=
  Seqs [RE_WS; RE_LABEL; RE_WS; Wb; LitI (lit "process"); Wb; RE_WS;
        Opt true (Grp 3 (Seqs [chr "("; Grp 4 (Star true any); chr ")"]))].

(** [.*\bend\s+(process|LABEL|process\s+LABEL)\b] *)
Definition RE_END_PROCESS (label : regex) : regex :=
  Seqs [Star true any; Wb; LitI (lit "end"); Plus true space;
        Grp 1 (Alts [LitI (lit "process"); label;
                     Seqs [LitI (lit "process"); Plus true space; label]]);
        Wb].

(** [\bprocess\s*\(], looked for through [Search], which does not ignore
    the case. *)
Definition RE_PROCESS_PAREN : regex :=
  Seqs [Wb; Lit (lit "process"); RE_WS; chr "("].

(** ** The process rule: its parts *)

(** ['%d' % n] *)
Fixpoint digits (u : Decimal.uint) : str :=
  match u with
  | Decimal.Nil => []
  | Decimal.D0 u' => "0"%char :: digits u'
  | Decimal.D1 u' => "1"%char :: digits u'
  | Decimal.D2 u' => "2"%char :: digits u'
  | Decimal.D3 u' => "3"%char :: digits u'
  | Decimal.D4 u' => "4"%char :: digits u'
  | Decimal.D5 u' => "5"%char :: digits u'
  | Decimal.D6 u' => "6"%char :: digits u'
  | Decimal.D7 u' => "7"%char :: digits u'
  | Decimal.D8 u' => "8"%char :: digits u'
  | Decimal.D9 u' => "9"%char :: digits u'
  end.

Definition decimal (n : Z) : str :=
  match Z.to_int n with
  | Decimal.Pos u => digits u
  | Decimal.Neg u => "-"%char :: digits u
  end.

(** [s.rsplit(',', 1)[0]]: the text before the last comma, or all of it. *)
Fixpoint rsplit_head (s : str) : str :=
  match s with
  | [] => []
  | c :: s' =>
      if existsb (chr_eqb ","%char) s' then c :: rsplit_head s'
      else if chr_eqb c ","%char then [] else s
  end.

(** The duplicates of the sensitivity list, in the order in which
    [Counter] first meets them. *)
Definition duplicates (sensitivity_list : list str) : list str :=
  filter (fun k => 1 <? count_occ str_dec sensitivity_list k)%nat
    (fold_left (fun keys k => str_set_add k keys) sensitivity_list []).

(** The search for a clock: [(sequential, clk_name, clk_line)]. *)
Fixpoint find_clock (all_lines : list str) (n : nat) (l clk_line : Z)
  : bool * str * Z :=
  match n with
  | O => (false, [], clk_line)
  | S n' =>
      let pline := line_of all_lines l in
      match re_match RE_EVENT_CLOCK pline with
      | Some m => (true, group_or_empty pline m 1, l)
      | None =>
          match re_match (RE_EDGE "rising_edge") pline with
          | Some m => (true, group_or_empty pline m 1, l)
          | None =>
              match re_match (RE_EDGE "falling_edge") pline with
              | Some m => (true, group_or_empty pline m 1, l)
              | None => find_clock all_lines n' (l + 1) l
              end
          end
      end
  end.

(** The body of [CheckCaseStatement] as far as it can raise: in a
    sequential process, an assignment to the case expression met before
    any [when] calls [lower] on [None]. *)
Fixpoint CheckCaseStatement (all_lines : list str) (name : str)
  (is_sequential : bool) (n : nat) (l : Z) (current_state : option str)
  : py_result unit :=
  match n with
  | O => Ret tt
  | S n' =>
      let pline := line_of all_lines l in
      let current_state :=
        match re_match RE_WHEN pline with
        | Some m => Some (group_or_empty pline m 1)
        | None => current_state
        end in
      let next := CheckCaseStatement all_lines name is_sequential n' (l + 1)
                    current_state in
      if is_sequential then
        match re_match RE_STATE_ASSIGNMENT pline with
        | Some m =>
            let lhs := strip (group_or_empty pline m 2) in
            if str_eqb (lower lhs) (lower name) then
              match current_state with
              | None => Exc AttributeError
              | Some _ => next
              end
            else next
        | None => next
        end
      else next
  end.

(** The case and loop statements that start on a body line: [false] when
    the end of one is not found before the end of the process, on which
    [CheckProcess] returns at once. *)
Definition check_blocks (clean_lines : CleansedLines) (end_line : Z)
  (sequential : bool) (l : Z) : outcome bool :=
  let all_lines := lines clean_lines in
  let pline := line_of all_lines l in
  let loops :=
    match re_match RE_LOOP pline with
    | None => Returns true
    | Some m =>
        match label_pattern (group pline m 2) with
        | None => Unmodelled
        | Some label =>
            Returns (is_some (first_line (matched (RE_END_BLOCK "loop" label))
                                all_lines (span l end_line) l))
        end
    end in
  match re_match RE_CASE pline with
  | None => loops
  | Some m =>
      match label_pattern (group pline m 2) with
      | None => Unmodelled
      | Some label =>
          match first_line (matched (RE_END_BLOCK "case" label)) all_lines
                  (span l end_line) l with
          | None => Returns false
          | Some l_end_line =>
              match CheckCaseStatement all_lines (group_or_empty pline m 3)
                      sequential (span l l_end_line) l None with
              | Exc e => Raises e
              | Ret _ => loops
              end
          end
      end
  end.

(** What the scan of a process body carries from line to line. *)
Record scan : Type := {
  sc_symbols : symbols;
  process_drivers : list str;
  process_inputs : list str;
  sc_reports : list Diagnostic
}.

Definition event_reports (filename : str) (sim_process : bool) (l : Z)
  (pline : str) : list Diagnostic :=
  if negb sim_process then
    match re_match RE_EVENT pline with
    | Some m =>
        match cap_span 1 (m_caps m) with
        | Some (a, b) =>
            let name := slice pline a b in
            [report filename
               (LineRef_init l (Z.of_nat a) (Some (Z.of_nat b)) 1)
               "runtime/rising_edge" 4
               (lit "Use 'rising_edge/falling_edge(" ++ name
                ++ lit ")' instead of '" ++ name ++ lit "'event'")]
        | None => []
        end
    | None => []
    end
  else [].

(** The first loop over the names written on a line: each typed
    identifier among them gets a driver of this process. *)
Definition record_writes (start_line l : Z) (write_vars : list str)
  (st : symbols) : symbols :=
  fold_left (fun st w =>
               if IsIdentifierWithType st w
               then add_driver st w (ProcessDriver start_line l)
               else st)
    write_vars st.

Definition previous_lines (drivers : list driver) : str :=
  rsplit_head
    (concat (map (fun d => decimal (driver_line d) ++ lit ",")
               (removelast drivers))).

Definition multiple_drivers_report (filename : str) (l : Z) (pline w : str)
  (idt : IdentifierWithType) : Diagnostic :=
  report filename (FromString l pline w true) "runtime/multiple_drivers" 5
    (lit "Multiple drivers on signal '" ++ w
     ++ lit "'. Previous drivers are on line(s): "
     ++ previous_lines (GetDrivers idt) ++ lit ".").

(** The second loop over the names written on a line. *)
Definition multiple_drivers_reports (filename : str) (l : Z) (pline : str)
  (st : symbols) (write_vars : list str) : list Diagnostic :=
  flat_map (fun w =>
              if IsIdentifierWithType st w then
                match GetIdentifierWithType st w with
                | Some idt =>
                    if HasMultipleDrivers idt
                    then [multiple_drivers_report filename l pline w idt]
                    else []
                | None => []
                end
              else [])
    write_vars.

Definition missing_signal_report (filename : str) (l : Z) (pline r : str)
  : Diagnostic :=
  report filename (FromString l pline r true) "runtime/sensitivity" 5
    (lit "Missing signal '" ++ r ++ lit "' from sensitivity list").

(** The loop over the names read on a line of a combinational process. *)
Definition sensitivity_reports (filename : str) (l : Z) (pline : str)
  (sensitivity_list : list str) (contains_all : bool)
  (read_vars : list str) : list Diagnostic :=
  flat_map (fun r =>
              if negb (str_in (lower r) sensitivity_list)
                 && negb contains_all
              then [missing_signal_report filename l pline r]
              else [])
    read_vars.

Definition clock_reports (filename : str) (all_lines : list str)
  (start_line : Z) (sensitivity_list : list str) (contains_all : bool)
  (clk_name : str) (clk_line : Z) : list Diagnostic :=
  (if negb (str_in (lower clk_name) sensitivity_list) && negb contains_all
   then [report filename
           (FromString clk_line (line_of all_lines clk_line) clk_name true)
           "runtime/sensitivity" 5
           (lit "Missing clock '" ++ clk_name
            ++ lit "' from sensitivity list")]
   else [])
  ++ (if negb (matched RE_CLK_PREFIX clk_name)
         && negb (matched RE_CLK_SUFFIX clk_name)
         && negb (matched RE_CLK_I_SUFFIX clk_name)
      then [report filename
              (FromString clk_line (line_of all_lines clk_line) clk_name true)
              "readability/naming" 1
              (lit "Invalid naming convention on clock signal '" ++ clk_name
               ++ lit "'. Allowed conventions are [clk_*, *_clk, *_clk_i].")]
      else [])
  ++ (if (2 <? length sensitivity_list)%nat
      then [report filename (OnlyLine start_line) "runtime/sensitivity" 4
              (lit "Superfluous items in sensitivity list. Sequential processes should have at most 2 items (clock, async reset).")]
      else []).

Definition extra_reports (filename : str) (start_line : Z) (sline : str)
  (sensitivity_list inputs : list str) : list Diagnostic :=
  flat_map (fun item =>
              if negb (str_in item inputs) && negb (is_str item "all")
              then [report filename (FromString start_line sline item true)
                      "runtime/sensitivity" 4
                      (lit "Extra signal '" ++ item
                       ++ lit "' in sensitivity list.")]
              else [])
    sensitivity_list.

(** The lines of a process before its [begin]: local variables and
    constants enter the scope of the process.  Returns the line on which
    the scan stops, the tables, and the reports added to [reports]. *)
Fixpoint header_scan (filename : str) (clean_lines : CleansedLines)
  (sim_process : bool) (n : nat) (l : Z) (st : symbols)
  (reports : list Diagnostic) : outcome (Z * symbols * list Diagnostic) :=
  match n with
  | O => Returns (l, st, reports)
  | S n' =>
      let pline := line_of (lines clean_lines) l in
      match CheckFunctions_found clean_lines l with
      | Some _ => Unmodelled
      | None =>
          match CheckProcedures_found clean_lines l with
          | Some _ => Unmodelled
          | None =>
              bind (of_result (CheckVariables filename clean_lines l
                                 (negb sim_process) st))
                (fun '(st1, names) =>
                   let reports :=
                     reports
                     ++ match names with
                        | Some (first :: _) =>
                            if negb sim_process
                            then [report filename
                                    (FromString l pline first true)
                                    "runtime/variables" 4
                                    (lit "Variables are easily misused and should be avoided.")]
                            else []
                        | _ => []
                        end in
                   bind (of_result (CheckLocalConstants filename clean_lines
                                      l st1))
                     (fun st2 =>
                        if matched RE_BEGIN pline
                        then Returns (l, st2, reports)
                        else header_scan filename clean_lines sim_process n'
                               (l + 1) st2 reports))
          end
      end
  end.

(** Whether the process is taken for a sequential one. *)
Definition is_sequential (clean_lines : CleansedLines)
  (start_line end_line : Z) : bool :=
  fst (fst (find_clock (lines clean_lines) (span start_line end_line)
              start_line 0)).

Section Process.

Context {so : SetOrder}.

(** One line of the body, past the case and loop statements. *)
Definition line_step (filename : str) (clean_lines : CleansedLines)
  (start_line : Z) (sensitivity_list : list str)
  (sim_process sequential contains_all : bool) (l : Z) (sc : scan) : scan :=
  let pline := line_of (lines clean_lines) l in
  let '(writes, reads, _) := FindUsedVariables (sc_symbols sc) pline false in
  let write_vars := set_order writes in
  let read_vars := set_order reads in
  let st := record_writes start_line l write_vars (sc_symbols sc) in
  {| sc_symbols := st;
     process_drivers :=
       fold_left (fun s w => str_set_add (lower w) s) write_vars
         (process_drivers sc);
     process_inputs :=
       fold_left (fun s r => str_set_add (lower r) s) read_vars
         (process_inputs sc);
     sc_reports :=
       sc_reports sc
       ++ event_reports filename sim_process l pline
       ++ multiple_drivers_reports filename l pline st write_vars
       ++ (if negb sim_process && negb sequential
           then sensitivity_reports filename l pline sensitivity_list
                  contains_all read_vars
           else []) |}.

(** The lines of the body, from the line of [begin] up to the line before
    the end line.  The flag tells whether the scan reached its end: it is
    [false] when [CheckProcess] returns from within. *)
Fixpoint body_scan (filename : str) (clean_lines : CleansedLines)
  (start_line end_line : Z) (sensitivity_list : list str)
  (sim_process sequential contains_all : bool) (n : nat) (l : Z) (sc : scan)
  : outcome (bool * scan) :=
  match n with
  | O => Returns (true, sc)
  | S n' =>
      match check_blocks clean_lines end_line sequential l with
      | Returns true =>
          body_scan filename clean_lines start_line end_line sensitivity_list
            sim_process sequential contains_all n' (l + 1)
            (line_step filename clean_lines start_line sensitivity_list
               sim_process sequential contains_all l sc)
      | Returns false => Returns (false, sc)
      | Raises e => Raises e
      | Unmodelled => Unmodelled
      end
  end.

(** [CheckProcess]: the diagnostics that [CheckProcess] itself hands to
    [error], in order, and the tables after the call.  The rule functions
    it calls on each line ([CheckIdentifiers], [CheckAsserts],
    [CheckLoop], and the declaration checks) report in categories of
    their own; they take part here by what they do to the tables and by
    the exceptions they raise. *)
Definition CheckProcess (filename : str) (clean_lines : CleansedLines)
  (start_line end_line : Z) (name : option str)
  (sensitivity_list : list str) (st : symbols)
  : outcome (list Diagnostic * symbols) :=
  let all_lines := lines clean_lines in
  let st := AddLocalScope st in
  let sline := line_of all_lines start_line in
  let contains_all := str_in (lit "all") sensitivity_list in
  let reports :=
    (if contains_all
     then [report filename (FromString start_line sline (lit "all") true)
             "build/vhdl2008/sensitivity" 4
             (lit "Avoid VHDL2008 construct 'all' in sensitivity list.")]
     else [])
    ++ map (fun d =>
              report filename (FromStringR start_line sline d)
                "runtime/sensitivity" 4
                (lit "Duplicate signal '" ++ d
                 ++ lit "' in sensitivity list."))
         (duplicates sensitivity_list) in
  let sim_process := (length sensitivity_list =? 0)%nat in
  let '(sequential, clk_name, clk_line) :=
    find_clock all_lines (span start_line end_line) start_line 0 in
  let reports :=
    reports
    ++ (if negb sim_process && sequential
        then clock_reports filename all_lines start_line sensitivity_list
               contains_all clk_name clk_line
        else []) in
  bind (header_scan filename clean_lines sim_process
          (span start_line (end_line + 1)) start_line st [])
    (fun '(body_line, st, header_reports) =>
       bind (body_scan filename clean_lines start_line end_line
               sensitivity_list sim_process sequential contains_all
               (span body_line end_line) body_line
               {| sc_symbols := st; process_drivers := [];
                  process_inputs := []; sc_reports := [] |})
         (fun '(completed, sc) =>
            let reports := reports ++ header_reports ++ sc_reports sc in
            if completed then
              let reports :=
                reports
                ++ extra_reports filename start_line sline sensitivity_list
                     (process_inputs sc)
                ++ (if negb sim_process && negb sequential
                    then map (fun i =>
                                report filename (OnlyLine start_line)
                                  "runtime/combinational_loop" 5
                                  (lit "Possible combinational loop detected on signal '"
                                   ++ i ++ lit "'."))
                           (intersection_order
                              (filter (fun i => str_in i (process_inputs sc))
                                 (process_drivers sc)))
                    else []) in
              bind (of_result (RemoveLocalScope (sc_symbols sc)))
                (fun st => Returns (reports, st))
            else Returns (reports, sc_symbols sc))).

Definition allowed_in_sensitivity (st : symbols) (i : str) : bool :=
  if is_str (lower i) "all" then true
  else if IsSignalIdentifier st i then true
  else false.

(** [CheckProcesses]: the diagnostics of the process that starts on the
    line, the tables after the call, and the end line of the process
    ([None] when no process is found). *)
Definition CheckProcesses (filename : str) (clean_lines : CleansedLines)
  (line_num : Z) (st : symbols)
  : outcome (list Diagnostic * symbols * option Z) :=
  let all_lines := lines clean_lines in
  let line := line_of all_lines line_num in
  match re_match RE_PROCESS line with
  | None => Returns ([], st, None)
  | Some m =>
      let label := group line m 2 in
      match label_pattern label with
      | None => Unmodelled
      | Some label_re =>
          match first_line (matched (RE_END_PROCESS label_re)) all_lines
                  (span line_num (NumLines clean_lines)) line_num with
          | None => Returns ([], st, None)
          | Some end_line =>
              bind (match re_search RE_PROCESS_PAREN line with
                    | None => Returns []
                    | Some (_, m') =>
                        bind (of_result (ExtractExpression clean_lines
                                           line_num (m_pos m' - 1)))
                          (fun '(string, _, _) =>
                             Returns (filter (allowed_in_sensitivity st)
                                        (findall RE_WORDS (lower string))))
                    end)
                (fun sensitivity_list =>
                   bind (CheckProcess filename clean_lines line_num end_line
                           label sensitivity_list st)
                     (fun '(reports, st') =>
                        Returns (reports, st', Some end_line)))
          end
      end
  end.

End Process.

(** ** The process rule: notions for its properties *)

(** The two tables hold signals of the same names, in the same order. *)
Definition same_keys (st st' : symbols) : Prop :=
  map fst (_signal_identifiers st) = map fst (_signal_identifiers st').

(** The two stacks of scopes declare the same local names, each as a
    variable or as a constant in both. *)
Definition same_locals (st st' : symbols) : Prop :=
  forall k, option_map is_constant (first_scope k (_local_identifiers st))
            = option_map is_constant (first_scope k (_local_identifiers st')).


(** The names written and the names read on a line. *)
Definition writes_of (st : symbols) (line : str) : list str :=
  fst (fst (FindUsedVariables st line false)).

Definition reads_of (st : symbols) (line : str) : list str :=
  snd (fst (FindUsedVariables st line false)).






(** A file given by its lines, which hold neither comments nor strings. *)
Definition file_of (text : list string) : CleansedLines :=
  {| elided := map lit text; lines := map lit text;
     raw_lines := map lit text;
     num_lines := Z.of_nat (length text) |}.

Definition declared_signal (name : string) : str * IdentifierWithType :=
  (lit name,
   new_identifier (lit name) (lit "std_logic") None (OnlyLine 1)).

(** The tables after the declaration of the signals [a], [b] and [y]. *)
Definition signals_a_b_y : symbols :=
  {| _signal_identifiers :=
       [declared_signal "a"; declared_signal "b"; declared_signal "y"];
     _constant_identifiers := [];
     _local_identifiers := [] |}.

(** A signal with drivers. *)
Definition driven_signal (name : string) (ds : list driver)
  : str * IdentifierWithType :=
  (lit name,
   {| id_name := lit name; id_lineref := OnlyLine 1; id_refs := 0;
      id_stype := lit "std_logic"; id_init := None; id_drivers := ds |}).

(** The tables once a process that starts on line 0 has assigned [y] on
    line 2. *)
Definition signals_y_driven : symbols :=
  {| _signal_identifiers :=
       [declared_signal "a"; declared_signal "b";
        driven_signal "y" [ProcessDriver 0 2]];
     _constant_identifiers := [];
     _local_identifiers := [] |}.


Definition scenario_four_lines : CleansedLines :=
  file_of ["p: process(a)";
           "begin";
           "  y <= a and b;";
           "end process;"]%string.


(** The same two processes, each assignment on a line of its own. *)
Definition two_writers_plain : CleansedLines :=
  file_of ["p1: process(a)";
           "begin";
           "  y <= a;";
           "end process;";
           "p2: process(b)";
           "begin";
           "  y <= b;";
           "end process;"]%string.



(** One of the orders a run can have. *)
#[export] Instance nodup_order : SetOrder.
Proof.
  refine {| set_order := fun l => nodup str_dec l;
            intersection_order := fun l => nodup str_dec l |};
    intros l; apply Permutation_refl.
Defined.


(** * Further definitions *)

(** ** Calls that change the module state

    What happens to [_lint_state] while files are processed:
    filters are added or set, and diagnostics are handed to [Error]. *)

Inductive state_call : Type :=
| CallAddFilters (fs : str)
| CallSetFilters (fs : str)
| CallError (sup : Suppressions) (d : Diagnostic).

(** The state after a call, also when the call raises. *)
Definition apply_call (st : _LintState) (c : state_call) : _LintState :=
  match c with
  | CallAddFilters fs => fst (AddFilters st fs)
  | CallSetFilters fs => fst (SetFilters st fs)
  | CallError sup d =>
      match Error sup st d with
      | Ret st' => st'
      | Exc _ => st
      end
  end.

(** The sum of the counts of [errors_by_category]. *)
Definition counted (st : _LintState) : Z :=
  fold_right Z.add 0 (map snd (errors_by_category st)).

(** The counting styles that keep counts by category. *)
Definition counts_by_category (st : _LintState) : bool :=
  str_in (counting st) [lit "toplevel"; lit "detailed"].

(** Brackets that nest properly, in a text with no angle bracket and no
    semicolon: [stack] holds the brackets still open, innermost first. *)
Fixpoint balanced_from (s : str) (stack : list ascii) : bool :=
  match s with
  | [] => match stack with [] => true | _ => false end
  | c :: s' =>
      if one_of "([{" c then balanced_from s' (c :: stack)
      else if one_of ")]}" c then
        match stack with
        | open :: stack' => closes open c && balanced_from s' stack'
        | [] => false
        end
      else if one_of "<>;" c then false
      else balanced_from s' stack
  end.

Definition balanced (s : str) : bool := balanced_from s [].

(** ** The process rule: further notions *)

(** The message of the diagnostic for a signal that is read in a
    combinational process and is not in its sensitivity list. *)
Definition missing_signal_message (r : str) : str :=
  lit "Missing signal '" ++ r ++ lit "' from sensitivity list".

(** The diagnostics that the scan of the body adds on line [l], the
    tables being [st] when the scan comes to the line. *)
Definition line_reports {so : SetOrder} (filename : str)
  (clean_lines : CleansedLines) (start_line : Z)
  (sensitivity_list : list str) (sim_process sequential contains_all : bool)
  (l : Z) (st : symbols) : list Diagnostic :=
  let pline := line_of (lines clean_lines) l in
  let write_vars := set_order (writes_of st pline) in
  let read_vars := set_order (reads_of st pline) in
  event_reports filename sim_process l pline
  ++ multiple_drivers_reports filename l pline
       (record_writes start_line l write_vars st) write_vars
  ++ (if negb sim_process && negb sequential
      then sensitivity_reports filename l pline sensitivity_list
             contains_all read_vars
      else []).

(** ** Comments over several lines *)

(** The first index from [lineix] on, [rest] being the lines from there,
    of a line on which [p] holds; the number of lines when there is
    none. *)
Fixpoint next_line (p : str -> bool) (rest : list str) (lineix total : nat)
  : nat :=
  match rest with
  | [] => total
  | line :: rest' =>
      if p line then lineix else next_line p rest' (S lineix) total
  end.

(** The test of [FindNextMultiLineCommentStart]: the line, stripped,
    starts with slash-star and holds no star-slash from its third
    character on. *)
Definition starts_multiline (line : str) : bool :=
  startswith (strip line) (lit "/*")
  && (find (slice_from (strip line) 2) (lit "*/") <? 0).

(** The test of [FindNextMultiLineCommentEnd] *)
Definition ends_multiline (line : str) : bool :=
  endswith (strip line) (lit "*/").

(** [FindNextMultiLineCommentStart] *)
Definition FindNextMultiLineCommentStart (lines : list str) (lineix : nat)
  : nat :=
  next_line starts_multiline (skipn lineix lines) lineix (length lines).

(** [FindNextMultiLineCommentEnd] *)
Definition FindNextMultiLineCommentEnd (lines : list str) (lineix : nat)
  : nat :=
  next_line ends_multiline (skipn lineix lines) lineix (length lines).

(** The lines from index [i] on, those with an index from [begin] up to
    [end_ - 1] replaced. *)
Fixpoint clear_range (lines : list str) (i begin end_ : nat) : list str :=
  match lines with
  | [] => []
  | line :: rest =>
      (if (begin <=? i)%nat && (i <? end_)%nat then lit "/**/" else line)
      :: clear_range rest (S i) begin end_
  end.

(** [RemoveMultiLineCommentsFromRange], for a range within the list (as it
    is where [RemoveMultiLineComments] calls it). *)
Definition RemoveMultiLineCommentsFromRange (lines : list str)
  (begin end_ : nat) : list str :=
  clear_range lines 0 begin end_.

(** The loop of [RemoveMultiLineComments]: the lines as the loop leaves
    them and the diagnostics handed to [error].  [fuel] bounds the number
    of turns, and [None] stands for a loop cut short. *)
Fixpoint remove_comments_loop (fuel : nat) (filename : str)
  (lines : list str) (lineix : nat) : option (list str * list Diagnostic) :=
  match fuel with
  | O => None
  | S fuel' =>
      if (lineix <? length lines)%nat then
        let lineix_begin := FindNextMultiLineCommentStart lines lineix in
        if (length lines <=? lineix_begin)%nat then Some (lines, [])
        else
          let lineix_end := FindNextMultiLineCommentEnd lines lineix_begin in
          if (length lines <=? lineix_end)%nat then
            Some (lines,
                  [report filename (OnlyLine (Z.of_nat lineix_begin + 1))
                     "readability/multiline_comment" 5
                     (lit "Could not find end of multi-line comment")])
          else
            remove_comments_loop fuel' filename
              (RemoveMultiLineCommentsFromRange lines lineix_begin
                 (lineix_end + 1))
              (lineix_end + 1)
      else Some (lines, [])
  end.

(** [RemoveMultiLineComments] *)
Definition RemoveMultiLineComments (filename : str) (lines : list str)
  : option (list str * list Diagnostic) :=
  remove_comments_loop (S (length lines)) filename lines 0.

(** ** Occurrences of a name between word boundaries *)

(** The character before index [n] of the line. *)
Definition char_before (line : str) (n : nat) : option ascii :=
  match n with
  | O => None
  | S m => nth_error line m
  end.

(** A word boundary at index [n]: a word character on one side only. *)
Definition boundary (line : str) (n : nat) : bool :=
  xorb (match char_before line n with Some c => is_word c | None => false end)
       (match nth_error line n with Some c => is_word c | None => false end).

(** The name stands at index [n] of the line, between word boundaries. *)
Definition word_at (line name : str) (n : nat) : bool :=
  boundary line n && startswith (skipn n line) name
  && boundary line (n + length name).

(** The match state at index [n] of the line, no group set. *)
Definition state_at (line : str) (n : nat) : mstate :=
  {| m_prev := char_before line n; m_rest := skipn n line; m_pos := n;
     m_caps := [] |}.

(* ===================================================================== *)
(** * Part II.  Facts *)
(* ===================================================================== *)

(** ** Strings *)

Lemma chr_eqb_eq (a b : ascii) : chr_eqb a b = true <-> a = b.
Proof. unfold chr_eqb. apply Ascii.eqb_eq. Qed.

Lemma chr_eqb_refl (a : ascii) : chr_eqb a a = true.
Proof. apply chr_eqb_eq. reflexivity. Qed.

Lemma str_eqb_eq (a b : str) : str_eqb a b = true <-> a = b.
Proof.
  revert b. induction a as [|x a IH]; intros [|y b]; simpl;
    try (split; [discriminate | discriminate]); try tauto.
  rewrite andb_true_iff, chr_eqb_eq, IH.
  split; [intros [-> ->]; reflexivity | intros H; inversion H; auto].
Qed.

Lemma str_eqb_refl (a : str) : str_eqb a a = true.
Proof. apply str_eqb_eq. reflexivity. Qed.

Lemma startswith_app (p s : str) : startswith (p ++ s) p = true.
Proof. induction p as [|c p IH]; simpl; [reflexivity|]. now rewrite chr_eqb_refl. Qed.

Lemma startswith_prefix (s p : str) :
  startswith s p = true <-> exists t, s = p ++ t.
Proof.
  revert s. induction p as [|c p IH]; intros s; simpl.
  - split; [exists s; reflexivity | reflexivity].
  - destruct s as [|d s].
    + split; [discriminate | intros [t H]; discriminate].
    + rewrite andb_true_iff, chr_eqb_eq, IH. split.
      * intros [-> [t ->]]. exists t. reflexivity.
      * intros [t H]. inversion H. subst. split; [reflexivity | exists t; reflexivity].
Qed.

(** ** The filter gate *)

Lemma signed_cases (f : str) :
  signed f = true ->
  (startswith f (lit "-") = true /\ startswith f (lit "+") = false)
  \/ (startswith f (lit "-") = false /\ startswith f (lit "+") = true).
Proof.
  unfold signed. destruct f as [|c f]; simpl; [discriminate|].
  rewrite !andb_true_r. intros H.
  destruct (chr_eqb c "-") eqn:Em.
  - left. split; [reflexivity|].
    apply chr_eqb_eq in Em. subst c. reflexivity.
  - right. split; [reflexivity|].
    rewrite orb_false_r in H. exact H.
Qed.

Lemma find_snoc {A} (p : A -> bool) (l : list A) (x : A) :
  List.find p (l ++ [x]) =
  match List.find p l with
  | Some y => Some y
  | None => if p x then Some x else None
  end.
Proof.
  induction l as [|a l IH]; simpl; [reflexivity|].
  destruct (p a); [reflexivity | exact IH].
Qed.

(** The loop of [_ShouldPrintError], started in any state, against the
    "last match wins" reading. *)
Lemma filter_walk_spec (category : str) (fs : list str) (b : bool) :
  filter_walk category fs b =
  if forallb signed fs
  then Ret (match last_match category fs with
            | Some one_filter => startswith one_filter (lit "-")
            | None => b
            end)
  else Exc AssertionError.
Proof.
  revert b. induction fs as [|f fs IH]; intros b; [reflexivity|].
  unfold last_match in *. cbn [filter_walk forallb rev].
  rewrite find_snoc.
  destruct (signed f) eqn:Hs.
  - destruct (signed_cases f Hs) as [[Hm Hp] | [Hm Hp]]; rewrite Hm; [|rewrite Hp];
      rewrite IH; cbn [andb]; destruct (forallb signed fs); try reflexivity;
      destruct (List.find (applies category) (rev fs)); try reflexivity;
      unfold applies; destruct (startswith category (skipn 1 f));
      rewrite ?Hm; reflexivity.
  - unfold signed in Hs. apply orb_false_iff in Hs. destruct Hs as [Hp Hm].
    rewrite Hm, Hp. reflexivity.
Qed.

Lemma should_print_spec (sup : Suppressions) (st : _LintState)
  (category : str) (confidence linenum : Z) :
  _ShouldPrintError sup st category confidence linenum =
  if IsErrorSuppressedByNolint sup category linenum then Ret false
  else if confidence <? verbose_level st then Ret false
  else if forallb signed (filters st)
       then Ret (negb (filtered_by_last_match category (filters st)))
       else Exc AssertionError.
Proof.
  unfold _ShouldPrintError, filtered_by_last_match.
  rewrite filter_walk_spec.
  destruct (IsErrorSuppressedByNolint sup category linenum); [reflexivity|].
  destruct (confidence <? verbose_level st); [reflexivity|].
  destruct (forallb signed (filters st)); [|reflexivity].
  destruct (last_match category (filters st)) as [f|]; [|reflexivity].
  destruct (startswith f (lit "-")); reflexivity.
Qed.

(** C5.  The filter gate walks the list left to right: an entry
    [-prefix] marks the category filtered when the category starts with
    [prefix], an entry [+prefix] unmarks it under the same test, the last
    entry that applies decides, and the diagnostic is dropped exactly when
    the final state is "filtered".  With the filters [-X,+X/Y] a diagnostic
    of category [X/Y] passes and one of category [X/Z] is dropped. *)
Theorem filter_gate_last_match_wins :
  (forall category prefix fs b,
      filter_walk category ((lit "-" ++ prefix) :: fs) b
      = filter_walk category fs (startswith category prefix || b)
      /\ filter_walk category ((lit "+" ++ prefix) :: fs) b
         = filter_walk category fs (negb (startswith category prefix) && b))
  /\ (forall category fs,
      filter_walk category fs false =
      if forallb signed fs then Ret (filtered_by_last_match category fs)
      else Exc AssertionError)
  /\ (forall sup st category confidence linenum,
      _ShouldPrintError sup st category confidence linenum =
      if IsErrorSuppressedByNolint sup category linenum then Ret false
      else if confidence <? verbose_level st then Ret false
      else if forallb signed (filters st)
           then Ret (negb (filtered_by_last_match category (filters st)))
           else Exc AssertionError)
  /\ (let st := fst (SetFilters LintState_init (lit "-X,+X/Y")) in
      filters st = [lit "-build/include_alpha"; lit "-X"; lit "+X/Y"]
      /\ _ShouldPrintError ResetNolintSuppressions st (lit "X/Y") 5 1
         = Ret true
      /\ _ShouldPrintError ResetNolintSuppressions st (lit "X/Z") 5 1
         = Ret false).
Proof.
  split; [|split; [|split]].
  - intros category prefix fs b. split; cbn [filter_walk app lit list_ascii_of_string startswith skipn];
      rewrite ?chr_eqb_refl; cbn [andb];
      destruct (startswith category prefix); reflexivity.
  - intros category fs. rewrite filter_walk_spec. reflexivity.
  - apply should_print_spec.
  - cbv. repeat split.
Qed.

(** ** Validation of the filter list *)

Lemma first_unsigned_none (fs : list str) :
  first_unsigned fs = None <-> forallb signed fs = true.
Proof.
  induction fs as [|f fs IH]; simpl; [tauto|].
  destruct (signed f); simpl; [exact IH | split; discriminate].
Qed.

Lemma AddFilters_ok (st st' : _LintState) (fs : str) :
  AddFilters st fs = (st', Ret tt) -> forallb signed (filters st') = true.
Proof.
  unfold AddFilters.
  destruct (first_unsigned _) eqn:E; intros H; inversion H; subst.
  apply first_unsigned_none. exact E.
Qed.

(** C10.  When [SetFilters] or [AddFilters] returns without raising
    [ValueError], every entry of the installed list begins with [+] or
    [-], and the [assert False] branch of [_ShouldPrintError] cannot be
    taken while diagnostics are emitted through that list. *)
Theorem installed_filters_are_signed (st st' : _LintState) (fs : str) :
  AddFilters st fs = (st', Ret tt) \/ SetFilters st fs = (st', Ret tt) ->
  Forall (fun one_filter =>
            startswith one_filter (lit "+") = true
            \/ startswith one_filter (lit "-") = true) (filters st')
  /\ (forall sup category confidence linenum,
        _ShouldPrintError sup st' category confidence linenum
        <> Exc AssertionError)
  /\ (forall sup d, Error sup st' d <> Exc AssertionError).
Proof.
  intros H.
  assert (Hs : forallb signed (filters st') = true).
  { destruct H as [H | H]; [|unfold SetFilters in H]; eapply AddFilters_ok; exact H. }
  assert (Hp : forall sup category confidence linenum,
             _ShouldPrintError sup st' category confidence linenum
             <> Exc AssertionError).
  { intros sup category confidence linenum. rewrite should_print_spec, Hs.
    destruct (IsErrorSuppressedByNolint _ _ _); [discriminate|].
    destruct (_ <? _); discriminate. }
  split; [|split].
  - apply Forall_forall. intros f Hf.
    rewrite forallb_forall in Hs. specialize (Hs f Hf).
    unfold signed in Hs. apply orb_true_iff in Hs. exact Hs.
  - exact Hp.
  - intros sup d. unfold Error.
    specialize (Hp sup (d_category d) (d_confidence d) (Line (d_lineref d))).
    destruct (_ShouldPrintError _ _ _ _ _) as [[|]|e]; try discriminate.
    destruct e; [congruence | discriminate ..].
Qed.

Lemma installed_filters_are_signed_witness :
  let st' := fst (AddFilters LintState_init (lit "-X, +X/Y")) in
  AddFilters LintState_init (lit "-X, +X/Y") = (st', Ret tt)
  /\ filters st' = [lit "-build/include_alpha"; lit "-X"; lit "+X/Y"]
  /\ forall sup d, Error sup st' d <> Exc AssertionError.
Proof.
  intros st'. split; [reflexivity|]. split; [reflexivity|].
  refine (proj2 (proj2 (installed_filters_are_signed LintState_init st'
                          (lit "-X, +X/Y") (or_introl _)))).
  reflexivity.
Defined.

(** ** The three gates and the verbosity *)

Lemma passes_gates_spec (sup : Suppressions) (st : _LintState)
  (category : str) (confidence linenum : Z) :
  _ShouldPrintError sup st category confidence linenum =
  if passes_gates sup st category confidence linenum then Ret true
  else match filter_walk category (filters st) false with
       | Exc e =>
           if negb (IsErrorSuppressedByNolint sup category linenum)
              && (verbose_level st <=? confidence)
           then Exc e else Ret false
       | Ret _ => Ret false
       end.
Proof.
  unfold _ShouldPrintError, passes_gates.
  destruct (IsErrorSuppressedByNolint sup category linenum); cbn [negb andb].
  - destruct (filter_walk _ _ _); reflexivity.
  - destruct (Z.ltb_spec confidence (verbose_level st)) as [Hlt | Hge].
    + replace (verbose_level st <=? confidence) with false
        by (symmetry; apply Z.leb_gt; exact Hlt).
      cbn [andb]. destruct (filter_walk _ _ _); reflexivity.
    + replace (verbose_level st <=? confidence) with true
        by (symmetry; apply Z.leb_le; exact Hge).
      cbn [andb]. destruct (filter_walk _ _ _) as [[|]|]; reflexivity.
Qed.

Lemma length_write (st : _LintState) (category : str) (d : Diagnostic) :
  written (write (IncrementErrorCount st category) d) = written st ++ [d].
Proof. reflexivity. Qed.

Lemma emits_spec (sup : Suppressions) (st : _LintState) (d : Diagnostic) :
  emits sup st d =
  passes_gates sup st (d_category d) (d_confidence d) (Line (d_lineref d)).
Proof.
  unfold emits, Error. rewrite passes_gates_spec.
  destruct (passes_gates _ _ _ _ _).
  - rewrite length_write, length_app. cbn [length].
    apply Nat.ltb_lt. lia.
  - destruct (filter_walk _ _ _) as [b|e].
    + apply Nat.ltb_irrefl.
    + destruct (_ && _); [reflexivity | apply Nat.ltb_irrefl].
Qed.

Lemma run_written (calls : list (Suppressions * Diagnostic)) :
  forall st,
    written (fst (run st calls)) =
    written st ++
      if forallb signed (filters st)
      then map snd (filter (gate (verbose_level st) (filters st)) calls)
      else [].
Proof.
  induction calls as [|[sup d] calls IH]; intros st.
  - cbn [run fst filter map]. destruct (forallb _ _); now rewrite app_nil_r.
  - cbn [run filter]. unfold Error. rewrite should_print_spec.
    unfold gate at 1. cbn [fst snd].
    destruct (IsErrorSuppressedByNolint _ _ _); cbn [negb andb]; [apply IH|].
    destruct (Z.ltb_spec (d_confidence d) (verbose_level st)) as [Hlt | Hge].
    + replace (verbose_level st <=? d_confidence d) with false
        by (symmetry; apply Z.leb_gt; exact Hlt).
      cbn [andb]. apply IH.
    + replace (verbose_level st <=? d_confidence d) with true
        by (symmetry; apply Z.leb_le; exact Hge).
      cbn [andb].
      destruct (forallb signed (filters st)) eqn:Hs.
      * destruct (filtered_by_last_match _ _); cbn [negb].
        -- rewrite IH, Hs. reflexivity.
        -- rewrite IH. cbn [write IncrementErrorCount filters verbose_level written].
           rewrite Hs, <- app_assoc. reflexivity.
      * cbn [fst]. now rewrite app_nil_r.
Qed.

Lemma emitted_spec (st : _LintState) (calls : list (Suppressions * Diagnostic)) :
  emitted st calls =
  if forallb signed (filters st)
  then map snd (filter (gate (verbose_level st) (filters st)) calls)
  else [].
Proof.
  unfold emitted. rewrite run_written.
  rewrite skipn_app, skipn_all, Nat.sub_diag. reflexivity.
Qed.

(** C4.  A diagnostic is emitted exactly when it passes the three gates
    (no NOLINT suppression, confidence not below the verbosity, not
    filtered), and of two runs that differ only in the verbosity the one
    with the higher verbosity emits a subset of what the other emits. *)
Theorem emitted_iff_gates_and_verbose_antitone
  (sup : Suppressions) (st : _LintState) (d : Diagnostic)
  (calls : list (Suppressions * Diagnostic)) (v1 v2 : Z) :
  emits sup st d
  = passes_gates sup st (d_category d) (d_confidence d) (Line (d_lineref d))
  /\ (v1 <= v2 ->
      incl (emitted (SetVerboseLevel st v2) calls)
           (emitted (SetVerboseLevel st v1) calls)).
Proof.
  split; [apply emits_spec|].
  intros Hv x. rewrite !emitted_spec.
  cbn [SetVerboseLevel filters verbose_level].
  destruct (forallb signed (filters st)); [|intros []].
  rewrite !in_map_iff. intros [c [Hc Hin]]. exists c. split; [exact Hc|].
  apply filter_In in Hin. destruct Hin as [Hin Hg].
  apply filter_In. split; [exact Hin|].
  unfold gate in *. apply andb_true_iff in Hg. destruct Hg as [Hg Hf].
  apply andb_true_iff in Hg. destruct Hg as [Hn Hle].
  rewrite Hn, Hf. cbn [andb]. rewrite andb_true_r.
  apply Z.leb_le. apply Z.leb_le in Hle. lia.
Qed.

Lemma emitted_iff_gates_and_verbose_antitone_witness :
  1 <= 3
  /\ incl (emitted (SetVerboseLevel LintState_init 3) two_calls)
          (emitted (SetVerboseLevel LintState_init 1) two_calls).
Proof.
  split; [lia|].
  refine (proj2 (emitted_iff_gates_and_verbose_antitone
                   ResetNolintSuppressions LintState_init
                   (report (lit "a.vhd") (OnlyLine 3) "whitespace/tab" 1
                      (lit "Tab found"))
                   two_calls 1 3) _).
  lia.
Defined.

(** ** NOLINT suppressions *)










Lemma region_suppress sup k x :
  _error_suppressions_region (suppress sup k x) = _error_suppressions_region sup.
Proof. reflexivity. Qed.

Lemma global_suppress sup k x :
  _global_error_suppressions (suppress sup k x) = _global_error_suppressions sup.
Proof. reflexivity. Qed.

(** The shapes [parse_directive] can return. *)
Lemma parse_directive_cases sup filename raw_line linenum :
  let r := parse_directive sup filename raw_line linenum in
  fst r = sup
  \/ exists region k x, fst r = suppress (with_region sup region) k x.
Proof.
  unfold parse_directive.
  destruct (re_search RE_NOLINT raw_line) as [[s m]|]; [|left; reflexivity].
  destruct (group raw_line m 2) as [category|].
  - destruct (str_eqb category (parens (lit "*"))).
    + right. exists (_error_suppressions_region sup). eexists. eexists.
      cbn [fst]. destruct sup; reflexivity.
    + destruct (startswith _ _ && endswith _ _); [|left; reflexivity].
      destruct (str_in _ _); [|left; reflexivity].
      right. eexists. eexists. eexists. cbn [fst]. reflexivity.
  - right. exists (_error_suppressions_region sup). eexists. eexists.
    cbn [fst]. destruct sup; reflexivity.
Qed.


Lemma parse_directive_global sup filename raw_line linenum :
  _global_error_suppressions (fst (parse_directive sup filename raw_line linenum))
  = _global_error_suppressions sup.
Proof.
  destruct (parse_directive_cases sup filename raw_line linenum)
    as [E | (region & k' & x & E)]; rewrite E; reflexivity.
Qed.



Lemma fold_suppress_region (cs : list str) (n : Z) : forall sup,
  _error_suppressions_region (fold_left (fun s c => suppress s (Some c) n) cs sup)
  = _error_suppressions_region sup
  /\ _global_error_suppressions (fold_left (fun s c => suppress s (Some c) n) cs sup)
     = _global_error_suppressions sup.
Proof.
  induction cs as [|c cs IH]; intros sup; cbn; [split; reflexivity|].
  destruct (IH (suppress sup (Some c) n)) as [H1 H2]. now rewrite H1, H2.
Qed.

Lemma Parse_fst sup filename raw_line linenum :
  fst (ParseNolintSuppressions sup filename raw_line linenum) =
  let sup1 := fst (parse_directive sup filename raw_line linenum) in
  fold_left (fun s c => suppress s (Some c) linenum)
    (_error_suppressions_region sup1) sup1.
Proof.
  unfold ParseNolintSuppressions.
  destruct (parse_directive sup filename raw_line linenum); reflexivity.
Qed.



Lemma Parse_global sup filename raw_line linenum :
  _global_error_suppressions
    (fst (ParseNolintSuppressions sup filename raw_line linenum))
  = _global_error_suppressions sup.
Proof.
  rewrite Parse_fst. cbv zeta.
  rewrite (proj2 (fold_suppress_region _ _ _)). apply parse_directive_global.
Qed.










Lemma str_in_In (x : str) (l : list str) : str_in x l = true <-> In x l.
Proof.
  unfold str_in. rewrite existsb_exists. split.
  - intros [y [Hy E]]. apply str_eqb_eq in E. now subst.
  - intros H. exists x. split; [exact H | apply str_eqb_refl].
Qed.

















(** ** Drivers *)

Lemma hash_int_eq (a b : Z) : a = b -> (hash_int a =? hash_int b) = true.
Proof. intros ->. apply Z.eqb_refl. Qed.

(** Between two known drivers, [set] sees the same element exactly when
    the keys agree: equal lines for plain drivers, equal scopes for
    process drivers. *)
Lemma same_known (e d : driver) (ke kd : Z + Z) :
  known_key e = Some ke -> known_key d = Some kd ->
  same e d = true <-> ke = kd.
Proof.
  unfold same, py_hash, py_eq, Driver__hash__, ProcessDriver__hash__,
    Driver__eq__, ProcessDriver__eq__.
  destruct e as [se le | se le | se le], d as [sd ld | sd ld | sd ld];
    cbn [known_key driver_line]; intros He Hd; inversion He; inversion Hd;
    subst; rewrite ?andb_false_r;
    try (split; [discriminate | intros H; inversion H; fail]).
  - rewrite andb_true_iff, !Z.eqb_eq. split.
    + intros [_ ->]. reflexivity.
    + intros H. inversion H. split; reflexivity.
  - rewrite andb_true_iff, !Z.eqb_eq. split.
    + intros [_ ->]. reflexivity.
    + intros H. inversion H. split; reflexivity.
Qed.

(** A known driver found "already present" was taken for a known driver
    of the same key, or for a possible driver on its own line. *)
Lemma same_absorb (e d : driver) (kd : Z + Z) :
  known_key d = Some kd -> same e d = true ->
  known_key e = Some kd
  \/ (is_possible e = true /\ driver_line e = driver_line d).
Proof.
  intros Hd Hs. destruct (known_key e) as [ke|] eqn:He.
  - left. f_equal. eapply same_known; eauto.
  - right. destruct e as [se le | se le | se le]; try discriminate.
    split; [reflexivity|].
    unfold same in Hs. apply andb_true_iff in Hs. destruct Hs as [_ Hs].
    unfold py_eq, Driver__eq__ in Hs.
    destruct d as [sd ld | sd ld | sd ld]; try discriminate;
      cbn [driver_line] in *; apply Z.eqb_eq in Hs; exact Hs.
Qed.

Lemma known_keys_app (a b : list driver) :
  known_keys (a ++ b) = known_keys a ++ known_keys b.
Proof.
  induction a as [|d a IH]; cbn; [reflexivity|].
  destruct (known_key d); cbn; now rewrite IH.
Qed.

Lemma known_keys_In (k : Z + Z) (ds : list driver) :
  In k (known_keys ds) <-> exists d, In d ds /\ known_key d = Some k.
Proof.
  induction ds as [|d ds IH]; cbn.
  - split; [intros [] | intros [d [[] _]]].
  - destruct (known_key d) as [kd|] eqn:E; cbn; rewrite ?IH; split.
    + intros [-> | [e [He Hk]]]; [exists d; auto | exists e; auto].
    + intros [e [[-> | He] Hk]]; [left; congruence | right; exists e; auto].
    + intros [e [He Hk]]. exists e. auto.
    + intros [e [[-> | He] Hk]]; [congruence | exists e; auto].
Qed.

Lemma known_keys_filter (ds : list driver) :
  known_keys (filter (fun d => negb (is_possible d)) ds) = known_keys ds.
Proof.
  induction ds as [|d ds IH]; cbn; [reflexivity|].
  destruct d; cbn; now rewrite IH.
Qed.

Lemma known_keys_length (ds : list driver) :
  length (filter (fun d => negb (is_possible d)) ds) = length (known_keys ds).
Proof.
  induction ds as [|d ds IH]; cbn; [reflexivity|].
  destruct d; cbn; now rewrite IH.
Qed.

Lemma existsb_same_known (acc : list driver) (d : driver) (k : Z + Z) :
  known_key d = Some k -> In k (known_keys acc) ->
  existsb (fun e => same e d) acc = true.
Proof.
  intros Hd Hin. apply known_keys_In in Hin. destruct Hin as [e [He Hk]].
  apply existsb_exists. exists e. split; [exact He|].
  eapply same_known; eauto.
Qed.

(** One insertion leaves the keys alone or adds a fresh one at the end. *)
Lemma insert_keys (acc : list driver) (d : driver) :
  known_keys (set_insert acc d) = known_keys acc
  \/ exists k, known_key d = Some k /\ ~ In k (known_keys acc)
               /\ known_keys (set_insert acc d) = known_keys acc ++ [k].
Proof.
  unfold set_insert. destruct (existsb _ acc) eqn:E; [now left|].
  rewrite known_keys_app. cbn. destruct (known_key d) as [k|] eqn:Hd.
  - right. exists k. split; [reflexivity|]. split; [|reflexivity].
    intros Hin. rewrite (existsb_same_known acc d k Hd Hin) in E. discriminate.
  - left. apply app_nil_r.
Qed.

Lemma NoDup_snoc {A} (l : list A) (x : A) :
  NoDup l -> ~ In x l -> NoDup (l ++ [x]).
Proof.
  intros Hl Hx. apply NoDup_app; [exact Hl | repeat constructor; intros [] |].
  intros a Ha [<- | []]. exact (Hx Ha).
Qed.

Lemma set_keys_nodup (ds : list driver) : forall acc,
  NoDup (known_keys acc) ->
  NoDup (known_keys (fold_left set_insert ds acc)).
Proof.
  induction ds as [|d ds IH]; intros acc H; cbn; [exact H|].
  apply IH. destruct (insert_keys acc d) as [-> | (k & _ & Hk & ->)];
    [exact H | now apply NoDup_snoc].
Qed.

(** Known drivers with pairwise different keys all enter the set. *)
Lemma set_of_distinct_known (ks : list driver) : forall acc,
  forallb (fun d => negb (is_possible d)) acc = true ->
  forallb (fun d => negb (is_possible d)) ks = true ->
  NoDup (known_keys (acc ++ ks)) ->
  fold_left set_insert ks acc = acc ++ ks.
Proof.
  induction ks as [|d ks IH]; intros acc Ha Hk Hn; cbn.
  - now rewrite app_nil_r.
  - cbn in Hk. apply andb_true_iff in Hk. destruct Hk as [Hd Hk].
    assert (Hfresh : existsb (fun e => same e d) acc = false).
    { destruct (existsb _ acc) eqn:E; [|reflexivity].
      apply existsb_exists in E. destruct E as [e [He Hs]].
      rewrite forallb_forall in Ha. specialize (Ha e He).
      destruct (known_key d) as [kd|] eqn:Ekd; [|destruct d; discriminate].
      destruct (same_absorb e d kd Ekd Hs) as [Hke | [Hp _]];
        [|rewrite Hp in Ha; discriminate].
      rewrite known_keys_app in Hn. cbn in Hn. rewrite Ekd in Hn.
      apply NoDup_remove_2 in Hn. exfalso. apply Hn.
      apply in_or_app. left. apply known_keys_In. exists e. auto. }
    unfold set_insert. rewrite Hfresh.
    rewrite IH; [now rewrite <- app_assoc | | exact Hk | now rewrite <- app_assoc].
    rewrite forallb_app, Ha. cbn. now rewrite Hd.
Qed.

Lemma has_multiple_spec (i : IdentifierWithType) :
  HasMultipleDrivers i
  = (1 <? length (known_keys (py_set (id_drivers i))))%nat.
Proof.
  unfold HasMultipleDrivers, GetUniqueDrivers.
  set (u := py_set (id_drivers i)).
  assert (Hn : NoDup (known_keys u)) by (apply set_keys_nodup; constructor).
  unfold py_set at 1. rewrite set_of_distinct_known.
  - cbn [app]. now rewrite known_keys_length.
  - reflexivity.
  - apply forallb_forall. intros d Hd. apply filter_In in Hd. apply Hd.
  - cbn [app]. now rewrite known_keys_filter.
Qed.

(** The order in which Python iterates over the first set does not
    matter for the count of the second. *)
Lemma known_count_order_irrelevant (i : IdentifierWithType) (u : list driver) :
  Permutation u (GetUniqueDrivers i) ->
  (1 <? length (py_set (filter (fun d => negb (is_possible d)) u)))%nat
  = HasMultipleDrivers i.
Proof.
  intros Hp. rewrite has_multiple_spec.
  assert (Hk : Permutation (known_keys u) (known_keys (py_set (id_drivers i)))).
  { unfold GetUniqueDrivers in Hp. clear -Hp. induction Hp; cbn.
    - constructor.
    - destruct (known_key x); [now constructor | assumption].
    - destruct (known_key x), (known_key y); try reflexivity; apply perm_swap.
    - etransitivity; eassumption. }
  assert (Hn : NoDup (known_keys (py_set (id_drivers i))))
    by (apply set_keys_nodup; constructor).
  unfold py_set at 1. rewrite set_of_distinct_known.
  - cbn [app]. now rewrite known_keys_length, (Permutation_length Hk).
  - reflexivity.
  - apply forallb_forall. intros d Hd. apply filter_In in Hd. apply Hd.
  - cbn [app]. rewrite known_keys_filter.
    eapply Permutation_NoDup; [|exact Hn]. symmetry. exact Hk.
Qed.

Lemma clear_head (d : driver) (ds : list driver) :
  possible_lines_clear (d :: ds) = true ->
  possible_lines_clear ds = true
  /\ (is_possible d = true ->
      forall e, In e ds -> is_possible e = false ->
                driver_line e <> driver_line d).
Proof.
  cbn [possible_lines_clear]. intros H. apply andb_true_iff in H.
  destruct H as [Hd Hds]. split; [exact Hds|].
  intros Hp e He Hk Heq. rewrite Hp in Hd.
  rewrite forallb_forall in Hd. specialize (Hd e He).
  rewrite Hk, Heq, Z.eqb_refl in Hd. discriminate.
Qed.

Lemma insert_In (acc : list driver) (d p : driver) :
  In p (set_insert acc d) -> In p acc \/ p = d.
Proof.
  unfold set_insert. destruct (existsb _ acc); [auto|].
  rewrite in_app_iff. cbn. intros [H | [H | []]]; auto.
Qed.

(** With possible drivers and later known drivers on different lines, the
    set holds exactly the keys of the list. *)
Lemma set_keys_complete (ds : list driver) : forall acc k,
  apart acc ds -> possible_lines_clear ds = true ->
  In k (known_keys (fold_left set_insert ds acc))
  <-> In k (known_keys acc) \/ In k (known_keys ds).
Proof.
  induction ds as [|d ds IH]; intros acc k Hap Hcl.
  - cbn. tauto.
  - destruct (clear_head d ds Hcl) as [Hcl' Hd].
    cbn [fold_left]. rewrite IH; [|
      | exact Hcl'].
    + cbn [known_keys].
      destruct (known_key d) as [kd|] eqn:Ekd.
      * assert (Hkd : In kd (known_keys (set_insert acc d))).
        { unfold set_insert. destruct (existsb _ acc) eqn:E.
          - apply existsb_exists in E. destruct E as [e [He Hs]].
            destruct (same_absorb e d kd Ekd Hs) as [Hke | [Hp Hl]].
            + apply known_keys_In. exists e. auto.
            + exfalso. apply (Hap e d He Hp); [now left | destruct d; try discriminate; reflexivity | now rewrite Hl].
          - rewrite known_keys_app. cbn. rewrite Ekd.
            apply in_or_app. right. now left. }
        destruct (insert_keys acc d) as [E | (k' & Hk' & _ & E)].
        -- rewrite E in *. cbn. split; [tauto|].
           intros [H | [<- | H]]; auto.
        -- rewrite E. rewrite in_app_iff. cbn.
           assert (k' = kd) by congruence. subst k'. tauto.
      * assert (E : known_keys (set_insert acc d) = known_keys acc).
        { destruct (insert_keys acc d) as [E | (k' & Hk' & _)]; [exact E | congruence]. }
        rewrite E. tauto.
    + intros p e Hp Hpp He Hek. apply insert_In in Hp. destruct Hp as [Hp | ->].
      * apply (Hap p e Hp Hpp); [now right | exact Hek].
      * apply Hd; assumption.
Qed.

Lemma distinct_known_of_set (ds : list driver) :
  possible_lines_clear ds = true ->
  length (known_keys (py_set ds)) = distinct_known ds.
Proof.
  intros Hcl. unfold distinct_known. apply Permutation_length.
  apply NoDup_Permutation.
  - apply set_keys_nodup. constructor.
  - apply NoDup_nodup.
  - intros k. rewrite nodup_In. unfold py_set.
    rewrite set_keys_complete; [cbn; tauto | intros p e [] | exact Hcl].
Qed.

(** C2, as amended.  When no possible driver of the list is followed by
    a known driver on its own line, [HasMultipleDrivers] is true exactly
    when more than one distinct known driver is listed, plain drivers
    being told apart by line and process drivers by scope. *)
Theorem has_multiple_drivers_count (i : IdentifierWithType) :
  possible_lines_clear (id_drivers i) = true ->
  HasMultipleDrivers i = true <-> (1 < distinct_known (id_drivers i))%nat.
Proof.
  intros Hcl. rewrite has_multiple_spec, distinct_known_of_set by exact Hcl.
  apply Nat.ltb_lt.
Qed.

Lemma has_multiple_drivers_count_witness :
  let i := with_drivers [Driver [] 2; PossibleDriver [] 30;
                         ProcessDriver 40 42; ProcessDriver 40 43;
                         ProcessDriver 50 52] in
  possible_lines_clear (id_drivers i) = true
  /\ (HasMultipleDrivers i = true <-> (1 < distinct_known (id_drivers i))%nat).
Proof.
  intros i. split; [reflexivity|].
  apply (has_multiple_drivers_count i). reflexivity.
Defined.

(** C2, as stated, fails: a possible driver listed before a plain driver
    of the same line takes its place in the set and is then dropped, so
    two known drivers on lines 5 and 7 are not seen as multiple. *)
Lemma has_multiple_drivers_counterexample :
  ~ (forall i : IdentifierWithType,
        HasMultipleDrivers i = true
        <-> (1 < distinct_known (id_drivers i))%nat).
Proof.
  intros H. specialize (H (with_drivers absorbed_drivers)).
  destruct H as [_ H].
  assert (E : HasMultipleDrivers (with_drivers absorbed_drivers) = false)
    by reflexivity.
  rewrite H in E; [discriminate|]. vm_compute. lia.
Qed.

(** The verdict on that list depends on the order of its entries. *)
Lemma has_multiple_drivers_order_dependent :
  HasMultipleDrivers (with_drivers absorbed_drivers) = false
  /\ HasMultipleDrivers
       (with_drivers [Driver [] 5; PossibleDriver [] 5; Driver [] 7]) = true.
Proof. split; reflexivity. Qed.

(** ** Regular expressions: literals and search *)

Lemma chr_eqb_sym (a b : ascii) : chr_eqb a b = chr_eqb b a.
Proof.
  destruct (chr_eqb a b) eqn:E.
  - apply chr_eqb_eq in E. subst. symmetry. apply chr_eqb_refl.
  - destruct (chr_eqb b a) eqn:E'; [|reflexivity].
    apply chr_eqb_eq in E'. subst. rewrite chr_eqb_refl in E. discriminate.
Qed.


(** A literal only matches where the text starts with it. *)
Lemma rmatch_Lit_prefix (s : str) : forall k st r,
  rmatch (Lit s) k st = Some r -> startswith (m_rest st) s = true.
Proof.
  induction s as [|c s IH]; intros k st r H; [reflexivity|].
  cbn [Lit rmatch] in H. cbn [startswith].
  destruct (m_rest st) as [|d tl] eqn:E; [discriminate|].
  rewrite chr_eqb_sym. destruct (chr_eqb c d); [|discriminate].
  apply IH in H. cbn [advance m_rest] in H. exact H.
Qed.


(** ** Line references *)




Lemma line_of_pad_last (file_lines : list str) :
  file_lines <> [] ->
  line_of (pad file_lines) (Z.of_nat (length (pad file_lines)) - 2)
  = last file_lines [].
Proof.
  intros Hne. unfold line_of, pad. cbn [length]. rewrite length_app. cbn [length].
  replace (Z.to_nat (Z.of_nat (S (length file_lines + 1)) - 2))
    with (S (length file_lines - 1)) by (destruct file_lines; [contradiction | cbn [length]; lia]).
  cbn [nth]. rewrite app_nth1 by (destruct file_lines; [contradiction | cbn [length]; lia]).
  destruct file_lines as [|x l] using rev_ind; [contradiction|].
  rewrite length_app, last_last. cbn [length].
  replace (length l + 1 - 1)%nat with (length l) by lia.
  rewrite app_nth2, Nat.sub_diag by lia. reflexivity.
Qed.






(** The span of a blank-line diagnostic, [0, 1], exceeds an empty line:
    the second way in which the anchoring of C6 is not met. *)
Lemma blank_line_span_exceeds_line :
  let file_lines := [lit "-- Copyright 2020 ACME"; []; []; []; lit "x"; []] in
  let d := report (lit "b.vhd") (OnlyLine 2) "whitespace/blank_line" 4
             (lit "Redundant blank lines. Consider deleting some of these "
              ++ lit "extra lines.") in
  In d (file_level_reports (lit "b.vhd") file_lines)
  /\ emits ResetNolintSuppressions LintState_init d = true
  /\ len (line_of (pad file_lines) 2) < EndColumn (d_lineref d).
Proof. cbv zeta. split; [vm_compute; auto | split; reflexivity]. Qed.

(** ** Regular expressions: where a pattern cannot match *)

Lemma cls_fails (P : str -> Prop) (p : ascii -> bool) k :
  tail_closed P -> fails_where P k -> fails_where P (rmatch (Cls p) k).
Proof.
  intros Hc Hk st HP. cbn [rmatch].
  destruct (m_rest st) as [|c tl] eqn:E; [reflexivity|].
  destruct (p c); [|reflexivity]. apply Hk. cbn. eapply Hc. exact HP.
Qed.

Lemma star_loop_cls_fails (P : str -> Prop) (g : bool) (p : ascii -> bool) k :
  tail_closed P -> fails_where P k ->
  forall n, fails_where P (star_loop g (rmatch (Cls p)) k n).
Proof.
  intros Hc Hk n. induction n as [|n IH]; intros st HP; cbn [star_loop].
  - apply Hk, HP.
  - assert (Hbody : rmatch (Cls p)
             (fun st1 => if (m_pos st <? m_pos st1)%nat
                         then star_loop g (rmatch (Cls p)) k n st1
                         else None) st = None).
    { cbn [rmatch]. destruct (m_rest st) as [|c tl] eqn:E; [reflexivity|].
      destruct (p c); [|reflexivity].
      destruct (_ <? _)%nat; [|reflexivity].
      apply IH. cbn. eapply Hc. exact HP. }
    destruct g; rewrite Hbody, (Hk st HP); reflexivity.
Qed.

Lemma star_cls_fails (P : str -> Prop) (g : bool) (p : ascii -> bool) k :
  tail_closed P -> fails_where P k ->
  fails_where P (rmatch (Star g (Cls p)) k).
Proof.
  intros Hc Hk st HP.
  exact (star_loop_cls_fails P g p k Hc Hk (S (length (m_rest st))) st HP).
Qed.

Lemma plus_cls_fails (P : str -> Prop) (g : bool) (p : ascii -> bool) k :
  tail_closed P -> fails_where P k ->
  fails_where P (rmatch (Plus g (Cls p)) k).
Proof.
  intros Hc Hk. unfold Plus.
  change (fails_where P (rmatch (Cls p) (rmatch (Star g (Cls p)) k))).
  apply cls_fails; [exact Hc|]. apply star_cls_fails; assumption.
Qed.

Lemma alt_fails (P : str -> Prop) (a b : regex) k :
  fails_where P (rmatch a k) -> fails_where P (rmatch b k) ->
  fails_where P (rmatch (Alt a b) k).
Proof.
  intros Ha Hb st HP. cbn [rmatch]. rewrite (Ha st HP). apply Hb, HP.
Qed.

Lemma grp_fails (P : str -> Prop) (i : nat) (a : regex) k :
  (forall k', fails_where P (rmatch a k')) ->
  fails_where P (rmatch (Grp i a) k).
Proof. intros Ha st HP. cbn [rmatch]. apply Ha, HP. Qed.

(** A pattern that fails at every position of a text leaves it as it is
    under [re.sub]. *)
Lemma sub_from_identity (P : str -> Prop) (r : regex) :
  tail_closed P -> fails_where P (rmatch r (fun st => Some st)) ->
  forall rest prev pos, P rest -> sub_from r prev rest pos 0 = rest.
Proof.
  intros Hc Hr rest. induction rest as [|c tl IH]; intros prev pos HP;
    [reflexivity|].
  cbn [sub_from].
  rewrite (Hr {| m_prev := prev; m_rest := c :: tl; m_pos := pos;
                 m_caps := [] |} HP).
  f_equal. apply IH. eapply Hc, HP.
Qed.

Lemma re_sub_identity (P : str -> Prop) (r : regex) (s : str) :
  tail_closed P -> fails_where P (rmatch r (fun st => Some st)) ->
  P s -> re_sub r s = s.
Proof. intros Hc Hr HP. unfold re_sub. eapply sub_from_identity; eauto. Qed.

(** *** Block comments *)

Lemma opens_comment_tail : tail_closed (fun s => opens_comment s = false).
Proof.
  intros c t H. cbn [opens_comment] in H. apply orb_false_iff in H. apply H.
Qed.

Lemma c_comment_fails k :
  fails_where (fun s => opens_comment s = false) (rmatch RE_C_COMMENTS k).
Proof.
  intros st HP. unfold RE_C_COMMENTS, chr. cbn [Seqs rmatch].
  destruct (m_rest st) as [|c tl]; [reflexivity|].
  cbn [opens_comment] in HP. apply orb_false_iff in HP. destruct HP as [HP _].
  rewrite chr_eqb_sym. destruct (chr_eqb c "/"); [|reflexivity].
  cbn [advance m_rest]. destruct tl as [|d tl']; [reflexivity|].
  cbn [andb] in HP. rewrite chr_eqb_sym, HP. reflexivity.
Qed.

Lemma cleanse_comments_pattern_fails :
  fails_where (fun s => opens_comment s = false)
    (rmatch RE_CLEANSE_LINE_C_COMMENTS (fun st => Some st)).
Proof.
  unfold RE_CLEANSE_LINE_C_COMMENTS. apply grp_fails. intros k.
  cbn [Alts Seqs].
  repeat (apply alt_fails).
  - change (fails_where (fun s => opens_comment s = false)
              (rmatch (Star true (Cls is_space))
                 (rmatch RE_C_COMMENTS
                    (rmatch (Seq (Star true (Cls is_space)) Eol) k)))).
    apply star_cls_fails; [apply opens_comment_tail | apply c_comment_fails].
  - change (fails_where (fun s => opens_comment s = false)
              (rmatch RE_C_COMMENTS (rmatch (Plus true (Cls is_space)) k))).
    apply c_comment_fails.
  - change (fails_where (fun s => opens_comment s = false)
              (rmatch (Plus true (Cls is_space))
                 (rmatch RE_C_COMMENTS (rmatch (Look true (Cls not_word)) k)))).
    apply plus_cls_fails; [apply opens_comment_tail | apply c_comment_fails].
  - apply c_comment_fails.
Qed.

Lemma sub_comments_identity (s : str) :
  opens_comment s = false -> re_sub RE_CLEANSE_LINE_C_COMMENTS s = s.
Proof.
  intros H.
  apply (re_sub_identity (fun s => opens_comment s = false));
    [apply opens_comment_tail | apply cleanse_comments_pattern_fails | exact H].
Qed.

(** *** Escapes *)

Lemma no_chr_tail (x : ascii) :
  tail_closed (fun s => existsb (chr_eqb x) s = false).
Proof.
  intros c t H. cbn [existsb] in H. apply orb_false_iff in H. apply H.
Qed.

Lemma sub_escapes_identity (s : str) :
  existsb (chr_eqb backslash) s = false ->
  re_sub RE_CLEANSE_LINE_ESCAPES s = s.
Proof.
  intros H.
  apply (re_sub_identity (fun s => existsb (chr_eqb backslash) s = false));
    [apply no_chr_tail | | exact H].
  intros st HP. unfold RE_CLEANSE_LINE_ESCAPES. cbn [rmatch].
  destruct (m_rest st) as [|c tl]; [reflexivity|].
  cbn [existsb] in HP. apply orb_false_iff in HP. destruct HP as [HP _].
  rewrite HP. reflexivity.
Qed.

(** ** Regular expressions: greedy repetition of a character class *)

Lemma consume_rest (h : str) : forall t st,
  m_rest st = h ++ t -> m_rest (consume h st) = t.
Proof.
  induction h as [|c h IH]; intros t st H; [exact H|].
  cbn [consume]. apply IH. rewrite H. reflexivity.
Qed.

Lemma consume_pos (h : str) : forall st,
  m_pos (consume h st) = (m_pos st + length h)%nat.
Proof.
  induction h as [|c h IH]; intros st; cbn [consume length]; [lia|].
  rewrite IH. cbn. lia.
Qed.

Lemma consume_caps (h : str) : forall st, m_caps (consume h st) = m_caps st.
Proof.
  induction h as [|c h IH]; intros st; cbn [consume]; [reflexivity|].
  now rewrite IH.
Qed.

Lemma consume_app (a b : str) : forall st,
  consume (a ++ b) st = consume b (consume a st).
Proof.
  induction a as [|c a IH]; intros st; cbn [app consume]; [reflexivity|].
  apply IH.
Qed.

Lemma star_loop_greedy_success (p : ascii -> bool) k x (h : str) :
  forall st n t,
    m_rest st = h ++ t -> forallb p h = true -> stops p t ->
    (length h < n)%nat ->
    k (consume h st) = Some x ->
    star_loop true (rmatch (Cls p)) k n st = Some x.
Proof.
  induction h as [|c h IH]; intros st n t Hr Hp Hs Hn Hk;
    (destruct n as [|n]; [cbn in Hn; lia|]); cbn [star_loop rmatch].
  - cbn [app] in Hr. rewrite Hr. cbn [consume] in Hk.
    destruct t as [|d t]; [exact Hk|]. cbn in Hs. rewrite Hs. exact Hk.
  - rewrite Hr. cbn [app]. cbn [forallb] in Hp.
    apply andb_true_iff in Hp. destruct Hp as [Hc Hp]. rewrite Hc.
    cbn [advance m_pos]. rewrite (proj2 (Nat.ltb_lt _ _)) by lia.
    erewrite IH; [reflexivity | reflexivity | exact Hp | exact Hs | cbn in Hn; lia |].
    cbn [consume] in Hk. rewrite Hr in Hk. exact Hk.
Qed.

Lemma star_loop_greedy_fail (p : ascii -> bool) k (h : str) :
  forall st n t,
    m_rest st = h ++ t -> forallb p h = true -> stops p t ->
    (length h < n)%nat ->
    (forall h1 h2, h = h1 ++ h2 -> k (consume h1 st) = None) ->
    star_loop true (rmatch (Cls p)) k n st = None.
Proof.
  induction h as [|c h IH]; intros st n t Hr Hp Hs Hn Hk;
    (destruct n as [|n]; [cbn in Hn; lia|]); cbn [star_loop rmatch].
  - cbn [app] in Hr. rewrite Hr. specialize (Hk [] [] eq_refl).
    cbn [consume] in Hk.
    destruct t as [|d t]; [exact Hk|]. cbn in Hs. rewrite Hs. exact Hk.
  - rewrite Hr. cbn [app]. cbn [forallb] in Hp.
    apply andb_true_iff in Hp. destruct Hp as [Hc Hp]. rewrite Hc.
    cbn [advance m_pos]. rewrite (proj2 (Nat.ltb_lt _ _)) by lia.
    rewrite (IH _ n t); [apply (Hk [] (c :: h) eq_refl) | reflexivity
                        | exact Hp | exact Hs | cbn in Hn; lia |].
    intros h1 h2 Hh. specialize (Hk (c :: h1) h2).
    cbn [consume] in Hk. rewrite Hr in Hk. apply Hk. now rewrite Hh.
Qed.

Lemma take_drop_while (p : ascii -> bool) (s : str) :
  s = take_while p s ++ drop_while p s
  /\ forallb p (take_while p s) = true
  /\ stops p (drop_while p s).
Proof.
  induction s as [|c s (IH1 & IH2 & IH3)]; cbn; [auto|].
  destruct (p c) eqn:E; cbn.
  - rewrite E, IH2. split; [now rewrite <- IH1 | auto].
  - auto.
Qed.

(** ** The pattern of the collapsing loop *)

Lemma rmatch_star_eq (g : bool) (a : regex) k st :
  rmatch (Star g a) k st
  = star_loop g (rmatch a) k (S (length (m_rest st))) st.
Proof. reflexivity. Qed.

Lemma first_quote_none (s : str) :
  forallb not_quote s = true -> re_match RE_FIRST_QUOTE s = None.
Proof.
  intros Hs. unfold re_match, RE_FIRST_QUOTE. cbn [Seqs].
  change (rmatch (Star true (Cls (fun c => negb (is_quote c))))
            (fun st1 => rmatch (Seq (Grp 2 (Cls is_quote))
                                  (Seq (Grp 3 (Star true (Cls dot))) Eol))
                          (fun st => Some st)
                          (set_group 1 (m_pos (init_state s)) st1))
            (init_state s) = None).
  rewrite rmatch_star_eq.
  apply (star_loop_greedy_fail _ _ s _ _ []);
    [cbn; now rewrite app_nil_r | exact Hs | exact I | cbn; lia |].
  intros h1 h2 Hh. cbn [rmatch set_group m_rest].
  rewrite (consume_rest h1 h2) by (cbn; exact Hh).
  destruct h2 as [|c h2]; [reflexivity|].
  assert (Hc : not_quote c = true).
  { rewrite Hh, forallb_app in Hs. apply andb_true_iff in Hs.
    destruct Hs as [_ Hs]. cbn in Hs. apply andb_true_iff in Hs. apply Hs. }
  unfold not_quote in Hc. apply negb_true_iff in Hc. now rewrite Hc.
Qed.

Lemma set_group_rest i a st : m_rest (set_group i a st) = m_rest st.
Proof. reflexivity. Qed.

Lemma first_quote_some (h : str) (q : ascii) (tail : str) :
  forallb not_quote h = true -> is_quote q = true ->
  forallb dot tail = true ->
  exists m,
    re_match RE_FIRST_QUOTE (h ++ q :: tail) = Some m
    /\ m_caps m = [ (3, (S (length h), length (h ++ q :: tail)));
                    (2, (length h, S (length h)));
                    (1, (0, length h)) ]%nat.
Proof.
  intros Hh Hq Ht. set (s := h ++ q :: tail).
  set (st1 := set_group 1 (m_pos (init_state s)) (consume h (init_state s))).
  set (st2 := set_group 2 (m_pos st1) (advance q tail st1)).
  exists (set_group 3 (m_pos st2) (consume tail st2)).
  assert (Hr1 : m_rest st1 = q :: tail).
  { unfold st1. rewrite set_group_rest. now apply consume_rest. }
  split.
  - unfold re_match, RE_FIRST_QUOTE. cbn [Seqs].
    change (rmatch (Star true (Cls (fun c => negb (is_quote c))))
              (fun st1 => rmatch (Seq (Grp 2 (Cls is_quote))
                                    (Seq (Grp 3 (Star true (Cls dot))) Eol))
                            (fun st => Some st)
                            (set_group 1 (m_pos (init_state s)) st1))
              (init_state s)
            = Some (set_group 3 (m_pos st2) (consume tail st2))).
    rewrite rmatch_star_eq.
    apply (star_loop_greedy_success _ _ _ h _ _ (q :: tail));
      [reflexivity | exact Hh | unfold stops, not_quote; now rewrite Hq
      | subst s; cbn; rewrite length_app; cbn; lia |].
    fold st1.
    change (rmatch (Cls is_quote)
              (fun st2 => rmatch (Star true (Cls dot))
                            (fun st3 => rmatch Eol (fun st => Some st)
                                          (set_group 3 (m_pos (set_group 2 (m_pos st1) st2)) st3))
                            (set_group 2 (m_pos st1) st2)) st1
            = Some (set_group 3 (m_pos st2) (consume tail st2))).
    cbn [rmatch]. rewrite Hr1, Hq. fold st2.
    change (rmatch (Star true (Cls dot))
              (fun st3 => rmatch Eol (fun st => Some st)
                            (set_group 3 (m_pos st2) st3)) st2
            = Some (set_group 3 (m_pos st2) (consume tail st2))).
    rewrite rmatch_star_eq.
    apply (star_loop_greedy_success _ _ _ tail _ _ []);
      [cbn; now rewrite app_nil_r | exact Ht | exact I | cbn; lia |].
    cbn [rmatch]. unfold at_eol. rewrite set_group_rest.
    rewrite (consume_rest tail []) by (cbn; now rewrite app_nil_r).
    reflexivity.
  - assert (Hp1 : m_pos st1 = length h).
    { unfold st1. cbn [set_group m_pos]. rewrite consume_pos. reflexivity. }
    assert (Hc1 : m_caps st1 = [(1%nat, (0%nat, length h))]).
    { unfold st1. cbn [set_group m_caps].
      rewrite consume_pos, consume_caps. reflexivity. }
    cbn [set_group m_caps]. rewrite consume_pos, consume_caps.
    unfold st2. cbn [set_group advance m_pos m_caps].
    rewrite Hp1, Hc1.
    assert (Hlen : (S (length h) + length tail)%nat = length s).
    { subst s. rewrite length_app. cbn [length]. lia. }
    rewrite Hlen. reflexivity.
Qed.

(** ** [find] *)

Lemma find_from_spec (p : str) (s : str) : forall i,
  (find_from s p i = -1 /\ forall a b, s <> a ++ p ++ b)
  \/ (exists a b, s = a ++ p ++ b
                  /\ find_from s p i = i + Z.of_nat (length a)
                  /\ forall a' b', s = a' ++ p ++ b' ->
                                   (length a <= length a')%nat).
Proof.
  induction s as [|c s IH]; intros i; cbn [find_from].
  - destruct (startswith [] p) eqn:E.
    + right. apply startswith_prefix in E. destruct E as [t E].
      exists [], t. cbn. split; [exact E|]. split; [lia | intros; lia].
    + left. split; [reflexivity|]. intros a b H.
      destruct a; [|discriminate]. cbn in H.
      rewrite H, startswith_app in E. discriminate.
  - destruct (startswith (c :: s) p) eqn:E.
    + right. apply startswith_prefix in E. destruct E as [t E].
      exists [], t. cbn. split; [exact E|]. split; [lia | intros; lia].
    + destruct (IH (i + 1)) as [[Hn Hno] | (a & b & Hs & Hf & Hmin)].
      * left. split; [exact Hn|]. intros a b H. destruct a as [|x a].
        -- cbn in H. rewrite H, startswith_app in E. discriminate.
        -- cbn in H. inversion H. eapply Hno; eauto.
      * right. exists (c :: a), b. cbn [app length]. split; [now rewrite Hs|].
        split; [rewrite Hf; lia|]. intros a' b' H. destruct a' as [|x a'].
        -- cbn in H. rewrite H, startswith_app in E. discriminate.
        -- cbn in H. inversion H. subst. cbn [length].
           apply le_n_S. eapply Hmin; eauto.
Qed.

Lemma find_none (s p : str) :
  find s p = -1 -> forall a b, s <> a ++ p ++ b.
Proof.
  unfold find. intros H.
  destruct (find_from_spec p s 0) as [[_ Hno] | (a & b & _ & Hf & _)];
    [exact Hno | lia].
Qed.

Lemma find_some (s p : str) :
  find s p <> -1 ->
  exists a b, s = a ++ p ++ b /\ find s p = Z.of_nat (length a)
              /\ forall a' b', s = a' ++ p ++ b' ->
                               (length a <= length a')%nat.
Proof.
  unfold find. intros H.
  destruct (find_from_spec p s 0) as [[Hn _] | (a & b & Hs & Hf & Hmin)];
    [contradiction|].
  exists a, b. split; [exact Hs|]. split; [lia | exact Hmin].
Qed.

Lemma find_absent (s p : str) :
  (forall a b, s <> a ++ p ++ b) -> find s p = -1.
Proof.
  intros H. destruct (Z.eq_dec (find s p) (-1)) as [E | E]; [exact E|].
  destruct (find_some s p E) as (a & b & Hs & _). exfalso. eapply H; eauto.
Qed.

Lemma find_prefix_none (a w p : str) :
  find (a ++ w) p = -1 -> find a p = -1.
Proof.
  intros H. apply find_absent. intros x y Hx.
  apply (find_none _ _ H x (y ++ w)). rewrite Hx, <- !app_assoc. reflexivity.
Qed.

(** Before its first occurrence the pattern does not occur. *)
Lemma find_first (s p : str) :
  p <> [] -> find s p <> -1 ->
  find (firstn (Z.to_nat (find s p)) s) p = -1.
Proof.
  intros Hp H. destruct (find_some s p H) as (a & b & Hs & Hf & Hmin).
  rewrite Hf, Nat2Z.id. rewrite Hs at 1. rewrite firstn_app, Nat.sub_diag.
  rewrite firstn_all. cbn [firstn]. rewrite app_nil_r.
  apply find_absent. intros x y Hx.
  assert (Hle : (length a <= length x)%nat).
  { apply (Hmin x (y ++ p ++ b)). rewrite Hs, Hx, <- !app_assoc. reflexivity. }
  rewrite Hx, !length_app in Hle. destruct p; [contradiction | cbn in Hle; lia].
Qed.

Lemma find_chr_none (x : ascii) (s : str) :
  find s [x] = -1 <-> existsb (chr_eqb x) s = false.
Proof.
  split.
  - intros H. destruct (existsb (chr_eqb x) s) eqn:E; [|reflexivity].
    apply existsb_exists in E. destruct E as [c [Hin Hc]].
    apply chr_eqb_eq in Hc. subst c. apply in_split in Hin.
    destruct Hin as (a & b & Hs). exfalso. apply (find_none _ _ H a b Hs).
  - intros H. apply find_absent. intros a b Hs.
    rewrite Hs, existsb_app in H. cbn in H. rewrite chr_eqb_refl in H.
    rewrite orb_true_r in H. discriminate.
Qed.

Lemma find_chr_some (x : ascii) (s : str) :
  find s [x] <> -1 ->
  exists a b, s = a ++ x :: b /\ find s [x] = Z.of_nat (length a)
              /\ existsb (chr_eqb x) a = false.
Proof.
  intros H. destruct (find_some s [x] H) as (a & b & Hs & Hf & Hmin).
  exists a, b. split; [exact Hs|]. split; [exact Hf|].
  destruct (existsb (chr_eqb x) a) eqn:E; [|reflexivity].
  apply existsb_exists in E. destruct E as [c [Hin Hc]].
  apply chr_eqb_eq in Hc. subst c. apply in_split in Hin.
  destruct Hin as (a1 & a2 & Ha).
  assert (Hle : (length a <= length a1)%nat).
  { apply (Hmin a1 (a2 ++ [x] ++ b)). rewrite Hs, Ha, <- !app_assoc. reflexivity. }
  rewrite Ha, length_app in Hle. cbn in Hle. lia.
Qed.

(** ** Prefixes *)

Lemma rstrip_prefix (s : str) : exists w, s = rstrip s ++ w.
Proof.
  induction s as [|c s [w IH]]; [exists []; reflexivity|].
  cbn [rstrip]. destruct (rstrip s) as [|d r] eqn:E.
  - destruct (is_space c); [exists (c :: s) | exists s]; reflexivity.
  - exists w. cbn. now rewrite IH at 1.
Qed.

Lemma firstn_prefix {A} (n : nat) (s : list A) : exists w, s = firstn n s ++ w.
Proof. exists (skipn n s). symmetry. apply firstn_skipn. Qed.

Lemma strip_line_comment_prefix (s : str) :
  exists w, s = strip_line_comment s ++ w.
Proof.
  unfold strip_line_comment. destruct (_ && _).
  - destruct (firstn_prefix (Z.to_nat (find s (lit "--"))) s) as [w Hw].
    unfold slice_to.
    destruct (rstrip_prefix (firstn (Z.to_nat (find s (lit "--"))) s)) as [v Hv].
    exists (v ++ w). rewrite app_assoc, <- Hv. exact Hw.
  - exists []. now rewrite app_nil_r.
Qed.

Lemma strip_line_comment_cases (s : str) :
  strip_line_comment s = s
  \/ (find s (lit "--") <> -1
      /\ strip_line_comment s
         = rstrip (firstn (Z.to_nat (find s (lit "--"))) s)).
Proof.
  unfold strip_line_comment, slice_to.
  destruct (Z.eqb_spec (find s (lit "--")) (-1)) as [E | E]; cbn [negb andb];
    [now left|].
  destruct (IsCppString _); cbn [negb]; [now left | right; auto].
Qed.

Lemma strip_line_comment_idem (s : str) :
  strip_line_comment (strip_line_comment s) = strip_line_comment s.
Proof.
  destruct (strip_line_comment_cases s) as [E | [E Ht]];
    [now rewrite E|].
  rewrite Ht.
  set (t := rstrip (firstn (Z.to_nat (find s (lit "--"))) s)).
  assert (Hn : find t (lit "--") = -1).
  { destruct (rstrip_prefix (firstn (Z.to_nat (find s (lit "--"))) s))
      as [v Hv].
    apply (find_prefix_none t v). fold t in Hv. rewrite <- Hv.
    apply find_first; [discriminate | exact E]. }
  unfold strip_line_comment. rewrite Hn. reflexivity.
Qed.

Lemma opens_comment_prefix (a w : str) :
  opens_comment (a ++ w) = false -> opens_comment a = false.
Proof.
  induction a as [|c a IH]; [reflexivity|].
  cbn [app opens_comment]. intros H. apply orb_false_iff in H.
  destruct H as [H1 H2]. rewrite (IH H2), orb_false_r.
  destruct a as [|d a]; [now rewrite andb_false_r | exact H1].
Qed.

Lemma opens_comment_occurs (s : str) :
  opens_comment s = true -> exists a b, s = a ++ lit "/*" ++ b.
Proof.
  induction s as [|c s IH]; [discriminate|].
  cbn [opens_comment]. intros H. apply orb_true_iff in H.
  destruct H as [H | H].
  - apply andb_true_iff in H. destruct H as [Hc Hd].
    destruct s as [|d s]; [discriminate|].
    apply chr_eqb_eq in Hc, Hd. subst. exists [], s. reflexivity.
  - destruct (IH H) as (a & b & ->). exists (c :: a), b. reflexivity.
Qed.

Lemma find_none_opens (s : str) :
  find s (lit "/*") = -1 -> opens_comment s = false.
Proof.
  intros H. destruct (opens_comment s) eqn:E; [|reflexivity].
  destruct (opens_comment_occurs s E) as (a & b & Hs).
  exfalso. apply (find_none _ _ H a b Hs).
Qed.

Lemma existsb_prefix (x : ascii) (a w : str) :
  existsb (chr_eqb x) (a ++ w) = false -> existsb (chr_eqb x) a = false.
Proof. rewrite existsb_app. intros H. apply orb_false_iff in H. apply H. Qed.

(** [CleanseComments] on a line without block comment: only the cut. *)
Lemma CleanseComments_plain (s : str) :
  opens_comment s = false -> CleanseComments s = strip_line_comment s.
Proof.
  intros H. unfold CleanseComments. apply sub_comments_identity.
  destruct (strip_line_comment_prefix s) as [w Hw].
  apply (opens_comment_prefix _ w). now rewrite <- Hw.
Qed.

Lemma CleanseComments_idem (s : str) :
  opens_comment s = false ->
  CleanseComments (CleanseComments s) = CleanseComments s.
Proof.
  intros H. rewrite (CleanseComments_plain s H).
  destruct (strip_line_comment_prefix s) as [w Hw].
  rewrite CleanseComments_plain
    by (apply (opens_comment_prefix _ w); now rewrite <- Hw).
  apply strip_line_comment_idem.
Qed.

(** ** The collapsing loop *)

Lemma take_drop_app (p : ascii -> bool) (h t : str) :
  forallb p h = true -> stops p t ->
  take_while p (h ++ t) = h /\ drop_while p (h ++ t) = t.
Proof.
  intros Hh Ht. induction h as [|c h IH]; cbn.
  - destruct t as [|d t]; [auto|]. cbn in *. rewrite Ht. auto.
  - cbn in Hh. apply andb_true_iff in Hh. destruct Hh as [Hc Hh].
    rewrite Hc. destruct (IH Hh) as [-> ->]. auto.
Qed.

Lemma cap_spans_first_quote (h : str) (q : ascii) (tail : str) (m : mstate) :
  m_caps m = [ (3, (S (length h), length (h ++ q :: tail)));
               (2, (length h, S (length h)));
               (1, (0, length h)) ]%nat ->
  group_or_empty (h ++ q :: tail) m 1 = h
  /\ group_or_empty (h ++ q :: tail) m 2 = [q]
  /\ group_or_empty (h ++ q :: tail) m 3 = tail.
Proof.
  intros Hc. unfold group_or_empty, group. rewrite Hc. cbn [cap_span Nat.eqb].
  unfold slice. repeat split.
  - cbn [skipn]. rewrite Nat.sub_0_r, firstn_app, Nat.sub_diag, firstn_all.
    cbn. apply app_nil_r.
  - rewrite skipn_app, Nat.sub_diag, skipn_all. cbn [app skipn].
    replace (S (length h) - length h)%nat with 1%nat by lia. reflexivity.
  - replace (h ++ q :: tail) with ((h ++ [q]) ++ tail)
      by (rewrite <- app_assoc; reflexivity).
    replace (S (length h)) with (length (h ++ [q]))
      by (rewrite length_app; cbn; lia).
    rewrite skipn_app, Nat.sub_diag, skipn_all. cbn [app skipn].
    rewrite length_app.
    replace (length (h ++ [q]) + length tail - length (h ++ [q]))%nat
      with (length tail) by lia.
    apply firstn_all.
Qed.

Lemma forallb_app_r {A} (p : A -> bool) (a b : list A) :
  forallb p (a ++ b) = true -> forallb p b = true.
Proof. rewrite forallb_app. intros H. apply andb_true_iff in H. apply H. Qed.

Lemma forallb_app_l {A} (p : A -> bool) (a b : list A) :
  forallb p (a ++ b) = true -> forallb p a = true.
Proof. rewrite forallb_app. intros H. apply andb_true_iff in H. apply H. Qed.

(** One turn of the loop, in terms of the text before the first quote and
    of what follows it. *)
Lemma collapse_step (f : nat) (s c : str) :
  forallb dot s = true ->
  collapse_loop (S f) s c =
  match drop_while not_quote s with
  | [] => Some (c ++ s)
  | q :: tail =>
      if chr_eqb q dquote then
        if 0 <=? find tail [dquote] then
          collapse_loop f (skipn (Z.to_nat (find tail [dquote] + 1)) tail)
            (c ++ take_while not_quote s ++ [dquote; dquote])
        else Some (c ++ s)
      else Some (c ++ s)
  end.
Proof.
  intros Hd. destruct (take_drop_while not_quote s) as (Hs & Hh & Ht).
  set (h := take_while not_quote s) in *.
  destruct (drop_while not_quote s) as [|q tail] eqn:Et.
  - rewrite app_nil_r in Hs. cbn [collapse_loop].
    rewrite first_quote_none by (rewrite Hs; exact Hh). reflexivity.
  - cbn in Ht. unfold not_quote in Ht. apply negb_false_iff in Ht.
    assert (Hdt : forallb dot tail = true).
    { rewrite Hs in Hd. apply forallb_app_r in Hd. cbn in Hd.
      apply andb_true_iff in Hd. apply Hd. }
    destruct (first_quote_some h q tail Hh Ht Hdt) as (m & Hm & Hc).
    cbn [collapse_loop]. clearbody h. rewrite Hs, Hm.
    destruct (cap_spans_first_quote h q tail m Hc) as (G1 & G2 & G3).
    rewrite G1, G2, G3.
    cbn [str_eqb]. rewrite andb_true_r. unfold slice_from. reflexivity.
Qed.

Lemma opens_comment_suffix (a b : str) :
  opens_comment (a ++ b) = false -> opens_comment b = false.
Proof.
  induction a as [|c a IH]; [auto|]. cbn [app]. intros H.
  apply IH. eapply opens_comment_tail. exact H.
Qed.

Lemma opens_comment_join (h : str) (d : ascii) (r : str) :
  opens_comment h = false -> opens_comment (d :: r) = false ->
  chr_eqb d "*" = false -> opens_comment (h ++ d :: r) = false.
Proof.
  intros Hh Hr Hd. induction h as [|c h IH]; [exact Hr|].
  cbn [app opens_comment]. cbn [opens_comment] in Hh.
  apply orb_false_iff in Hh. destruct Hh as [H1 H2].
  rewrite (IH H2), orb_false_r.
  destruct h as [|e h]; cbn [app]; [rewrite Hd; apply andb_false_r | exact H1].
Qed.

Lemma collapse_loop_out (f : nat) : forall s c,
  forallb dot s = true -> (length s < f)%nat ->
  exists y,
    collapse_loop f s c = Some (c ++ y)
    /\ collapsed y
    /\ (opens_comment s = false -> opens_comment y = false)
    /\ (forall x, chr_eqb x dquote = false ->
                  existsb (chr_eqb x) s = false ->
                  existsb (chr_eqb x) y = false).
Proof.
  induction f as [|f IH]; intros s c Hd Hl; [lia|].
  rewrite collapse_step by exact Hd.
  destruct (take_drop_while not_quote s) as (Hs & Hh & Ht).
  set (h := take_while not_quote s) in *.
  destruct (drop_while not_quote s) as [|q tail] eqn:Et.
  - exists s. split; [reflexivity|]. split; [|auto].
    apply cd_plain. rewrite app_nil_r in Hs. now rewrite Hs.
  - cbn in Ht. unfold not_quote in Ht. apply negb_false_iff in Ht.
    destruct (chr_eqb q dquote) eqn:Eq.
    + destruct (Z.leb_spec 0 (find tail [dquote])) as [Hf | Hf].
      * destruct (find_chr_some dquote tail ltac:(lia)) as (a & b & Ha & Hfa & Hna).
        apply chr_eqb_eq in Eq. subst q.
        assert (Hsk : skipn (Z.to_nat (find tail [dquote] + 1)) tail = b).
        { rewrite Hfa, Ha.
          replace (Z.to_nat (Z.of_nat (length a) + 1)) with (length (a ++ [dquote]))
            by (rewrite length_app; cbn; lia).
          replace (a ++ dquote :: b) with ((a ++ [dquote]) ++ b)
            by (rewrite <- app_assoc; reflexivity).
          rewrite skipn_app, Nat.sub_diag, skipn_all. reflexivity. }
        rewrite Hsk.
        assert (Hsb : s = (h ++ dquote :: a ++ [dquote]) ++ b).
        { rewrite Hs, Ha, <- !app_assoc. cbn. rewrite <- app_assoc. reflexivity. }
        destruct (IH b (c ++ h ++ [dquote; dquote])) as (y & Hy & Hcy & Hoy & Hxy).
        -- rewrite Hsb in Hd. apply forallb_app_r in Hd. exact Hd.
        -- rewrite Hsb, !length_app in Hl. cbn in Hl. lia.
        -- exists (h ++ dquote :: dquote :: y). split; [|split; [|split]].
           ++ rewrite Hy. f_equal. rewrite <- !app_assoc. reflexivity.
           ++ apply cd_pair; assumption.
           ++ intros Ho. apply opens_comment_join.
              ** rewrite Hs in Ho. eapply opens_comment_prefix. exact Ho.
              ** cbn [opens_comment]. cbn [opens_comment] in Hoy.
                 rewrite Hoy; [reflexivity|].
                 rewrite Hsb in Ho. eapply opens_comment_suffix. exact Ho.
              ** reflexivity.
           ++ intros x Hx Hxs. rewrite existsb_app. cbn [existsb].
              rewrite Hx. cbn [orb].
              rewrite Hs, existsb_app in Hxs. apply orb_false_iff in Hxs.
              destruct Hxs as [Hxh Hxt]. rewrite Hxh. cbn [orb].
              apply Hxy; [exact Hx|].
              cbn [existsb] in Hxt. apply orb_false_iff in Hxt.
              destruct Hxt as [_ Hxt]. rewrite Ha, existsb_app in Hxt.
              apply orb_false_iff in Hxt. destruct Hxt as [_ Hxt].
              cbn [existsb] in Hxt. apply orb_false_iff in Hxt. apply Hxt.
      * exists s. split; [reflexivity|]. split; [|auto].
        rewrite Hs. apply cd_stop; [exact Hh | exact Ht |].
        right. apply find_chr_none.
        destruct (Z.eq_dec (find tail [dquote]) (-1)) as [E | E]; [exact E|].
        destruct (find_chr_some dquote tail E) as (a & b & _ & Hfa & _). lia.
    + exists s. split; [reflexivity|]. split; [|auto].
      rewrite Hs. apply cd_stop; [exact Hh | exact Ht | now left].
Qed.

Lemma take_while_all (p : ascii -> bool) (s : str) :
  forallb p s = true -> take_while p s = s /\ drop_while p s = [].
Proof.
  intros H. destruct (take_drop_app p s [] H I) as [H1 H2].
  rewrite app_nil_r in H1, H2. auto.
Qed.

(** A line of the collapsed shape goes through the loop unchanged. *)
Lemma collapse_loop_fix (y : str) :
  collapsed y -> forallb dot y = true ->
  forall f c, (length y < f)%nat -> collapse_loop f y c = Some (c ++ y).
Proof.
  induction 1 as [s Hs | h q tail Hh Hq Hstop | h y Hh Hy IH];
    intros Hd f c Hl; (destruct f as [|f]; [lia|]);
    rewrite collapse_step by exact Hd.
  - destruct (take_while_all not_quote s Hs) as [_ ->]. reflexivity.
  - assert (Hst : stops not_quote (q :: tail))
      by (unfold stops, not_quote; now rewrite Hq).
    destruct (take_drop_app not_quote h (q :: tail) Hh Hst) as [_ ->].
    destruct (chr_eqb q dquote) eqn:Eq; [|reflexivity].
    destruct Hstop as [Hne | Hno]; [discriminate|].
    apply find_chr_none in Hno. rewrite Hno. reflexivity.
  - assert (Hst : stops not_quote (dquote :: dquote :: y)) by reflexivity.
    destruct (take_drop_app not_quote h _ Hh Hst) as [-> ->].
    rewrite chr_eqb_refl.
    assert (Hf : find (dquote :: y) [dquote] = 0) by reflexivity.
    rewrite Hf. cbn [Z.leb Z.add Z.to_nat Pos.to_nat Pos.iter_op Nat.add skipn].
    change (skipn (Z.to_nat (0 + 1)) (dquote :: y)) with y.
    rewrite IH.
    + cbn [Z.leb Z.compare]. f_equal. rewrite <- !app_assoc. reflexivity.
    + apply forallb_app_r in Hd. cbn in Hd. exact Hd.
    + rewrite length_app in Hl. cbn in Hl. lia.
Qed.

Lemma forallb_existsb_prefix_split (h : str) (q : ascii) (tail x w : str) :
  h ++ q :: tail = x ++ w ->
  (exists v, h = x ++ v) \/ (exists t', x = h ++ q :: t' /\ tail = t' ++ w).
Proof.
  intros H. apply app_eq_app in H. destruct H as [l [[H1 H2] | [H1 H2]]].
  - left. exists l. exact H1.
  - destruct l as [|e l].
    + left. exists []. rewrite app_nil_r in H1. rewrite app_nil_r. auto.
    + cbn in H2. inversion H2; subst. right. exists l. auto.
Qed.

(** The collapsed shape passes to prefixes. *)
Lemma collapsed_prefix (y : str) :
  collapsed y -> forall x w, y = x ++ w -> collapsed x.
Proof.
  induction 1 as [s Hs | h q tail Hh Hq Hstop | h y Hh Hy IH]; intros x w E.
  - apply cd_plain. rewrite E in Hs. eapply forallb_app_l. exact Hs.
  - destruct (forallb_existsb_prefix_split h q tail x w E)
      as [[v Hv] | [t' [Hx Ht]]].
    + apply cd_plain. rewrite Hv in Hh. eapply forallb_app_l. exact Hh.
    + rewrite Hx. apply cd_stop; [exact Hh | exact Hq |].
      destruct Hstop as [Hne | Hno]; [now left | right].
      rewrite Ht in Hno. eapply existsb_prefix. exact Hno.
  - destruct (forallb_existsb_prefix_split h dquote (dquote :: y) x w E)
      as [[v Hv] | [t' [Hx Ht]]].
    + apply cd_plain. rewrite Hv in Hh. eapply forallb_app_l. exact Hh.
    + destruct t' as [|e t'].
      * rewrite Hx. apply cd_stop; [exact Hh | reflexivity | now right].
      * cbn in Ht. inversion Ht; subst e.
        rewrite Hx. apply cd_pair; [exact Hh|]. eapply IH. eassumption.
Qed.

Lemma tame_prefix (a w : str) : tame (a ++ w) -> tame a.
Proof.
  intros (H1 & H2 & H3). split; [|split].
  - eapply opens_comment_prefix; eauto.
  - eapply existsb_prefix; eauto.
  - eapply forallb_app_l; eauto.
Qed.

Lemma dot_no_newline (s : str) :
  existsb (chr_eqb newline) s = false -> forallb dot s = true.
Proof.
  induction s as [|c s IH]; [reflexivity|]. cbn [existsb forallb]. intros H.
  apply orb_false_iff in H. destruct H as [H1 H2].
  unfold dot at 1. rewrite chr_eqb_sym, H1. cbn [negb andb]. auto.
Qed.

Lemma no_newline_dot (s : str) :
  forallb dot s = true -> existsb (chr_eqb newline) s = false.
Proof.
  induction s as [|c s IH]; [reflexivity|]. cbn [existsb forallb]. intros H.
  apply andb_true_iff in H. destruct H as [H1 H2].
  unfold dot in H1. apply negb_true_iff in H1.
  rewrite chr_eqb_sym, H1. cbn [orb]. auto.
Qed.

Lemma plain_line_tame (raw : str) : plain_line raw -> tame raw.
Proof.
  intros (H1 & H2 & H3). split; [|split];
    [apply find_none_opens, H1 | exact H2 | apply dot_no_newline, H3].
Qed.

(** [_CollapseStrings] on a tame line: it returns, the result is tame,
    and it is the line itself or a line of the collapsed shape. *)
Lemma CollapseStrings_out (s : str) :
  tame s ->
  exists y, _CollapseStrings s = Some y /\ tame y
            /\ ((re_match RE_INCLUDE s <> None /\ y = s)
                \/ (re_match RE_INCLUDE s = None /\ collapsed y)).
Proof.
  intros (H1 & H2 & H3). unfold _CollapseStrings.
  destruct (re_match RE_INCLUDE s) eqn:Ei.
  - exists s. split; [reflexivity|]. split; [now repeat split|].
    left. split; [discriminate | reflexivity].
  - rewrite sub_escapes_identity by exact H2.
    destruct (collapse_loop_out (S (length s)) s [] H3 ltac:(lia))
      as (y & Hy & Hc & Ho & Hx).
    exists y. split; [exact Hy|]. split; [|right; auto].
    split; [auto|]. split.
    + apply Hx; [reflexivity | exact H2].
    + apply dot_no_newline. apply Hx; [reflexivity|].
      apply no_newline_dot, H3.
Qed.

Lemma CollapseStrings_fix (y : str) :
  tame y -> collapsed y -> _CollapseStrings y = Some y.
Proof.
  intros (H1 & H2 & H3) Hc. unfold _CollapseStrings.
  destruct (re_match RE_INCLUDE y); [reflexivity|].
  rewrite sub_escapes_identity by exact H2.
  apply (collapse_loop_fix y Hc H3 (S (length y)) []). lia.
Qed.

(** One line: the views of a tame line are fixed points of the cleanser. *)
Lemma cleanse_line_idem (raw : str) :
  tame raw ->
  exists l e,
    cleanse_line raw = Some (l, e)
    /\ cleanse_line l = Some (l, e)
    /\ cleanse_line e = Some (e, e).
Proof.
  intros Ht. pose proof Ht as (Ho & _ & _).
  set (l := CleanseComments raw).
  assert (Hl : CleanseComments l = l) by (apply CleanseComments_idem, Ho).
  assert (Htl : tame l).
  { unfold l. rewrite CleanseComments_plain by exact Ho.
    destruct (strip_line_comment_prefix raw) as [w Hw].
    apply (tame_prefix _ w). now rewrite <- Hw. }
  destruct (CollapseStrings_out l Htl) as (y & Hy & Hty & Hcase).
  pose proof Hty as (Hoy & _ & _).
  set (e := CleanseComments y).
  assert (He : CleanseComments e = e) by (apply CleanseComments_idem, Hoy).
  assert (Hpe : exists w, y = e ++ w).
  { unfold e. rewrite CleanseComments_plain by exact Hoy.
    apply strip_line_comment_prefix. }
  destruct Hpe as [w Hw].
  assert (Hte : tame e) by (apply (tame_prefix _ w); now rewrite <- Hw).
  assert (Hce : _CollapseStrings e = Some e).
  { destruct Hcase as [[Hi ->] | [Hi Hc]].
    - assert (El : e = l) by (unfold e; exact Hl).
      rewrite El. exact Hy.
    - apply CollapseStrings_fix; [exact Hte|].
      apply (collapsed_prefix y Hc e w Hw). }
  exists l, e. unfold cleanse_line.
  fold l. rewrite Hl, Hy. fold e. rewrite He, Hce, He. auto.
Qed.

Lemma cleanse_lines_idem (raws : list str) :
  Forall tame raws ->
  exists ls es,
    cleanse_lines raws = Some (ls, es)
    /\ cleanse_lines ls = Some (ls, es)
    /\ cleanse_lines es = Some (es, es).
Proof.
  induction 1 as [|raw raws Hr _ (ls & es & H1 & H2 & H3)].
  - exists [], []. auto.
  - destruct (cleanse_line_idem raw Hr) as (l & e & G1 & G2 & G3).
    exists (l :: ls), (e :: es). cbn [cleanse_lines].
    rewrite G1, G2, G3, H1, H2, H3. auto.
Qed.

(** C9, as amended.  On lines that hold no block comment opener, no
    backslash and no newline character, cleansing twice equals cleansing
    once: the [lines] view cleanses to the same [lines] and [elided]
    views, and the [elided] view cleanses to itself. *)
Theorem cleansing_idempotent_on_plain_lines (raws : list str) :
  Forall plain_line raws -> cleansing_idempotent raws.
Proof.
  intros H.
  assert (Ht : Forall tame raws).
  { eapply Forall_impl; [|exact H]. apply plain_line_tame. }
  destruct (cleanse_lines_idem raws Ht) as (ls & es & H1 & H2 & H3).
  unfold cleansing_idempotent, CleansedLines_init. rewrite H1.
  eexists. split; [reflexivity|]. cbn [lines elided].
  rewrite H2, H3. split; eexists; (split; [reflexivity|]); cbn; auto.
Qed.

Lemma cleansing_idempotent_on_plain_lines_witness :
  let raws := [marker_front; quoted_dash_line; lit "y <= '1'; -- set";
               marker_back] in
  Forall plain_line raws /\ cleansing_idempotent raws.
Proof.
  intros raws.
  assert (H : Forall plain_line raws).
  { repeat constructor; reflexivity. }
  split; [exact H|].
  exact (cleansing_idempotent_on_plain_lines raws H).
Defined.

(** C9, as stated, fails: removing the block comment between two dashes
    leaves a double dash in the [lines] view, which a second cleansing
    takes for a comment and cuts. *)
Lemma cleansing_idempotent_counterexample :
  ~ (forall raws : list str, cleansing_idempotent raws).
Proof.
  intros H.
  destruct (H [dashes_around_comment]) as (c & Hc & (c1 & Hc1 & Hl & _) & _).
  vm_compute in Hc. inversion Hc; subst c. clear Hc.
  vm_compute in Hc1. inversion Hc1; subst c1. clear Hc1.
  cbn in Hl. discriminate Hl.
Qed.

(** The views of that line, and of a line whose escapes uncover a new
    escape: neither is a fixed point of the cleanser. *)
Lemma cleansing_changes_twice :
  cleanse_line dashes_around_comment
  = Some (lit "a <= b -- c;", lit "a <= b")
  /\ cleanse_line (lit "a <= b -- c;") = Some (lit "a <= b", lit "a <= b")
  /\ cleanse_line escapes_line
     = Some (escapes_line, backslash :: lit "x41")
  /\ cleanse_line (backslash :: lit "x41")
     = Some (backslash :: lit "x41", []).
Proof. repeat split; vm_compute; reflexivity. Qed.

(** ** The declaration parser *)







(** A type with a range, a constant, and a type written in capitals:
    none draws the diagnostic. *)
Lemma unflagged_declarations :
  (forall line,
      In line ["signal cnt : integer range 0 to 7;";
               "constant C_MAX : integer := 3;";
               "signal cnt : INTEGER;"]%string ->
      exists d, MatchDeclaration (lit "a.vhd") (one_line line) 0 0 true
                  None None = Ret ([], Some d)).
Proof.
  intros line [<- | [<- | [<- | []]]]; eexists; vm_compute; reflexivity.
Qed.
(** ** The process rule: the tables *)

Lemma lookup_store_same {A} (k : str) (v : A) (d : dict A) :
  is_some (lookup k d) = true -> lookup k (store k v d) = Some v.
Proof.
  induction d as [|[k' v'] d IH]; cbn; [discriminate|].
  destruct (str_eqb k k') eqn:E; cbn; rewrite E; [reflexivity | exact IH].
Qed.

Lemma lookup_store_other {A} (k k' : str) (v : A) (d : dict A) :
  k <> k' -> lookup k' (store k v d) = lookup k' d.
Proof.
  intros Hne. induction d as [|[k0 v0] d IH]; cbn.
  - destruct (str_eqb k' k) eqn:E; [|reflexivity].
    apply str_eqb_eq in E. congruence.
  - destruct (str_eqb k k0) eqn:E; cbn; [|now rewrite IH].
    apply str_eqb_eq in E. subst k0.
    destruct (str_eqb k' k) eqn:E'; [|reflexivity].
    apply str_eqb_eq in E'. congruence.
Qed.

Lemma store_keys {A} (k : str) (v : A) (d : dict A) :
  is_some (lookup k d) = true -> map fst (store k v d) = map fst d.
Proof.
  induction d as [|[k' v'] d IH]; cbn; [discriminate|].
  destruct (str_eqb k k') eqn:E; cbn; [reflexivity|].
  intros H. now rewrite IH.
Qed.

Lemma lookup_keys {A B} (k : str) (d : dict A) (d' : dict B) :
  map fst d = map fst d' -> is_some (lookup k d) = is_some (lookup k d').
Proof.
  revert d'. induction d as [|[k1 v1] d IH]; intros [|[k2 v2] d'] H;
    try discriminate; [reflexivity|].
  cbn in H. injection H as -> H. cbn.
  destruct (str_eqb k k2); [reflexivity | now apply IH].
Qed.

Lemma same_keys_refl (st : symbols) : same_keys st st.
Proof. reflexivity. Qed.

Lemma same_keys_trans (a b c : symbols) :
  same_keys a b -> same_keys b c -> same_keys a c.
Proof. unfold same_keys. congruence. Qed.

Lemma same_keys_signal (st st' : symbols) (name : str) :
  same_keys st st' -> IsSignalIdentifier st name = IsSignalIdentifier st' name.
Proof. intros H. unfold IsSignalIdentifier. now apply lookup_keys. Qed.

Lemma add_driver_keys (st : symbols) (w : str) (d : driver) :
  same_keys st (add_driver st w d).
Proof.
  unfold add_driver, same_keys.
  destruct (IsVariableIdentifier st w); [reflexivity|].
  destruct (IsSignalIdentifier st w) eqn:Es.
  - unfold GetSignalIdentifier. unfold IsSignalIdentifier in Es.
    destruct (lookup (lower w) (_signal_identifiers st)) as [i|] eqn:El;
      [|reflexivity].
    cbn. symmetry. apply store_keys. now rewrite El.
  - destruct (IsConstantIdentifier st w); [|reflexivity].
    destruct (GetConstantIdentifier st w); reflexivity.
Qed.

Lemma record_writes_keys (start_line l : Z) (ws : list str) :
  forall st, same_keys st (record_writes start_line l ws st).
Proof.
  unfold record_writes.
  induction ws as [|w ws IH]; intros st; cbn; [reflexivity|].
  eapply same_keys_trans; [|apply IH].
  destruct (IsIdentifierWithType st w);
    [apply add_driver_keys | reflexivity].
Qed.

Lemma FindUsedVariables_keys (st st' : symbols) (line : str) (b : bool) :
  same_keys st st' ->
  FindUsedVariables st line b = FindUsedVariables st' line b.
Proof.
  intros H. unfold FindUsedVariables.
  assert (E : forall l, filter (IsSignalIdentifier st) l
                        = filter (IsSignalIdentifier st') l).
  { intros l. apply filter_ext. intros a. now apply same_keys_signal. }
  destruct (re_match RE_ASSIGNMENT line); now rewrite !E.
Qed.

Lemma update_scope_kind (k k' : str)
  (f : IdentifierWithType -> IdentifierWithType)
  (scopes : list (dict LocalIdentifier)) :
  option_map is_constant (first_scope k (update_scope k' f scopes))
  = option_map is_constant (first_scope k scopes).
Proof.
  induction scopes as [|scope rest IH]; [reflexivity|].
  cbn. destruct (lookup k' scope) as [v|] eqn:E.
  - cbn. destruct (str_dec k' k) as [->|Hne].
    + rewrite lookup_store_same by now rewrite E. rewrite E. reflexivity.
    + rewrite lookup_store_other by exact Hne. reflexivity.
  - cbn. destruct (lookup k scope); [reflexivity | exact IH].
Qed.

Lemma same_locals_refl (st : symbols) : same_locals st st.
Proof. intros k. reflexivity. Qed.

Lemma same_locals_trans (a b c : symbols) :
  same_locals a b -> same_locals b c -> same_locals a c.
Proof. intros H1 H2 k. now rewrite H1. Qed.


Lemma add_driver_locals (st : symbols) (w : str) (d : driver) :
  same_locals st (add_driver st w d).
Proof.
  unfold add_driver.
  destruct (IsVariableIdentifier st w).
  - intros k. cbn. symmetry. apply update_scope_kind.
  - destruct (IsSignalIdentifier st w).
    + destruct (GetSignalIdentifier st w); intros k; reflexivity.
    + destruct (IsConstantIdentifier st w); [|apply same_locals_refl].
      destruct (GetConstantIdentifier st w); intros k; reflexivity.
Qed.





Lemma record_writes_locals (start_line l : Z) (ws : list str) :
  forall st, same_locals st (record_writes start_line l ws st).
Proof.
  unfold record_writes.
  induction ws as [|w ws IH]; intros st; cbn; [apply same_locals_refl|].
  eapply same_locals_trans; [|apply IH].
  destruct (IsIdentifierWithType st w);
    [apply add_driver_locals | apply same_locals_refl].
Qed.
(** ** The process rule: the scans *)

Lemma add_locals_signals (line_num : Z) (line : str) (names : list str)
  (stype : str) (init : option str) (constant : bool) :
  forall st st',
    add_locals st line_num line names stype init constant = Ret st' ->
    _signal_identifiers st' = _signal_identifiers st.
Proof.
  induction names as [|name rest IH]; intros st st' H; cbn in H.
  - now inversion H.
  - unfold AddLocalIdentifier in H.
    destruct (_local_identifiers st) eqn:E; [discriminate|].
    apply IH in H. exact H.
Qed.

Lemma CheckVariables_signals filename clean_lines line_num check st st' names :
  CheckVariables filename clean_lines line_num check st = Ret (st', names) ->
  _signal_identifiers st' = _signal_identifiers st.
Proof.
  unfold CheckVariables.
  destruct (MatchDeclaration _ _ _ _ _ _ _) as [[r [d|]]|e];
    try discriminate.
  - destruct (add_locals _ _ _ _ _ _ _) as [st1|e] eqn:E; [|discriminate].
    intros H. inversion H; subst. eapply add_locals_signals; eassumption.
  - intros H. now inversion H.
Qed.

Lemma CheckLocalConstants_signals filename clean_lines line_num st st' :
  CheckLocalConstants filename clean_lines line_num st = Ret st' ->
  _signal_identifiers st' = _signal_identifiers st.
Proof.
  unfold CheckLocalConstants.
  destruct (MatchDeclaration _ _ _ _ _ _ _) as [[r [d|]]|e];
    try discriminate.
  - apply add_locals_signals.
  - intros H. now inversion H.
Qed.

(** The lines before [begin] leave the signals alone, stop between the
    first line and the line after the last, and report variables only. *)
Lemma header_scan_spec filename clean_lines sim_process (n : nat) :
  forall l st reports body_line st1 reports1,
    header_scan filename clean_lines sim_process n l st reports
    = Returns (body_line, st1, reports1) ->
    _signal_identifiers st1 = _signal_identifiers st
    /\ l <= body_line <= l + Z.of_nat n
    /\ exists more,
         reports1 = reports ++ more
         /\ Forall (fun d => d_category d = lit "runtime/variables") more.
Proof.
  induction n as [|n IH]; intros l st reports body_line st1 reports1 H.
  - cbn in H. inversion H; subst. split; [reflexivity|].
    split; [lia|]. exists []. split; [now rewrite app_nil_r | constructor].
  - cbn [header_scan] in H.
    destruct (CheckFunctions_found clean_lines l); [discriminate|].
    destruct (CheckProcedures_found clean_lines l); [discriminate|].
    destruct (CheckVariables _ _ _ _ _) as [[st2 names]|e] eqn:Ev;
      [|discriminate].
    cbn [of_result bind] in H.
    destruct (CheckLocalConstants _ _ _ _) as [st3|e] eqn:Ec; [|discriminate].
    cbn [of_result bind] in H.
    apply CheckVariables_signals in Ev.
    apply CheckLocalConstants_signals in Ec.
    set (own := match names with
                | Some (first :: _) => _
                | _ => []
                end) in H.
    assert (Hown : Forall (fun d => d_category d = lit "runtime/variables") own).
    { subst own. destruct names as [[|first rest]|]; try constructor.
      destruct (negb sim_process); repeat constructor. }
    destruct (matched RE_BEGIN _).
    + inversion H; subst. split; [congruence|]. split; [lia|].
      exists own. now split.
    + apply IH in H. destruct H as (Hs & Hl & more & -> & Hm).
      split; [congruence|]. split; [lia|].
      exists (own ++ more). split; [now rewrite app_assoc|].
      apply Forall_app. now split.
Qed.

Section ProcessFacts.

Context {so : SetOrder}.

Lemma set_order_In (l : list str) (x : str) : In x (set_order l) <-> In x l.
Proof.
  split; intros H.
  - apply (Permutation_in _ (set_order_perm l)) in H.
    now apply nodup_In in H.
  - apply (Permutation_in _ (Permutation_sym (set_order_perm l))).
    now apply nodup_In.
Qed.


Lemma line_step_eq filename clean_lines start_line sensitivity_list
  sim_process sequential contains_all l sc :
  let pline := line_of (lines clean_lines) l in
  let write_vars := set_order (writes_of (sc_symbols sc) pline) in
  let read_vars := set_order (reads_of (sc_symbols sc) pline) in
  let st := record_writes start_line l write_vars (sc_symbols sc) in
  line_step filename clean_lines start_line sensitivity_list sim_process
    sequential contains_all l sc
  = {| sc_symbols := st;
       process_drivers :=
         fold_left (fun s w => str_set_add (lower w) s) write_vars
           (process_drivers sc);
       process_inputs :=
         fold_left (fun s r => str_set_add (lower r) s) read_vars
           (process_inputs sc);
       sc_reports :=
         sc_reports sc
         ++ event_reports filename sim_process l pline
         ++ multiple_drivers_reports filename l pline st write_vars
         ++ (if negb sim_process && negb sequential
             then sensitivity_reports filename l pline sensitivity_list
                    contains_all read_vars
             else []) |}.
Proof.
  unfold line_step, writes_of, reads_of.
  destruct (FindUsedVariables _ _ _) as [[ws rs] b]. reflexivity.
Qed.





End ProcessFacts.
Lemma set_order_nil (so : SetOrder) : set_order [] = [].
Proof.
  apply Permutation_nil. apply Permutation_sym. exact (set_order_perm []).
Qed.



Lemma Forall_flat_map_each {A B} (P : B -> Prop) (f : A -> list B) (l : list A) :
  (forall x, In x l -> Forall P (f x)) -> Forall P (flat_map f l).
Proof.
  induction l as [|a l IH]; intros H; cbn; [constructor|].
  apply Forall_app. split; [apply H; now left|].
  apply IH. intros x Hx. apply H. now right.
Qed.



(** ** The process rule: evaluation on a given text

    The scans are run line by line; what does not depend on the order of
    iteration is computed, and the iteration orders of the sets are
    replaced by the lists they can be. *)













(** ** The process rule: drivers *)
























(** The same holds of a second process written on one line. *)
Lemma one_line_writer_unreported :
  exists st',
    @CheckProcesses nodup_order (lit "w.vhd")
      (file_of ["p2: process(b) begin y <= b; end process;"]%string) 0
      signals_y_driven
    = Returns ([report (lit "w.vhd")
                  {| Line := 0; Column := 12; EndColumn := 13 |}
                  "runtime/sensitivity" 4
                  (lit "Extra signal 'b' in sensitivity list.")],
               st', Some 0)
    /\ _signal_identifiers st' = _signal_identifiers signals_y_driven.
Proof. eexists. split; vm_compute; reflexivity. Qed.

(** * Further facts *)

(** ** Filters and counts of the module state *)

Lemma split_nonempty (sep : ascii) (s : str) : split sep s <> [].
Proof.
  induction s as [|c s IH]; cbn; [discriminate|].
  destruct (chr_eqb c sep); [discriminate|].
  destruct (split sep s); discriminate.
Qed.

Lemma split_app_sep (sep : ascii) (a b : str) :
  split sep (a ++ sep :: b) = split sep a ++ split sep b.
Proof.
  induction a as [|c a IH]; cbn.
  - now rewrite chr_eqb_refl.
  - destruct (chr_eqb c sep); [now rewrite IH|].
    rewrite IH. pose proof (split_nonempty sep a) as Hn.
    destruct (split sep a) as [|w ws]; [contradiction | reflexivity].
Qed.

Lemma append_clean_app (parts1 parts2 : list str) :
  forall acc,
    append_clean acc (parts1 ++ parts2)
    = append_clean (append_clean acc parts1) parts2.
Proof.
  induction parts1 as [|p parts1 IH]; intros acc; cbn; [reflexivity|].
  destruct (strip p); apply IH.
Qed.

Lemma append_clean_spec (parts : list str) :
  forall acc,
    append_clean acc parts
    = acc ++ filter (fun f => negb (str_eqb f [])) (map strip parts).
Proof.
  induction parts as [|p parts IH]; intros acc; cbn.
  - now rewrite app_nil_r.
  - destruct (strip p) as [|c f] eqn:E; cbn; rewrite IH; [reflexivity|].
    now rewrite <- app_assoc.
Qed.

(** X1.  Filters given in one comma-separated string or in two successive
    calls come to the same: when the first call does not raise, adding [b]
    after [a] leaves the state, and raises or not, as adding [a,b] at once
    does.  The list installed is the old list followed by the entries of
    the string, stripped, the blank ones left out. *)
Theorem AddFilters_compose (st st1 : _LintState) (a b : str) :
  AddFilters st a = (st1, Ret tt) ->
  AddFilters st1 b = AddFilters st (a ++ lit "," ++ b)
  /\ filters (fst (AddFilters st1 b))
     = filters st
       ++ filter (fun f => negb (str_eqb f []))
            (map strip (split ","%char a ++ split ","%char b)).
Proof.
  unfold AddFilters. intros H.
  destruct (first_unsigned (filters (set_filters st _))) eqn:E in H;
    [discriminate|].
  inversion H; subst st1. clear H E.
  cbn [filters set_filters].
  change (a ++ lit "," ++ b) with (a ++ ","%char :: b).
  rewrite split_app_sep, append_clean_app.
  set (fs := append_clean (append_clean (filters st) (split ","%char a))
               (split ","%char b)).
  assert (Hfs : fs = filters st
                     ++ filter (fun f => negb (str_eqb f []))
                          (map strip (split ","%char a ++ split ","%char b))).
  { subst fs. now rewrite <- append_clean_app, append_clean_spec. }
  split.
  - unfold set_filters. cbn. reflexivity.
  - destruct (first_unsigned fs); cbn [fst filters set_filters]; exact Hfs.
Qed.

Lemma AddFilters_compose_witness :
  let st1 := fst (AddFilters LintState_init (lit "-whitespace")) in
  AddFilters LintState_init (lit "-whitespace") = (st1, Ret tt)
  /\ AddFilters st1 (lit " +whitespace/tab,,")
     = AddFilters LintState_init (lit "-whitespace, +whitespace/tab,,")
  /\ filters (fst (AddFilters st1 (lit " +whitespace/tab,,")))
     = [lit "-build/include_alpha"; lit "-whitespace"; lit "+whitespace/tab"].
Proof.
  intros st1. split; [reflexivity|].
  destruct (AddFilters_compose LintState_init st1 (lit "-whitespace")
              (lit " +whitespace/tab,,") eq_refl) as [H1 H2].
  split; [exact H1 | rewrite H2; reflexivity].
Defined.

Lemma first_unsigned_some (fs : list str) (filt : str) :
  first_unsigned fs = Some filt -> In filt fs /\ signed filt = false.
Proof.
  induction fs as [|f fs IH]; cbn; [discriminate|].
  destruct (signed f) eqn:E; cbn.
  - intros H. destruct (IH H). split; [now right | assumption].
  - intros H. inversion H; subst. split; [now left | exact E].
Qed.

(** X2.  A call of [AddFilters] or [SetFilters] that raises [ValueError]
    has already installed the offending entry: it is in the list, and from
    then on every diagnostic that is neither suppressed by a NOLINT comment
    nor below the verbose level runs into the [assert False] of
    [_ShouldPrintError]. *)
Theorem rejected_filter_stays (st st' : _LintState) (fs filt : str) :
  AddFilters st fs = (st', Exc (ValueError filt))
  \/ SetFilters st fs = (st', Exc (ValueError filt)) ->
  In filt (filters st')
  /\ startswith filt (lit "+") = false
  /\ startswith filt (lit "-") = false
  /\ forall sup d,
       IsErrorSuppressedByNolint sup (d_category d) (Line (d_lineref d))
       = false ->
       verbose_level st' <= d_confidence d ->
       Error sup st' d = Exc AssertionError.
Proof.
  intros H.
  assert (Hf : first_unsigned (filters st') = Some filt).
  { destruct H as [H | H]; [|unfold SetFilters in H]; unfold AddFilters in H;
      destruct (first_unsigned _) eqn:E in H; inversion H; subst;
      exact E. }
  apply first_unsigned_some in Hf. destruct Hf as [Hin Hs].
  unfold signed in Hs. apply orb_false_iff in Hs. destruct Hs as [Hp Hm].
  split; [exact Hin|]. split; [exact Hp|]. split; [exact Hm|].
  intros sup d Hsup Hv. unfold Error. rewrite should_print_spec, Hsup.
  replace (d_confidence d <? verbose_level st') with false
    by (symmetry; apply Z.ltb_ge; exact Hv).
  replace (forallb signed (filters st')) with false; [reflexivity|].
  symmetry. apply not_true_is_false. intros Hall.
  rewrite forallb_forall in Hall. specialize (Hall filt Hin).
  unfold signed in Hall. rewrite Hp, Hm in Hall. discriminate.
Qed.

Lemma rejected_filter_stays_witness :
  let st' := fst (AddFilters LintState_init (lit "-legal,runtime")) in
  AddFilters LintState_init (lit "-legal,runtime")
  = (st', Exc (ValueError (lit "runtime")))
  /\ In (lit "runtime") (filters st')
  /\ Error ResetNolintSuppressions st'
       (report (lit "a.vhd") (OnlyLine 3) "whitespace/tab" 1
          (lit "Tab found; better to use spaces"))
     = Exc AssertionError.
Proof.
  intros st'.
  destruct (rejected_filter_stays LintState_init st' (lit "-legal,runtime")
              (lit "runtime") (or_introl eq_refl)) as (Hin & _ & _ & He).
  split; [reflexivity|]. split; [exact Hin|].
  apply He; [reflexivity | vm_compute; discriminate].
Defined.

Lemma apply_call_backup (st : _LintState) (c : state_call) :
  _filters_backup (apply_call st c) = _filters_backup st.
Proof.
  destruct c as [fs | fs | sup d]; cbn [apply_call].
  - unfold AddFilters. destruct (first_unsigned _); reflexivity.
  - unfold SetFilters, AddFilters. destruct (first_unsigned _); reflexivity.
  - unfold Error. destruct (_ShouldPrintError _ _ _ _ _) as [[|]|e];
      reflexivity.
Qed.

(** X3.  What [BackupFilters] saves, [RestoreFilters] brings back: however
    filters are added or set and whatever diagnostics are reported in
    between, raising or not, the filters after the restore are those at
    the time of the backup. *)
Theorem filters_restored (st : _LintState) (calls : list state_call) :
  filters (RestoreFilters (fold_left apply_call calls (BackupFilters st)))
  = filters st.
Proof.
  unfold RestoreFilters. cbn [filters set_filters].
  assert (H : forall s, _filters_backup (fold_left apply_call calls s)
                        = _filters_backup s).
  { induction calls as [|c calls IH]; intros s; cbn; [reflexivity|].
    now rewrite IH, apply_call_backup. }
  now rewrite H.
Qed.

Lemma counted_bump (d : list (str * Z)) (k : str) :
  fold_right Z.add 0 (map snd (bump d k))
  = fold_right Z.add 0 (map snd d) + 1.
Proof.
  induction d as [|[k' n] d IH]; cbn; [reflexivity|].
  destruct (str_eqb k k'); cbn; lia.
Qed.

Lemma apply_call_counts (st : _LintState) (c : state_call) :
  counting (apply_call st c) = counting st
  /\ error_count (apply_call st c) - Z.of_nat (length (written (apply_call st c)))
     = error_count st - Z.of_nat (length (written st))
  /\ (if counts_by_category st
      then counted (apply_call st c) - error_count (apply_call st c)
           = counted st - error_count st
      else errors_by_category (apply_call st c) = errors_by_category st).
Proof.
  unfold counts_by_category, counted.
  destruct c as [fs | fs | sup d]; cbn [apply_call].
  - unfold AddFilters. destruct (first_unsigned _);
      cbn [fst counting error_count written errors_by_category set_filters];
      (split; [reflexivity|]); (split; [reflexivity|]);
      destruct (str_in (counting st) _); reflexivity.
  - unfold SetFilters, AddFilters. destruct (first_unsigned _);
      cbn [fst counting error_count written errors_by_category set_filters];
      (split; [reflexivity|]); (split; [reflexivity|]);
      destruct (str_in (counting st) _); reflexivity.
  - unfold Error. destruct (_ShouldPrintError _ _ _ _ _) as [[|]|e];
      try (split; [reflexivity|]; split; [reflexivity|];
           destruct (str_in (counting st) _); reflexivity).
    cbn [written write error_count IncrementErrorCount errors_by_category
         counting].
    split; [reflexivity|]. split.
    + rewrite length_app. cbn [length]. lia.
    + destruct (str_in (counting st) _); [|reflexivity].
      rewrite counted_bump. lia.
Qed.

(** X4.  The counters agree with what is written: over any sequence of
    calls, [error_count] grows by the number of diagnostics written; under
    the counting styles [toplevel] and [detailed] the counts by category
    grow by the same number in total, and under any other style they are
    left alone. *)
Theorem counts_follow_written (st : _LintState) (calls : list state_call) :
  let st' := fold_left apply_call calls st in
  error_count st' - error_count st
  = Z.of_nat (length (written st')) - Z.of_nat (length (written st))
  /\ (if counts_by_category st
      then counted st' - counted st = error_count st' - error_count st
      else errors_by_category st' = errors_by_category st).
Proof.
  revert st. induction calls as [|c calls IH]; intros st; cbn zeta.
  - cbn [fold_left]. split; [lia|].
    destruct (counts_by_category st); [lia | reflexivity].
  - cbn [fold_left]. specialize (IH (apply_call st c)). cbn zeta in IH.
    destruct IH as [IH1 IH2].
    destruct (apply_call_counts st c) as (Hc & H1 & H2).
    assert (Hcb : counts_by_category (apply_call st c) = counts_by_category st).
    { unfold counts_by_category. now rewrite Hc. }
    rewrite Hcb in IH2. split; [lia|].
    destruct (counts_by_category st); [lia | congruence].
Qed.

(** ** Drivers *)

Lemma py_set_fold_In (ds : list driver) :
  forall acc p, In p (fold_left set_insert ds acc) -> In p acc \/ In p ds.
Proof.
  induction ds as [|d ds IH]; intros acc p H; cbn in *; [now left|].
  apply IH in H. destruct H as [H | H]; [|right; now right].
  apply insert_In in H. destruct H as [H | ->]; [now left | right; now left].
Qed.

Lemma nodup_constant_length {A} (l : list A) (k : A) :
  NoDup l -> (forall x, In x l -> x = k) -> (length l <= 1)%nat.
Proof.
  intros Hn Hk. destruct l as [|a [|b l]]; cbn; try lia.
  inversion Hn as [|? ? Ha _]; subst. exfalso. apply Ha.
  rewrite (Hk a) by now left. rewrite (Hk b) by (right; now left). now left.
Qed.

(** X5.  A signal is never taken for multiply driven on the strength of
    one source: when all its drivers that are not possible drivers belong
    to one process, or all lie on one line, [HasMultipleDrivers] is false,
    however many they are.  The empty list and the list of one driver are
    cases of this. *)
Theorem one_source_not_multiple (i : IdentifierWithType) (k : Z + Z) :
  (forall d, In d (id_drivers i) ->
             known_key d = Some k \/ is_possible d = true) ->
  HasMultipleDrivers i = false.
Proof.
  intros H. rewrite has_multiple_spec. apply Nat.ltb_ge.
  apply (nodup_constant_length _ k).
  - apply set_keys_nodup. constructor.
  - intros x Hx. apply known_keys_In in Hx. destruct Hx as (d & Hd & Hk).
    apply py_set_fold_In in Hd. destruct Hd as [[] | Hd].
    destruct (H d Hd) as [Hk' | Hp]; [congruence|].
    destruct d; discriminate.
Qed.

Lemma one_source_not_multiple_witness :
  let i := with_drivers [ProcessDriver 40 42; PossibleDriver [] 30;
                         ProcessDriver 40 47; ProcessDriver 40 49] in
  HasMultipleDrivers i = false.
Proof.
  intros i. apply (one_source_not_multiple i (inr 40)).
  intros d Hd. cbn in Hd.
  destruct Hd as [<- | [<- | [<- | [<- | []]]]];
    [left | right | left | left]; reflexivity.
Defined.

(** X6.  Multiple drivers stay multiple: a driver added to an identifier
    that has multiple drivers leaves it with multiple drivers. *)
Theorem multiple_drivers_stay (i : IdentifierWithType) (d : driver) :
  HasMultipleDrivers i = true -> HasMultipleDrivers (AddDriver i d) = true.
Proof.
  rewrite !has_multiple_spec. cbn [id_drivers AddDriver].
  unfold py_set. rewrite fold_left_app. cbn [fold_left].
  intros H. apply Nat.ltb_lt in H. apply Nat.ltb_lt.
  destruct (insert_keys (fold_left set_insert (id_drivers i) []) d)
    as [-> | (k & _ & _ & ->)]; [exact H|].
  rewrite length_app. lia.
Qed.

Lemma multiple_drivers_stay_witness :
  let i := with_drivers [ProcessDriver 40 42; ProcessDriver 50 52] in
  HasMultipleDrivers i = true
  /\ HasMultipleDrivers (AddDriver i (PossibleDriver [] 52)) = true.
Proof.
  intros i. split; [reflexivity|].
  apply (multiple_drivers_stay i (PossibleDriver [] 52)). reflexivity.
Defined.

Lemma no_possible_clear (ds : list driver) :
  forallb (fun d => negb (is_possible d)) ds = true ->
  possible_lines_clear ds = true.
Proof.
  induction ds as [|d ds IH]; cbn; [reflexivity|].
  intros H. apply andb_true_iff in H. destruct H as [Hd H].
  apply negb_true_iff in Hd. rewrite Hd. cbn. now apply IH.
Qed.

Lemma known_keys_perm (ds ds' : list driver) :
  Permutation ds ds' -> Permutation (known_keys ds) (known_keys ds').
Proof.
  induction 1; cbn.
  - constructor.
  - destruct (known_key x); [now constructor | assumption].
  - destruct (known_key x), (known_key y); try reflexivity. apply perm_swap.
  - etransitivity; eassumption.
Qed.

(** X7.  Without possible drivers the order of the drivers does not
    matter: two identifiers whose driver lists hold the same plain and
    process drivers, in any order, agree on [HasMultipleDrivers]. *)
Theorem known_drivers_order_irrelevant (i j : IdentifierWithType) :
  forallb (fun d => negb (is_possible d)) (id_drivers i) = true ->
  Permutation (id_drivers i) (id_drivers j) ->
  HasMultipleDrivers i = HasMultipleDrivers j.
Proof.
  intros Hi Hp.
  assert (Hj : forallb (fun d => negb (is_possible d)) (id_drivers j) = true).
  { apply forallb_forall. intros d Hd. rewrite forallb_forall in Hi.
    apply Hi. eapply Permutation_in; [apply Permutation_sym, Hp | exact Hd]. }
  rewrite !has_multiple_spec.
  rewrite !distinct_known_of_set by now apply no_possible_clear.
  unfold distinct_known. f_equal. apply Permutation_length.
  apply NoDup_Permutation; try apply NoDup_nodup.
  intros k. rewrite !nodup_In. apply known_keys_perm in Hp.
  split; intros H;
    [exact (Permutation_in _ Hp H)
    | exact (Permutation_in _ (Permutation_sym Hp) H)].
Qed.

Lemma known_drivers_order_irrelevant_witness :
  let i := with_drivers [Driver [] 3; ProcessDriver 40 42] in
  let j := with_drivers [ProcessDriver 40 42; Driver [] 3] in
  HasMultipleDrivers i = HasMultipleDrivers j.
Proof.
  intros i j. apply (known_drivers_order_irrelevant i j).
  - reflexivity.
  - apply perm_swap.
Defined.

(** ** Line references *)

Lemma rmatch_Lit_some (s : str) : forall k st,
  (forall st', k st' <> None) ->
  startswith (m_rest st) s = true -> rmatch (Lit s) k st <> None.
Proof.
  induction s as [|c s IH]; intros k st Hk H; cbn [Lit rmatch]; [apply Hk|].
  cbn [startswith] in H.
  destruct (m_rest st) as [|d tl] eqn:E; [discriminate|].
  apply andb_true_iff in H. destruct H as [Hc H].
  rewrite chr_eqb_sym, Hc. apply IH; [exact Hk | exact H].
Qed.



(** ** The views of a file *)

Lemma group_or_empty_length (s : str) (st : mstate) (i : nat) :
  (length (group_or_empty s st i) <= length s)%nat.
Proof.
  unfold group_or_empty, group.
  destruct (cap_span i (m_caps st)) as [[a b]|]; [|cbn; lia].
  unfold slice. rewrite length_firstn, length_skipn. lia.
Qed.

Lemma collapse_loop_total : forall fuel elided collapsed,
  (length elided < fuel)%nat ->
  exists out, collapse_loop fuel elided collapsed = Some out.
Proof.
  induction fuel as [|fuel IH]; intros elided collapsed Hf; [lia|].
  cbn [collapse_loop].
  destruct (re_match RE_FIRST_QUOTE elided) as [m|]; [|eauto].
  destruct (str_eqb _ _); [|eauto].
  destruct (Z.leb_spec 0 (find (group_or_empty elided m 3) [dquote]))
    as [Hs | Hs]; [|eauto].
  apply IH. unfold slice_from. rewrite length_skipn.
  pose proof (group_or_empty_length elided m 3) as Hl.
  destruct (group_or_empty elided m 3) as [|c tl]; [cbn in Hs; lia|].
  cbn [length] in *. lia.
Qed.

Lemma CollapseStrings_total (s : str) :
  exists out, _CollapseStrings s = Some out.
Proof.
  unfold _CollapseStrings. destruct (re_match RE_INCLUDE s); [eauto|].
  apply collapse_loop_total. lia.
Qed.

Lemma cleanse_lines_total (raws : list str) :
  exists es, cleanse_lines raws = Some (map CleanseComments raws, es)
             /\ length es = length raws.
Proof.
  induction raws as [|raw raws (es & IH & Hl)]; [exists []; now split|].
  cbn [cleanse_lines map]. unfold cleanse_line.
  destruct (CollapseStrings_total (CleanseComments raw)) as [out ->].
  rewrite IH. eexists; split; [reflexivity|]. cbn [length]. now rewrite Hl.
Qed.

(** X9.  The views of a file are built for every list of raw lines: the
    loop that collapses strings comes to an end on every line.  The view
    without comments holds the cleansed raw lines, and the raw view, the
    view without comments and the view without strings have the same
    length, which is the number of lines. *)
Theorem cleansed_views_exist (raws : list str) :
  exists c,
    CleansedLines_init raws = Some c
    /\ raw_lines c = raws
    /\ lines c = map CleanseComments raws
    /\ length (elided c) = length raws
    /\ NumLines c = Z.of_nat (length raws).
Proof.
  unfold CleansedLines_init.
  destruct (cleanse_lines_total raws) as (es & -> & Hl).
  eexists; split; [reflexivity|]. cbn. repeat split. exact Hl.
Qed.
(** ** Line comments *)

Lemma startswith_existsb (x : ascii) (s p : str) :
  startswith s p = true -> existsb (chr_eqb x) p = true ->
  existsb (chr_eqb x) s = true.
Proof.
  intros H Hp. apply startswith_prefix in H. destruct H as [t ->].
  rewrite existsb_app, Hp. reflexivity.
Qed.

Lemma count_from_absent (x : ascii) (p : str) :
  existsb (chr_eqb x) p = true ->
  forall s skip, existsb (chr_eqb x) s = false -> count_from s p skip = 0.
Proof.
  intros Hp. induction s as [|c s IH]; intros skip Hs; [reflexivity|].
  cbn [count_from]. pose proof Hs as Hs'. cbn [existsb] in Hs'.
  apply orb_false_iff in Hs'. destruct Hs' as [_ Ht].
  destruct skip; [|now apply IH].
  destruct (startswith (c :: s) p) eqn:E; [|now apply IH].
  rewrite (startswith_existsb x _ _ E Hp) in Hs. discriminate.
Qed.

Lemma replace_from_absent (x : ascii) (p q : str) :
  existsb (chr_eqb x) q = false ->
  forall s skip, existsb (chr_eqb x) s = false ->
                 existsb (chr_eqb x) (replace_from s p q skip) = false.
Proof.
  intros Hq. induction s as [|c s IH]; intros skip Hs; [reflexivity|].
  cbn [replace_from]. cbn [existsb] in Hs.
  apply orb_false_iff in Hs. destruct Hs as [Hc Ht].
  destruct skip; [|now apply IH].
  destruct (startswith (c :: s) p).
  - rewrite existsb_app, Hq. now apply IH.
  - cbn [existsb]. rewrite Hc. now apply IH.
Qed.

Lemma IsCppString_no_quote (s : str) :
  existsb (chr_eqb dquote) s = false -> IsCppString s = false.
Proof.
  intros H. unfold IsCppString, count.
  assert (Hr : existsb (chr_eqb dquote) (replace s (lit "--") (lit "XX"))
               = false)
    by (apply replace_from_absent; [reflexivity | exact H]).
  rewrite !(count_from_absent dquote) by (reflexivity || exact Hr).
  reflexivity.
Qed.

(** X10.  On a line without double quote and without the opener of a
    block comment, [CleanseComments] cuts the line at the first double
    dash and drops the white space before it; a line without double dash
    is left as it is.  What is left holds no double dash. *)
Theorem line_comment_cut (line : str) :
  existsb (chr_eqb dquote) line = false ->
  find line (lit "/*") = -1 ->
  CleanseComments line
  = (if find line (lit "--") =? -1 then line
     else rstrip (slice_to line (Z.to_nat (find line (lit "--")))))
  /\ find (CleanseComments line) (lit "--") = -1.
Proof.
  intros Hq Hc. apply find_none_opens in Hc.
  rewrite (CleanseComments_plain line Hc).
  assert (E : strip_line_comment line
              = if find line (lit "--") =? -1 then line
                else rstrip (slice_to line
                               (Z.to_nat (find line (lit "--"))))).
  { unfold strip_line_comment.
    destruct (Z.eqb_spec (find line (lit "--")) (-1)) as [E | E];
      [reflexivity|].
    rewrite IsCppString_no_quote; [reflexivity|].
    destruct (firstn_prefix (Z.to_nat (find line (lit "--"))) line)
      as [w Hw].
    apply (existsb_prefix _ _ w). unfold slice_to. now rewrite <- Hw. }
  split; [exact E|]. rewrite E.
  destruct (Z.eqb_spec (find line (lit "--")) (-1)) as [En | En];
    [exact En|].
  unfold slice_to.
  destruct (rstrip_prefix (firstn (Z.to_nat (find line (lit "--"))) line))
    as [v Hv].
  apply (find_prefix_none _ v). rewrite <- Hv.
  apply find_first; [discriminate | exact En].
Qed.

Lemma line_comment_cut_witness :
  CleanseComments (lit "y <= a;  -- set y") = lit "y <= a;".
Proof.
  exact (proj1 (line_comment_cut (lit "y <= a;  -- set y")
                  eq_refl eq_refl)).
Defined.
(** ** Whole-file checks *)

Lemma split_no_sep (sep : ascii) (s : str) :
  existsb (chr_eqb sep) s = false -> split sep s = [s].
Proof.
  induction s as [|c s IH]; [reflexivity|].
  cbn [existsb split]. intros H. apply orb_false_iff in H.
  destruct H as [Hc Hs]. rewrite chr_eqb_sym, Hc, (IH Hs). reflexivity.
Qed.

Lemma last_sep (sep : ascii) (s : str) :
  existsb (chr_eqb sep) s = false
  \/ exists a b, s = a ++ sep :: b /\ existsb (chr_eqb sep) b = false.
Proof.
  induction s as [|c s [IH | (a & b & -> & Hb)]].
  - now left.
  - cbn [existsb]. destruct (chr_eqb sep c) eqn:E; [|now left].
    apply chr_eqb_eq in E. subst c. right. exists [], s. now split.
  - right. exists (c :: a), b. now split.
Qed.

Lemma last_split (sep : ascii) (s : str) :
  last (split sep s) [] = []
  <-> s = [] \/ exists t, s = t ++ [sep].
Proof.
  destruct (last_sep sep s) as [H | (a & b & -> & Hb)].
  - rewrite (split_no_sep sep s H). cbn [last]. split.
    + intros ->. now left.
    + intros [-> | [t ->]]; [reflexivity|].
      rewrite existsb_app in H. cbn in H. rewrite chr_eqb_refl in H.
      rewrite orb_true_r in H. discriminate.
  - rewrite split_app_sep, (split_no_sep sep b Hb), last_last. split.
    + intros ->. right. now exists a.
    + intros [E | [t E]]; [now destruct a|].
      destruct b as [|x b] using rev_ind; [reflexivity|].
      change (a ++ sep :: b ++ [x]) with (a ++ (sep :: b) ++ [x]) in E.
      rewrite app_assoc in E. apply app_inj_tail in E. destruct E as [_ ->].
      rewrite existsb_app in Hb. cbn in Hb. rewrite chr_eqb_refl in Hb.
      rewrite orb_true_r in Hb. discriminate.
Qed.

(** X11.  For the lines of a text, split at its newline characters and set
    between the two marker lines, [CheckForNewlineAtEOF] is silent exactly
    when the text is empty or ends in a newline character.  Its
    diagnostic is anchored on the last line of the text. *)
Theorem final_newline_rule (filename text : str) :
  let file_lines := split newline text in
  (CheckForNewlineAtEOF filename (pad file_lines) = []
   <-> text = [] \/ exists t, text = t ++ [newline])
  /\ forall d, In d (CheckForNewlineAtEOF filename (pad file_lines)) ->
               Line (d_lineref d) = Z.of_nat (length file_lines)
               /\ Column (d_lineref d) = len (last file_lines []) - 1.
Proof.
  intros file_lines.
  assert (Hne : file_lines <> []) by apply split_nonempty.
  assert (Hn : Z.of_nat (length (pad file_lines)) - 2
               = Z.of_nat (length file_lines)).
  { unfold pad. cbn [length]. rewrite length_app. cbn [length]. lia. }
  unfold CheckForNewlineAtEOF. cbv zeta.
  rewrite (line_of_pad_last file_lines Hne), Hn.
  replace (Z.of_nat (length (pad file_lines)) <? 3) with false
    by (symmetry; apply Z.ltb_ge; destruct file_lines;
        [contradiction | cbn [length] in Hn; lia]).
  cbn [orb]. split.
  - rewrite <- (last_split newline text). fold file_lines.
    destruct (last file_lines []); cbn [negb]; split; intros H;
      try reflexivity; discriminate.
  - intros d Hd. destruct (last file_lines []); [destruct Hd|].
    destruct Hd as [<- | []]. split; reflexivity.
Qed.

Lemma final_newline_rule_witness :
  CheckForNewlineAtEOF (lit "e.vhd")
    (pad (split newline (lit "entity e is" ++ [newline]))) = [].
Proof.
  apply (proj1 (final_newline_rule (lit "e.vhd")
                  (lit "entity e is" ++ [newline]))).
  right. exists (lit "entity e is"). reflexivity.
Defined.


Lemma search_from_literal (name : str) (rest : str) : forall prev pos i,
  0 <= i ->
  match search_from (Lit name) prev rest pos with
  | Some _ => find_from rest name i <> -1
  | None => find_from rest name i = -1
  end.
Proof.
  induction rest as [|c tl IH]; intros prev pos i Hi;
    cbn [search_from find_from].
  - destruct (rmatch _ _ _) eqn:E.
    + apply rmatch_Lit_prefix in E. cbn [m_rest] in E. rewrite E. lia.
    + destruct (startswith [] name) eqn:Es; [|reflexivity].
      exfalso. revert E. apply rmatch_Lit_some; [discriminate | exact Es].
  - destruct (rmatch _ _ _) eqn:E.
    + apply rmatch_Lit_prefix in E. cbn [m_rest] in E. rewrite E. lia.
    + destruct (startswith (c :: tl) name) eqn:Es.
      * exfalso. revert E. apply rmatch_Lit_some; [discriminate | exact Es].
      * apply IH. lia.
Qed.

Lemma found_literal (name line : str) :
  found (Lit name) line = negb (find line name =? -1).
Proof.
  unfold found, re_search, find.
  pose proof (search_from_literal name line None 0%nat 0 (Z.le_refl 0)) as H.
  destruct (search_from _ _ _ _).
  - apply Z.eqb_neq in H. now rewrite H.
  - now rewrite H.
Qed.

(** X12.  [CheckForCopyright] is silent exactly when one of the first 30
    lines of the file holds the word Copyright, written with this
    capitalisation. *)
Theorem copyright_rule (filename : str) (file_lines : list str) :
  CheckForCopyright filename (pad file_lines) = []
  <-> exists line, In line (firstn 30 file_lines)
                   /\ find line (lit "Copyright") <> -1.
Proof.
  unfold CheckForCopyright, pad. cbn [skipn].
  match goal with
  | |- context [existsb ?f _] =>
      assert (Hf : forall line,
                 f line = negb (find line (lit "Copyright") =? -1))
        by (intros line; apply found_literal);
      set (holds := f) in *
  end.
  rewrite firstn_app.
  assert (Hm : existsb holds (firstn (30 - length file_lines) [marker_back])
               = false).
  { destruct (30 - length file_lines)%nat; [reflexivity|].
    cbn [firstn existsb]. rewrite Hf, firstn_nil. reflexivity. }
  rewrite existsb_app, Hm, orb_false_r.
  destruct (existsb holds (firstn 30 file_lines)) eqn:E.
  - split; [intros _ | reflexivity].
    apply existsb_exists in E. destruct E as (line & Hin & Hl).
    exists line. split; [exact Hin|]. rewrite Hf in Hl.
    apply negb_true_iff, Z.eqb_neq in Hl. exact Hl.
  - split; [discriminate|]. intros (line & Hin & Hl). exfalso.
    assert (Ht : existsb holds (firstn 30 file_lines) = true).
    { apply existsb_exists. exists line. split; [exact Hin|].
      rewrite Hf. apply negb_true_iff, Z.eqb_neq. exact Hl. }
    congruence.
Qed.

Lemma copyright_rule_witness :
  CheckForCopyright (lit "e.vhd")
    (pad [lit "-- file e.vhd"; lit "-- Copyright 2020 ACME"]) = [].
Proof.
  apply (proj2 (copyright_rule (lit "e.vhd")
                  [lit "-- file e.vhd"; lit "-- Copyright 2020 ACME"])).
  exists (lit "-- Copyright 2020 ACME"). split; [cbn; auto | discriminate].
Defined.




(** ** The expression matcher *)

Lemma closer_cases (c : ascii) :
  one_of ")]}" c = true -> c = ")"%char \/ c = "]"%char \/ c = "}"%char.
Proof.
  unfold one_of, in_chars. cbn [lit existsb]. intros H.
  repeat (apply orb_true_iff in H; destruct H as [H | H]);
    try discriminate; apply chr_eqb_eq in H; auto.
Qed.

Lemma find_end_in_line_found (line : str) (rest : str) :
  forall before i stack e s,
    find_end_in_line line rest before i stack = (e, s) ->
    e = -1
    \/ (Z.of_nat i < e <= Z.of_nat (i + length rest)
        /\ s = None
        /\ exists c, nth_error rest (Z.to_nat e - 1 - i) = Some c
                     /\ one_of ")]}>" c = true).
Proof.
  induction rest as [|char rest IH]; intros before i stack e s H.
  - cbn in H. inversion H. now left.
  - assert (Hnext : forall stack',
               find_end_in_line line rest (Some char) (S i) stack' = (e, s) ->
               e = -1
               \/ (Z.of_nat i < e <= Z.of_nat (i + length (char :: rest))
                   /\ s = None
                   /\ exists c,
                        nth_error (char :: rest) (Z.to_nat e - 1 - i) = Some c
                        /\ one_of ")]}>" c = true)).
    { intros stack' H'. apply IH in H'.
      destruct H' as [-> | (Hb & -> & c & Hc & Hcl)]; [now left | right].
      cbn [length]. split; [lia|]. split; [reflexivity|]. exists c.
      split; [|exact Hcl].
      replace (Z.to_nat e - 1 - i)%nat with (S (Z.to_nat e - 1 - S i)) by lia.
      exact Hc. }
    assert (Hhere : forall c', char = c' -> one_of ")]}>" c' = true ->
               (Z.of_nat i + 1, @None (list ascii)) = (e, s) ->
               e = -1
               \/ (Z.of_nat i < e <= Z.of_nat (i + length (char :: rest))
                   /\ s = None
                   /\ exists c,
                        nth_error (char :: rest) (Z.to_nat e - 1 - i) = Some c
                        /\ one_of ")]}>" c = true)).
    { intros c' -> Hc' H'. inversion H'; subst. right. cbn [length].
      split; [lia|]. split; [reflexivity|]. exists c'.
      replace (Z.to_nat (Z.of_nat i + 1) - 1 - i)%nat with 0%nat by lia.
      now split. }
    cbn [find_end_in_line] in H.
    destruct (one_of "([{" char); [now apply Hnext in H|].
    destruct (chr_eqb char "<").
    { destruct ((0 <? i)%nat && opt_chr_is before "<").
      - destruct stack as [|top stack']; [now apply Hnext in H|].
        destruct (chr_eqb top "<"); [|now apply Hnext in H].
        destruct stack'; [inversion H; now left | now apply Hnext in H].
      - destruct (_ && _); now apply Hnext in H. }
    destruct (one_of ")]}" char) eqn:Ec.
    { destruct (pop_angles stack) as [|top stack']; [inversion H; now left|].
      destruct (closes top char); [|inversion H; now left].
      destruct stack'; [|now apply Hnext in H].
      apply (Hhere char eq_refl); [|exact H].
      destruct (closer_cases char Ec) as [-> | [-> | ->]]; reflexivity. }
    destruct (chr_eqb char ">") eqn:Eg.
    { destruct (_ && _); [now apply Hnext in H|].
      destruct stack as [|top stack']; [now apply Hnext in H|].
      destruct (chr_eqb top "<"); [|now apply Hnext in H].
      destruct stack'; [|now apply Hnext in H].
      apply chr_eqb_eq in Eg. apply (Hhere char eq_refl); [|exact H].
      subst char. reflexivity. }
    destruct (chr_eqb char ";").
    { destruct (pop_angles stack); [inversion H; now left|].
      now apply Hnext in H. }
    now apply Hnext in H.
Qed.

Lemma FindEndOfExpressionInLine_found (line : str) (startpos : nat)
  (stack : list ascii) (e : Z) (s : option (list ascii)) :
  FindEndOfExpressionInLine line startpos stack = (e, s) ->
  e = -1
  \/ (Z.of_nat startpos < e <= len line
      /\ s = None
      /\ exists c, nth_error line (Z.to_nat e - 1) = Some c
                   /\ one_of ")]}>" c = true).
Proof.
  unfold FindEndOfExpressionInLine. intros H.
  apply find_end_in_line_found in H.
  destruct H as [-> | (Hb & -> & c & Hc & Hcl)]; [now left | right].
  rewrite length_skipn in Hb.
  assert (Hs : (startpos <= length line)%nat) by lia.
  unfold len. split; [lia|]. split; [reflexivity|]. exists c.
  split; [|exact Hcl].
  rewrite <- (firstn_skipn startpos line), nth_error_app2
    by (rewrite length_firstn; lia).
  rewrite length_firstn, Nat.min_l by exact Hs. exact Hc.
Qed.

Lemma close_forward_found (all : list str) (num_lines : Z) :
  forall following line linenum stack l n p,
    0 <= linenum ->
    following = skipn (Z.to_nat (linenum + 1)) all ->
    close_forward following line linenum stack num_lines = (l, n, p) ->
    (p = -1 /\ n = num_lines)
    \/ (l = line_of all n /\ linenum < n < Z.of_nat (length all)
        /\ 0 < p <= len l
        /\ exists c, nth_error l (Z.to_nat p - 1) = Some c
                     /\ one_of ")]}>" c = true).
Proof.
  induction following as [|line' following' IH];
    intros line linenum stack l n p Hl Hf H.
  - destruct stack as [[|x stack]|]; cbn in H; inversion H; now left.
  - destruct stack as [[|x stack]|]; cbn [close_forward] in H;
      try (inversion H; now left).
    assert (Hlen : (Z.to_nat (linenum + 1) < length all)%nat).
    { destruct (Nat.lt_ge_cases (Z.to_nat (linenum + 1)) (length all))
        as [Hlt | Hge]; [exact Hlt|].
      rewrite skipn_all2 in Hf by exact Hge. discriminate. }
    assert (Hline : line' = line_of all (linenum + 1)).
    { unfold line_of.
      rewrite <- (firstn_skipn (Z.to_nat (linenum + 1)) all) at 1.
      rewrite app_nth2 by (rewrite length_firstn; lia).
      rewrite length_firstn, Nat.min_l, Nat.sub_diag, <- Hf by lia.
      reflexivity. }
    assert (Hrest : following' = skipn (Z.to_nat (linenum + 1 + 1)) all).
    { replace (Z.to_nat (linenum + 1 + 1))
        with (1 + Z.to_nat (linenum + 1))%nat by lia.
      rewrite <- skipn_skipn, <- Hf. reflexivity. }
    destruct (FindEndOfExpressionInLine line' 0 (x :: stack))
      as [end_pos stack'] eqn:E.
    destruct (Z.ltb_spec (-1) end_pos) as [Hp | Hp].
    + inversion H; subst l n p. right.
      apply FindEndOfExpressionInLine_found in E.
      destruct E as [-> | (Hb & _ & Hc)]; [lia|].
      split; [exact Hline|]. split; [lia|]. split; [lia | exact Hc].
    + apply IH in H; [|lia | exact Hrest].
      destruct H as [H | (H1 & H2 & H3)]; [now left | right].
      split; [exact H1|]. split; [lia | exact H3].
Qed.

(** X14.  What [CloseExpression] returns, for a line number that is not
    negative: either it gives up, with the position [-1] and the number
    of lines of the file, or it returns a line of the file at or after
    the line it started on, and a position in that line just after a
    closing bracket, which lies after the starting position when the
    line is the same. *)
Theorem CloseExpression_contract (clean_lines : CleansedLines)
  (linenum : Z) (pos : nat) (l : str) (n p : Z) :
  0 <= linenum ->
  CloseExpression clean_lines linenum pos = Ret (l, n, p) ->
  (p = -1 /\ n = NumLines clean_lines)
  \/ (l = line_of (elided clean_lines) n
      /\ linenum <= n
      /\ 0 < p <= len l
      /\ (n = linenum -> Z.of_nat pos < p)
      /\ exists c, nth_error l (Z.to_nat p - 1) = Some c
                   /\ one_of ")]}>" c = true).
Proof.
  intros Hl. unfold CloseExpression.
  destruct (nth_error _ pos) as [c|]; [|discriminate].
  destruct (_ || _); [intros H; inversion H; now left|].
  destruct (FindEndOfExpressionInLine _ pos []) as [end_pos stack] eqn:E.
  destruct (Z.ltb_spec (-1) end_pos) as [Hp | Hp]; intros H; inversion H.
  - subst l n p. right. apply FindEndOfExpressionInLine_found in E.
    destruct E as [-> | (Hb & _ & Hc)]; [lia|].
    split; [reflexivity|]. split; [lia|]. split; [lia|].
    split; [lia | exact Hc].
  - clear H. rename H1 into H.
    apply (close_forward_found (elided clean_lines)) in H;
      [|exact Hl | reflexivity].
    destruct H as [H | (H1 & H2 & H3 & H4)]; [now left | right].
    split; [exact H1|]. split; [lia|]. split; [exact H3|].
    split; [lia | exact H4].
Qed.
Lemma closes_cases (o c : ascii) :
  closes o c = true ->
  (o = "("%char /\ c = ")"%char) \/ (o = "["%char /\ c = "]"%char)
  \/ (o = "{"%char /\ c = "}"%char).
Proof.
  unfold closes. intros H.
  repeat (apply orb_true_iff in H; destruct H as [H | H]);
    apply andb_true_iff in H; destruct H as [Ho Hc];
    apply chr_eqb_eq in Ho, Hc; auto.
Qed.

Lemma balanced_skip (line : str) (body : str) :
  forall rest stk outer before i,
    balanced_from body stk = true -> outer <> [] ->
    exists before',
      find_end_in_line line (body ++ rest) before i (stk ++ outer)
      = find_end_in_line line rest before' (i + length body) outer.
Proof.
  induction body as [|c body IH]; intros rest stk outer before i H Ho.
  - destruct stk; [|discriminate]. exists before.
    cbn [app length]. now rewrite Nat.add_0_r.
  - cbn [balanced_from] in H. cbn [app length find_end_in_line].
    replace (i + S (length body))%nat with (S i + length body)%nat by lia.
    destruct (one_of "([{" c) eqn:E1.
    { apply (IH rest (c :: stk) outer (Some c) (S i) H Ho). }
    destruct (one_of ")]}" c) eqn:E2.
    { destruct stk as [|o stk]; [discriminate|].
      apply andb_true_iff in H. destruct H as [Hc H].
      assert (E3 : chr_eqb c "<" = false)
        by (destruct (closer_cases c E2) as [-> | [-> | ->]]; reflexivity).
      rewrite E3. cbn [app].
      assert (Hp : pop_angles (o :: stk ++ outer) = o :: stk ++ outer)
        by (destruct (closes_cases o c Hc) as [[-> _] | [[-> _] | [-> _]]];
            reflexivity).
      rewrite Hp, Hc.
      destruct (stk ++ outer) as [|x rest'] eqn:Es.
      - apply app_eq_nil in Es. destruct Es as [_ Es]. contradiction.
      - rewrite <- Es. apply (IH rest stk outer (Some c) (S i) H Ho). }
    destruct (one_of "<>;" c) eqn:E4; [discriminate|].
    unfold one_of, in_chars in E4. cbn [lit existsb] in E4.
    repeat (apply orb_false_iff in E4; destruct E4 as [? E4]).
    repeat match goal with
           | Hx : chr_eqb c _ = false |- _ => rewrite Hx; clear Hx
           end.
    apply (IH rest stk outer (Some c) (S i) H Ho).
Qed.

(** X15.  A line on which a bracket is followed by a text with properly
    nested brackets (and no angle bracket or semicolon) and by the
    closing bracket: for the position of the opening bracket,
    [CloseExpression] returns the line, its number and the position just
    after the closing bracket, and [ExtractExpression] returns the text
    between the two brackets when the view without comments agrees with
    the view without strings on that line. *)
Theorem bracketed_expression (clean_lines : CleansedLines) (line_num : Z)
  (a body b : str) (open close : ascii) :
  line_of (elided clean_lines) line_num = a ++ open :: body ++ close :: b ->
  closes open close = true ->
  balanced body = true ->
  let endpos := len a + len body + 2 in
  CloseExpression clean_lines line_num (length a)
  = Ret (a ++ open :: body ++ close :: b, line_num, endpos)
  /\ (line_of (lines clean_lines) line_num
      = line_of (elided clean_lines) line_num ->
      ExtractExpression clean_lines line_num (length a)
      = Ret (body, line_num, endpos)).
Proof.
  intros Hline Hc Hb endpos.
  assert (Ho : one_of "({[<" open = true
               /\ one_of "([{" open = true
               /\ chr_eqb open "<" = false)
    by (destruct (closes_cases open close Hc) as [[-> _] | [[-> _] | [-> _]]];
        repeat split).
  destruct Ho as (Ho1 & Ho2 & Ho3).
  assert (Hcl : one_of "([{" close = false
                /\ chr_eqb close "<" = false
                /\ one_of ")]}" close = true)
    by (destruct (closes_cases open close Hc) as [[_ ->] | [[_ ->] | [_ ->]]];
        repeat split).
  destruct Hcl as (Hc1 & Hc2 & Hc3).
  assert (Hclose : CloseExpression clean_lines line_num (length a)
                   = Ret (a ++ open :: body ++ close :: b, line_num, endpos)).
  { unfold CloseExpression. rewrite Hline.
    rewrite nth_error_app2, Nat.sub_diag by lia. cbn [nth_error].
    rewrite Ho1. cbn [negb orb].
    assert (Hm : matched RE_SHIFT_OR_LE
                   (slice_from (a ++ open :: body ++ close :: b) (length a))
                 = false).
    { unfold slice_from. rewrite skipn_app, Nat.sub_diag, skipn_all.
      cbn [app skipn]. unfold matched, re_match, RE_SHIFT_OR_LE, chr.
      cbn [rmatch init_state m_rest]. rewrite chr_eqb_sym, Ho3. reflexivity. }
    rewrite Hm. unfold FindEndOfExpressionInLine.
    rewrite skipn_app, Nat.sub_diag, skipn_all. cbn [app skipn].
    cbn [find_end_in_line]. rewrite Ho2.
    destruct (balanced_skip (a ++ open :: body ++ close :: b) body
                (close :: b) [] [open] (Some open) (S (length a)) Hb)
      as [before' Hs]; [discriminate|].
    cbn [app] in Hs. rewrite Hs. cbn [find_end_in_line].
    rewrite Hc1, Hc2, Hc3.
    assert (Hp : pop_angles [open] = [open])
      by (cbn [pop_angles]; now rewrite Ho3).
    rewrite Hp, Hc.
    replace (Z.of_nat (S (length a) + length body) + 1) with endpos
      by (subst endpos; unfold len; lia).
    replace (-1 <? endpos) with true
      by (symmetry; apply Z.ltb_lt; subst endpos; unfold len; lia).
    reflexivity. }
  split; [exact Hclose|]. intros Hv.
  unfold ExtractExpression. rewrite Hclose, Z.eqb_refl, Hv, Hline.
  assert (Ht : py_slice (a ++ open :: body ++ close :: b)
                 (Z.of_nat (length a) + 1) (endpos - 1) = body);
    [|now rewrite Ht].
  unfold py_slice, clamp, slice, endpos, len.
  rewrite !length_app. cbn [length]. rewrite !length_app. cbn [length].
  replace (Z.of_nat (length a) + 1 <? 0) with false
    by (symmetry; apply Z.ltb_ge; lia).
  replace (Z.of_nat (length a) + Z.of_nat (length body) + 2 - 1 <? 0)
    with false by (symmetry; apply Z.ltb_ge; lia).
  replace (Z.to_nat (Z.max 0 (Z.min _ (Z.of_nat (length a) + 1))))
    with (length a + 1)%nat by lia.
  replace (Z.to_nat (Z.max 0 (Z.min _ (Z.of_nat (length a)
                                        + Z.of_nat (length body) + 2 - 1))))
    with (length a + 1 + length body)%nat by lia.
  replace (length a + 1 + length body - (length a + 1))%nat
    with (length body) by lia.
  change (a ++ open :: body ++ close :: b)
    with (a ++ [open] ++ body ++ close :: b).
  rewrite app_assoc, skipn_app.
  rewrite skipn_all2 by (rewrite length_app; cbn [length]; lia).
  rewrite length_app. cbn [length app].
  replace (length a + 1 - (length a + 1))%nat with 0%nat by lia.
  cbn [skipn]. rewrite firstn_app, Nat.sub_diag, firstn_all. cbn [firstn].
  apply app_nil_r.
Qed.

Lemma bracketed_expression_witness :
  ExtractExpression (file_of ["p: process(a, b(1))"]%string) 0 10
  = Ret (lit "a, b(1)", 0, 19).
Proof.
  exact (proj2 (bracketed_expression
                  (file_of ["p: process(a, b(1))"]%string) 0
                  (lit "p: process") (lit "a, b(1)") [] "("%char ")"%char
                  eq_refl eq_refl eq_refl)
           eq_refl).
Defined.

Lemma CloseExpression_contract_witness :
  let clean_lines := file_of ["p: process(a, b(1))"]%string in
  let l := lit "p: process(a, b(1))" in
  (19 = -1 /\ 0 = NumLines clean_lines)
  \/ (l = line_of (elided clean_lines) 0
      /\ 0 <= 0
      /\ 0 < 19 <= len l
      /\ (0 = 0 -> Z.of_nat 10 < 19)
      /\ exists c, nth_error l (Z.to_nat 19 - 1) = Some c
                   /\ one_of ")]}>" c = true).
Proof.
  intros clean_lines l.
  apply (CloseExpression_contract clean_lines 0 10 l 0 19);
    [lia | reflexivity].
Defined.
(** ** The process rule: where its diagnostics come from *)

Lemma body_scan_reports (so : SetOrder) filename clean_lines start_line
  end_line sensitivity_list sim_process sequential contains_all (n : nat) :
  forall l0 sc0 completed sc,
    body_scan filename clean_lines start_line end_line sensitivity_list
      sim_process sequential contains_all n l0 sc0 = Returns (completed, sc) ->
    exists more,
      sc_reports sc = sc_reports sc0 ++ more
      /\ Forall (fun d =>
                   exists l st_l,
                     l0 <= l < l0 + Z.of_nat n
                     /\ same_keys (sc_symbols sc0) st_l
                     /\ same_locals (sc_symbols sc0) st_l
                     /\ In d (line_reports filename clean_lines start_line
                                sensitivity_list sim_process sequential
                                contains_all l st_l))
           more.
Proof.
  induction n as [|n IH]; intros l0 sc0 completed sc H; cbn [body_scan] in H.
  - inversion H; subst. exists []. split; [now rewrite app_nil_r|].
    constructor.
  - destruct (check_blocks _ _ _ _) as [[|]|e|]; try discriminate.
    + apply IH in H. destruct H as (more & Hm & Hf).
      rewrite line_step_eq in Hm, Hf. cbv zeta in Hm, Hf.
      cbn [sc_reports sc_symbols] in Hm, Hf.
      eexists. split; [rewrite Hm, <- app_assoc; reflexivity|].
      apply Forall_app. split.
      * apply Forall_forall. intros d Hd. exists l0, (sc_symbols sc0).
        split; [lia|]. split; [apply same_keys_refl|].
        split; [apply same_locals_refl|]. exact Hd.
      * eapply Forall_impl; [|exact Hf].
        intros d (l & st_l & Hl & Hk & Hlo & Hd). exists l, st_l.
        split; [lia|].
        split; [eapply same_keys_trans; [apply record_writes_keys | exact Hk]|].
        split; [eapply same_locals_trans;
                [apply record_writes_locals | exact Hlo]|].
        exact Hd.
    + inversion H; subst. exists []. split; [now rewrite app_nil_r|].
      constructor.
Qed.

(** The diagnostics of a returning call of [CheckProcess], part by
    part. *)
Lemma CheckProcess_parts (so : SetOrder) filename clean_lines start_line
  end_line name sensitivity_list st reports st' :
  CheckProcess filename clean_lines start_line end_line name
    sensitivity_list st = Returns (reports, st') ->
  let all_lines := lines clean_lines in
  let sline := line_of all_lines start_line in
  let contains_all := str_in (lit "all") sensitivity_list in
  let sim_process := (length sensitivity_list =? 0)%nat in
  let sequential := is_sequential clean_lines start_line end_line in
  exists body_line st1 header_reports completed sc clk_name clk_line,
    header_scan filename clean_lines sim_process
      (span start_line (end_line + 1)) start_line (AddLocalScope st) []
    = Returns (body_line, st1, header_reports)
    /\ body_scan filename clean_lines start_line end_line sensitivity_list
         sim_process sequential contains_all
         (span body_line end_line) body_line
         {| sc_symbols := st1; process_drivers := [];
            process_inputs := []; sc_reports := [] |}
       = Returns (completed, sc)
    /\ (if completed then RemoveLocalScope (sc_symbols sc) = Ret st'
        else st' = sc_symbols sc)
    /\ reports
       = (if contains_all
          then [report filename (FromString start_line sline (lit "all") true)
                  "build/vhdl2008/sensitivity" 4
                  (lit "Avoid VHDL2008 construct 'all' in sensitivity list.")]
          else [])
         ++ map (fun d =>
                   report filename (FromStringR start_line sline d)
                     "runtime/sensitivity" 4
                     (lit "Duplicate signal '" ++ d
                      ++ lit "' in sensitivity list."))
              (duplicates sensitivity_list)
         ++ (if negb sim_process && sequential
             then clock_reports filename all_lines start_line
                    sensitivity_list contains_all clk_name clk_line
             else [])
         ++ header_reports ++ sc_reports sc
         ++ (if completed
             then extra_reports filename start_line sline sensitivity_list
                    (process_inputs sc)
                  ++ (if negb sim_process && negb sequential
                      then map (fun i =>
                                  report filename (OnlyLine start_line)
                                    "runtime/combinational_loop" 5
                                    (lit "Possible combinational loop detected on signal '"
                                     ++ i ++ lit "'."))
                             (intersection_order
                                (filter (fun i => str_in i (process_inputs sc))
                                   (process_drivers sc)))
                      else [])
             else []).
Proof.
  unfold CheckProcess, is_sequential.
  destruct (find_clock _ _ _ _) as [[sequential clk_name] clk_line].
  cbn [fst].
  destruct (header_scan _ _ _ _ _ _ _) as [[[body_line st1] hr]|e|] eqn:Eh;
    try discriminate.
  cbn [bind].
  destruct (body_scan _ _ _ _ _ _ _ _ _ _ _) as [[completed sc]|e|] eqn:Eb;
    try discriminate.
  cbn [bind]. intros H.
  exists body_line, st1, hr, completed, sc, clk_name, clk_line.
  split; [reflexivity|]. split; [exact Eb|].
  destruct completed.
  - destruct (RemoveLocalScope _) as [st2|e]; [|discriminate].
    cbn [of_result bind] in H. inversion H; subst reports st'.
    split; [reflexivity|]. rewrite <- !app_assoc. reflexivity.
  - inversion H; subst reports st'. split; [reflexivity|].
    rewrite <- !app_assoc, app_nil_r. reflexivity.
Qed.
Lemma event_reports_kind filename sim_process l pline :
  Forall (fun d => d_category d = lit "runtime/rising_edge")
    (event_reports filename sim_process l pline).
Proof.
  unfold event_reports. destruct (negb sim_process); [|constructor].
  destruct (re_match RE_EVENT pline) as [m|]; [|constructor].
  destruct (cap_span 1 (m_caps m)) as [[a b]|]; repeat constructor.
Qed.
Lemma header_scan_simulation filename clean_lines (n : nat) :
  forall l st reports body_line st1 reports1,
    header_scan filename clean_lines true n l st reports
    = Returns (body_line, st1, reports1) ->
    reports1 = reports.
Proof.
  induction n as [|n IH]; intros l st reports body_line st1 reports1 H.
  - cbn in H. now inversion H.
  - cbn [header_scan] in H.
    destruct (CheckFunctions_found clean_lines l); [discriminate|].
    destruct (CheckProcedures_found clean_lines l); [discriminate|].
    destruct (CheckVariables _ _ _ _ _) as [[st2 names]|e]; [|discriminate].
    cbn [of_result bind] in H.
    destruct (CheckLocalConstants _ _ _ _) as [st3|e]; [|discriminate].
    cbn [of_result bind negb] in H.
    assert (E : reports ++ match names with
                           | Some (_ :: _) => []
                           | _ => []
                           end = reports)
      by (destruct names as [[|? ?]|]; apply app_nil_r).
    rewrite E in H.
    destruct (matched RE_BEGIN _); [now inversion H | now apply IH in H].
Qed.

Lemma multiple_drivers_reports_kind filename l pline st write_vars :
  Forall (fun d => d_category d = lit "runtime/multiple_drivers"
                   /\ d_confidence d = 5 /\ Line (d_lineref d) = l)
    (multiple_drivers_reports filename l pline st write_vars).
Proof.
  unfold multiple_drivers_reports.
  apply (Forall_flat_map_each
           (fun d => d_category d = lit "runtime/multiple_drivers"
                     /\ d_confidence d = 5 /\ Line (d_lineref d) = l)).
  intros w _.
  destruct (IsIdentifierWithType st w); [|constructor].
  destruct (GetIdentifierWithType st w) as [idt|]; [|constructor].
  destruct (HasMultipleDrivers idt); repeat constructor.
Qed.

(** With an empty sensitivity list, the diagnostics are those that the
    scan of the body draws for the names written on its lines. *)
Lemma CheckProcess_simulation (so : SetOrder) filename clean_lines
  start_line end_line name st reports st' :
  CheckProcess filename clean_lines start_line end_line name [] st
  = Returns (reports, st') ->
  Forall (fun d =>
            exists l st_l write_vars,
              start_line <= l < end_line
              /\ In d (multiple_drivers_reports filename l
                         (line_of (lines clean_lines) l) st_l write_vars))
    reports.
Proof.
  intros H. apply CheckProcess_parts in H. cbv zeta in H.
  destruct H as (body_line & st1 & hr & completed & sc & clk_name & clk_line
                 & Hh & Hb & _ & ->).
  change ((length (@nil str) =? 0)%nat) with true in *.
  change (str_in (lit "all") []) with false in *.
  pose proof (header_scan_spec _ _ _ _ _ _ _ _ _ _ Hh) as (_ & Hl & _).
  apply header_scan_simulation in Hh. subst hr.
  apply body_scan_reports in Hb. destruct Hb as (more & -> & Hf).
  cbn [sc_reports negb andb app duplicates fold_left map].
  assert (Ht : (if completed
                then extra_reports filename start_line
                       (line_of (lines clean_lines) start_line) []
                       (process_inputs sc) ++ []
                else []) = @nil Diagnostic) by (now destruct completed).
  rewrite Ht, app_nil_r.
  eapply Forall_impl; [|exact Hf].
  intros d (l & st_l & Hl' & _ & _ & Hd).
  unfold line_reports, event_reports in Hd. cbn [negb andb app] in Hd.
  rewrite app_nil_r in Hd.
  eexists l, _, _. split; [unfold span in Hl'; lia | exact Hd].
Qed.

(** X16.  A process whose sensitivity list is empty is taken for a
    simulation process: the only diagnostics that [CheckProcess] itself
    draws on it are those of multiple drivers, with confidence 5, on
    lines of the process from its first line up to the line before its
    end line. *)
Theorem simulation_process_reports (so : SetOrder) filename clean_lines
  start_line end_line name st reports st' :
  CheckProcess filename clean_lines start_line end_line name [] st
  = Returns (reports, st') ->
  Forall (fun d => d_category d = lit "runtime/multiple_drivers"
                   /\ d_confidence d = 5
                   /\ start_line <= Line (d_lineref d) < end_line)
    reports.
Proof.
  intros H. apply CheckProcess_simulation in H.
  eapply Forall_impl; [|exact H].
  intros d (l & st_l & write_vars & Hl & Hd).
  pose proof (multiple_drivers_reports_kind filename l
                (line_of (lines clean_lines) l) st_l write_vars) as Hk.
  rewrite Forall_forall in Hk. destruct (Hk d Hd) as (Hc & Hn & Hline).
  split; [exact Hc|]. split; [exact Hn|]. lia.
Qed.

Lemma simulation_process_reports_witness :
  exists reports st',
    @CheckProcess nodup_order (lit "p.vhd") two_writers_plain 4 7
      (Some (lit "p2")) [] signals_y_driven = Returns (reports, st')
    /\ reports <> []
    /\ Forall (fun d => d_category d = lit "runtime/multiple_drivers"
                        /\ d_confidence d = 5
                        /\ 4 <= Line (d_lineref d) < 7)
         reports.
Proof.
  eexists. eexists. split; [vm_compute; reflexivity|].
  split; [discriminate|].
  eapply (simulation_process_reports nodup_order (lit "p.vhd")
           two_writers_plain 4 7 (Some (lit "p2")) signals_y_driven).
  vm_compute. reflexivity.
Defined.

(** X17.  Every diagnostic of category [runtime/sensitivity] and
    confidence 5 that [CheckProcess] draws names a signal whose lower-case
    name is not in the sensitivity list, for a list that is not empty and
    does not hold [all].  In a sequential process it is the diagnostic of
    the missing clock; in a combinational one it is that of a missing
    signal, anchored on a line of the process on which that signal is
    read. *)
Theorem sensitivity_reports_sound (so : SetOrder) filename clean_lines
  start_line end_line name sensitivity_list st reports st' d :
  CheckProcess filename clean_lines start_line end_line name
    sensitivity_list st = Returns (reports, st') ->
  In d reports ->
  d_category d = lit "runtime/sensitivity" ->
  d_confidence d = 5 ->
  sensitivity_list <> []
  /\ str_in (lit "all") sensitivity_list = false
  /\ exists r,
       str_in (lower r) sensitivity_list = false
       /\ ((is_sequential clean_lines start_line end_line = true
            /\ d_message d
               = lit "Missing clock '" ++ r ++ lit "' from sensitivity list")
           \/ (is_sequential clean_lines start_line end_line = false
               /\ d_message d = missing_signal_message r
               /\ start_line <= Line (d_lineref d) < end_line
               /\ In r (reads_of st
                          (line_of (lines clean_lines)
                             (Line (d_lineref d)))))).
Proof.
  intros H Hd Hcat Hconf. apply CheckProcess_parts in H. cbv zeta in H.
  destruct H as (body_line & st1 & hr & completed & sc & clk_name & clk_line
                 & Hh & Hb & _ & ->).
  pose proof (header_scan_spec _ _ _ _ _ _ _ _ _ _ Hh)
    as (Hsig & Hl & hr' & Hhr & Hvar).
  cbn [app] in Hhr. subst hr'.
  apply body_scan_reports in Hb. destruct Hb as (more & Hm & Hf).
  cbn [sc_reports app] in Hm. rewrite Hm in Hd. clear Hm.
  repeat (apply in_app_or in Hd; destruct Hd as [Hd | Hd]).
  - destruct (str_in _ _); [|destruct Hd].
    destruct Hd as [<- | []]. discriminate Hcat.
  - apply in_map_iff in Hd. destruct Hd as (x & <- & _). discriminate Hconf.
  - destruct (length sensitivity_list =? 0)%nat eqn:Es; [destruct Hd|].
    destruct (is_sequential clean_lines start_line end_line) eqn:Eq;
      [|destruct Hd].
    cbn [negb andb] in Hd. unfold clock_reports in Hd.
    repeat (apply in_app_or in Hd; destruct Hd as [Hd | Hd]).
    + destruct (negb (str_in (lower clk_name) sensitivity_list)
                && negb (str_in (lit "all") sensitivity_list)) eqn:Ec;
        [|destruct Hd].
      destruct Hd as [<- | []].
      apply andb_true_iff in Ec. destruct Ec as [Ec1 Ec2].
      apply negb_true_iff in Ec1, Ec2.
      split; [now destruct sensitivity_list|]. split; [exact Ec2|].
      exists clk_name. split; [exact Ec1|]. left. now split.
    + destruct (_ && _); [|destruct Hd].
      destruct Hd as [<- | []]. discriminate Hcat.
    + destruct (_ <? _)%nat; [|destruct Hd].
      destruct Hd as [<- | []]. discriminate Hconf.
  - rewrite Forall_forall in Hvar. apply Hvar in Hd.
    rewrite Hd in Hcat. discriminate Hcat.
  - rewrite Forall_forall in Hf.
    destruct (Hf d Hd) as (l & st_l & Hl' & Hk & _ & Hin).
    cbn [sc_symbols] in Hk. unfold line_reports in Hin.
    repeat (apply in_app_or in Hin; destruct Hin as [Hin | Hin]).
    + pose proof (event_reports_kind filename
                    (length sensitivity_list =? 0)%nat l
                    (line_of (lines clean_lines) l)) as He.
      rewrite Forall_forall in He. rewrite (He d Hin) in Hcat.
      discriminate Hcat.
    + match type of Hin with
      | In d (multiple_drivers_reports ?f ?l ?p ?s ?w) =>
          pose proof (multiple_drivers_reports_kind f l p s w) as Hk'
      end.
      rewrite Forall_forall in Hk'. destruct (Hk' d Hin) as (Hc & _).
      rewrite Hc in Hcat. discriminate Hcat.
    + destruct (length sensitivity_list =? 0)%nat eqn:Es; [destruct Hin|].
      destruct (is_sequential clean_lines start_line end_line) eqn:Eq;
        [destruct Hin|].
      cbn [negb andb] in Hin. unfold sensitivity_reports in Hin.
      apply in_flat_map in Hin. destruct Hin as (r & Hr & Hin).
      destruct (negb (str_in (lower r) sensitivity_list)
                && negb (str_in (lit "all") sensitivity_list)) eqn:Ec;
        [|destruct Hin].
      destruct Hin as [<- | []].
      apply andb_true_iff in Ec. destruct Ec as [Ec1 Ec2].
      apply negb_true_iff in Ec1, Ec2.
      split; [now destruct sensitivity_list|]. split; [exact Ec2|].
      exists r. split; [exact Ec1|]. right.
      split; [reflexivity|]. split; [reflexivity|].
      cbn [missing_signal_report report d_lineref FromString LineRef_init
             Line].
      split; [unfold span in Hl'; lia|].
      apply (proj1 (set_order_In _ _)) in Hr. unfold reads_of in *.
      rewrite (FindUsedVariables_keys st st_l); [exact Hr|].
      unfold same_keys in *. rewrite <- Hk, Hsig. reflexivity.
  - destruct completed; [|destruct Hd].
    apply in_app_or in Hd. destruct Hd as [Hd | Hd].
    + unfold extra_reports in Hd. apply in_flat_map in Hd.
      destruct Hd as (item & _ & Hd). destruct (_ && _); [|destruct Hd].
      destruct Hd as [<- | []]. discriminate Hconf.
    + destruct (_ && _); [|destruct Hd].
      apply in_map_iff in Hd. destruct Hd as (x & <- & _).
      discriminate Hcat.
Qed.

Lemma sensitivity_reports_sound_witness :
  let d := missing_signal_report (lit "p.vhd") 2 (lit "  y <= a and b;")
             (lit "b") in
  [lit "a"] <> []
  /\ str_in (lit "all") [lit "a"] = false
  /\ exists r,
       str_in (lower r) [lit "a"] = false
       /\ ((is_sequential scenario_four_lines 0 3 = true
            /\ d_message d
               = lit "Missing clock '" ++ r ++ lit "' from sensitivity list")
           \/ (is_sequential scenario_four_lines 0 3 = false
               /\ d_message d = missing_signal_message r
               /\ 0 <= Line (d_lineref d) < 3
               /\ In r (reads_of signals_a_b_y
                          (line_of (lines scenario_four_lines)
                             (Line (d_lineref d)))))).
Proof.
  intros d.
  eapply (sensitivity_reports_sound nodup_order (lit "p.vhd")
            scenario_four_lines 0 3 (Some (lit "p")) [lit "a"]
            signals_a_b_y _ _ d).
  - vm_compute. reflexivity.
  - left. reflexivity.
  - reflexivity.
  - reflexivity.
Defined.
(** ** The process rule: what it leaves alone *)








(** ** Local scopes *)

Lemma lookup_store_eq {A} (k : str) (v : A) (d : dict A) :
  lookup k (store k v d) = Some v.
Proof.
  induction d as [|[k' v'] d IH]; cbn; [now rewrite str_eqb_refl|].
  destruct (str_eqb k k') eqn:E; cbn; rewrite E; [reflexivity | exact IH].
Qed.

Lemma first_scope_app (k : str) (a b : list (dict LocalIdentifier)) :
  first_scope k (a ++ b)
  = match first_scope k a with
    | Some v => Some v
    | None => first_scope k b
    end.
Proof.
  induction a as [|scope a IH]; [reflexivity|].
  cbn. destruct (lookup k scope); [reflexivity | exact IH].
Qed.

(** X19.  After [AddLocalIdentifier] the name, in any capitalisation,
    stands for the new identifier, unless an enclosing scope declares the
    name already: the scopes are searched from the outermost inwards, and
    the declaration of the enclosing scope is the one found.  Other names
    stand for what they stood for. *)
Theorem local_declaration_lookup (st st' : symbols) (name stype : str)
  (init : option str) (lineref : LineRef) (constant : bool) :
  AddLocalIdentifier st name stype init lineref constant = Ret st' ->
  (forall name',
      lower name' = lower name ->
      match first_scope (lower name) (removelast (_local_identifiers st)) with
      | Some outer =>
          GetVariableIdentifier st' name' = Some (local outer)
          /\ IsVariableIdentifier st' name' = negb (is_constant outer)
      | None =>
          GetVariableIdentifier st' name'
          = Some (new_identifier name stype init lineref)
          /\ IsVariableIdentifier st' name' = negb constant
      end)
  /\ (forall other,
        lower other <> lower name ->
        GetVariableIdentifier st' other = GetVariableIdentifier st other
        /\ IsVariableIdentifier st' other = IsVariableIdentifier st other)
  /\ _signal_identifiers st' = _signal_identifiers st
  /\ _constant_identifiers st' = _constant_identifiers st.
Proof.
  unfold AddLocalIdentifier.
  destruct (_local_identifiers st) as [|s0 rest] eqn:E; [discriminate|].
  remember (s0 :: rest) as scopes eqn:Es.
  assert (Hne : scopes <> []) by (subst scopes; discriminate).
  clear Es. intros H. injection H as <-.
  unfold GetVariableIdentifier, IsVariableIdentifier.
  cbn [with_locals _local_identifiers _signal_identifiers
         _constant_identifiers].
  split; [|split; [|now split]].
  - intros name' ->. rewrite first_scope_app.
    destruct (first_scope (lower name) (removelast scopes)); [now split|].
    cbn [first_scope]. rewrite lookup_store_eq. now split.
  - intros other Hother.
    assert (Hs : first_scope (lower other) (_local_identifiers st)
                 = first_scope (lower other)
                     (removelast scopes ++ [last scopes []])).
    { rewrite E. f_equal. now apply app_removelast_last. }
    rewrite Hs, !first_scope_app.
    destruct (first_scope (lower other) (removelast scopes)); [now split|].
    cbn [first_scope]. rewrite lookup_store_other by congruence. now split.
Qed.

Lemma local_declaration_lookup_witness :
  let outer := {| is_constant := true;
                  local := new_identifier (lit "N") (lit "integer") None
                             (OnlyLine 3) |} in
  let st := {| _signal_identifiers := []; _constant_identifiers := [];
               _local_identifiers := [[(lit "n", outer)]; []] |} in
  exists st',
    AddLocalIdentifier st (lit "n") (lit "std_logic") None (OnlyLine 7) false
    = Ret st'
    /\ GetVariableIdentifier st' (lit "N") = Some (local outer)
    /\ IsVariableIdentifier st' (lit "N") = false.
Proof.
  intros outer st. eexists. split; [reflexivity|].
  exact (proj1 (local_declaration_lookup st _ (lit "n") (lit "std_logic")
                  None (OnlyLine 7) false eq_refl)
           (lit "N") eq_refl).
Defined.

Lemma update_scope_length (k : str)
  (f : IdentifierWithType -> IdentifierWithType)
  (scopes : list (dict LocalIdentifier)) :
  length (update_scope k f scopes) = length scopes.
Proof.
  induction scopes as [|scope rest IH]; [reflexivity|].
  cbn. destruct (lookup k scope); cbn; [reflexivity | now rewrite IH].
Qed.

Lemma add_driver_depth (st : symbols) (w : str) (d : driver) :
  length (_local_identifiers (add_driver st w d))
  = length (_local_identifiers st).
Proof.
  unfold add_driver.
  destruct (IsVariableIdentifier st w); [apply update_scope_length|].
  destruct (IsSignalIdentifier st w).
  - destruct (GetSignalIdentifier st w); reflexivity.
  - destruct (IsConstantIdentifier st w); [|reflexivity].
    destruct (GetConstantIdentifier st w); reflexivity.
Qed.

Lemma record_writes_depth (start_line l : Z) (ws : list str) :
  forall st,
    length (_local_identifiers (record_writes start_line l ws st))
    = length (_local_identifiers st).
Proof.
  unfold record_writes.
  induction ws as [|w ws IH]; intros st; cbn [fold_left]; [reflexivity|].
  rewrite IH. destruct (IsIdentifierWithType st w);
    [apply add_driver_depth | reflexivity].
Qed.

Lemma body_scan_depth (so : SetOrder) filename clean_lines start_line
  end_line sensitivity_list sim_process sequential contains_all (n : nat) :
  forall l0 sc0 completed sc,
    body_scan filename clean_lines start_line end_line sensitivity_list
      sim_process sequential contains_all n l0 sc0 = Returns (completed, sc) ->
    length (_local_identifiers (sc_symbols sc))
    = length (_local_identifiers (sc_symbols sc0))
    /\ (if completed
        then forall l, l0 <= l < l0 + Z.of_nat n ->
                       check_blocks clean_lines end_line sequential l
                       = Returns true
        else exists l, l0 <= l < l0 + Z.of_nat n
                       /\ check_blocks clean_lines end_line sequential l
                          = Returns false).
Proof.
  induction n as [|n IH]; intros l0 sc0 completed sc H; cbn [body_scan] in H.
  - inversion H; subst. split; [reflexivity|]. intros l Hl. lia.
  - destruct (check_blocks _ _ _ l0) as [[|]|e|] eqn:Ec; try discriminate.
    + apply IH in H. destruct H as [Hd Hc].
      rewrite line_step_eq in Hd. cbv zeta in Hd. cbn [sc_symbols] in Hd.
      rewrite record_writes_depth in Hd. split; [exact Hd|].
      destruct completed.
      * intros l Hl. destruct (Z.eq_dec l l0) as [-> | Hne]; [exact Ec|].
        apply Hc. lia.
      * destruct Hc as (l & Hl & Hc). exists l. split; [lia | exact Hc].
    + inversion H; subst. split; [reflexivity|].
      exists l0. split; [lia | exact Ec].
Qed.

Lemma add_locals_depth (line_num : Z) (line : str) (names : list str)
  (stype : str) (init : option str) (constant : bool) :
  forall st st',
    add_locals st line_num line names stype init constant = Ret st' ->
    length (_local_identifiers st') = length (_local_identifiers st).
Proof.
  induction names as [|name rest IH]; intros st st' H; cbn in H.
  - now inversion H.
  - unfold AddLocalIdentifier in H.
    destruct (_local_identifiers st) as [|s0 scopes] eqn:E; [discriminate|].
    remember (s0 :: scopes) as sc eqn:Es.
    assert (Hne : sc <> []) by (subst sc; discriminate).
    clear Es. apply IH in H. rewrite H.
    cbn [with_locals _local_identifiers].
    assert (Hlen : length sc = (length (removelast sc) + 1)%nat)
      by (rewrite (app_removelast_last [] Hne) at 1; now rewrite length_app).
    rewrite length_app, Hlen. reflexivity.
Qed.

Lemma header_scan_depth filename clean_lines sim_process (n : nat) :
  forall l st reports body_line st1 reports1,
    header_scan filename clean_lines sim_process n l st reports
    = Returns (body_line, st1, reports1) ->
    length (_local_identifiers st1) = length (_local_identifiers st).
Proof.
  induction n as [|n IH]; intros l st reports body_line st1 reports1 H.
  - cbn in H. now inversion H.
  - cbn [header_scan] in H.
    destruct (CheckFunctions_found clean_lines l); [discriminate|].
    destruct (CheckProcedures_found clean_lines l); [discriminate|].
    destruct (CheckVariables _ _ _ _ _) as [[st2 names]|e] eqn:Ev;
      [|discriminate].
    cbn [of_result bind] in H.
    destruct (CheckLocalConstants _ _ _ _) as [st3|e] eqn:Ec; [|discriminate].
    cbn [of_result bind] in H.
    assert (E2 : length (_local_identifiers st2)
                 = length (_local_identifiers st)).
    { unfold CheckVariables in Ev.
      destruct (MatchDeclaration _ _ _ _ _ _ _) as [[r [d|]]|e];
        try discriminate.
      - destruct (add_locals _ _ _ _ _ _ _) as [st4|e] eqn:E;
          [|discriminate].
        inversion Ev; subst. eapply add_locals_depth; eassumption.
      - now inversion Ev. }
    assert (E3 : length (_local_identifiers st3)
                 = length (_local_identifiers st2)).
    { unfold CheckLocalConstants in Ec.
      destruct (MatchDeclaration _ _ _ _ _ _ _) as [[r [d|]]|e];
        try discriminate.
      - eapply add_locals_depth; eassumption.
      - now inversion Ec. }
    destruct (matched RE_BEGIN _).
    + inversion H; subst. congruence.
    + apply IH in H. congruence.
Qed.

(** X20.  The stack of local scopes after a returning call of
    [CheckProcess]: it is as deep as before when the scan of the body
    comes to its end, which it does when no line of the process opens a
    case or loop statement whose end is not found; when the call returns
    from within the body, on such a line, the scope that it opened for the
    process is left on the stack. *)
Theorem process_scope_depth (so : SetOrder) filename clean_lines start_line
  end_line name sensitivity_list st reports st' :
  CheckProcess filename clean_lines start_line end_line name
    sensitivity_list st = Returns (reports, st') ->
  let depth := fun s : symbols => length (_local_identifiers s) in
  let unfinished := fun l =>
    check_blocks clean_lines end_line
      (is_sequential clean_lines start_line end_line) l = Returns false in
  (depth st' = depth st \/ depth st' = S (depth st))
  /\ ((forall l, start_line <= l < end_line -> ~ unfinished l) ->
      depth st' = depth st)
  /\ (depth st' = S (depth st) ->
      exists l, start_line <= l < end_line /\ unfinished l).
Proof.
  intros H depth unfinished. apply CheckProcess_parts in H. cbv zeta in H.
  destruct H as (body_line & st1 & hr & completed & sc & clk_name & clk_line
                 & Hh & Hb & Hst & _).
  pose proof (header_scan_spec _ _ _ _ _ _ _ _ _ _ Hh) as (_ & Hl & _).
  apply header_scan_depth in Hh. apply body_scan_depth in Hb.
  cbn [sc_symbols] in Hb. destruct Hb as [Hd Hc].
  assert (Ha : depth (AddLocalScope st) = S (depth st)).
  { unfold depth, AddLocalScope. cbn. rewrite length_app. cbn. lia. }
  fold (depth st1) in Hh. fold (depth (sc_symbols sc)) in Hd.
  destruct completed.
  - assert (E : depth st' = depth st).
    { unfold RemoveLocalScope in Hst.
      destruct (_local_identifiers (sc_symbols sc)) as [|s0 scopes] eqn:E;
        [discriminate|].
      remember (s0 :: scopes) as scs eqn:Es.
      assert (Hne : scs <> []) by (subst scs; discriminate).
      clear Es. injection Hst as <-.
      assert (Hlen : length scs = (length (removelast scs) + 1)%nat)
        by (rewrite (app_removelast_last [] Hne) at 1;
            now rewrite length_app).
      unfold depth in *. cbn [with_locals _local_identifiers].
      rewrite E in Hd. lia. }
    split; [now left|]. split; [intros _; exact E | intros E'; lia].
  - subst st'. destruct Hc as (l & Hl' & Hc).
    split; [right; unfold depth in *; lia|]. split.
    + intros Hno. exfalso. apply (Hno l); [unfold span in Hl'; lia | exact Hc].
    + intros _. exists l. split; [unfold span in Hl'; lia | exact Hc].
Qed.

Lemma process_scope_depth_witness :
  let file := file_of ["p: process(a)"; "begin"; "  case a is";
                       "end process;"]%string in
  exists l, 0 <= l < 3
            /\ check_blocks file 3 (is_sequential file 0 3) l = Returns false.
Proof.
  intros file.
  assert (H : @CheckProcess nodup_order (lit "p.vhd") file 0 3
                (Some (lit "p")) [lit "a"] signals_a_b_y
              = Returns ([], with_locals signals_a_b_y [[]]))
    by (vm_compute; reflexivity).
  exact (proj2 (proj2 (process_scope_depth nodup_order _ _ _ _ _ _ _ _ _ H))
           eq_refl).
Defined.
(** ** Regular expressions: a character that the pattern needs *)

Lemma star_loop_fails (P : str -> Prop) (g : bool)
  (body : (mstate -> option mstate) -> mstate -> option mstate) k :
  (forall k', fails_where P k' -> fails_where P (body k')) ->
  fails_where P k ->
  forall n, fails_where P (star_loop g body k n).
Proof.
  intros Hbody Hk n. induction n as [|n IH]; intros st HP; cbn [star_loop].
  - apply Hk, HP.
  - assert (Hb : body (fun st1 => if (m_pos st <? m_pos st1)%nat
                                  then star_loop g body k n st1
                                  else None) st = None).
    { apply Hbody; [|exact HP]. intros st1 HP1.
      destruct (_ <? _)%nat; [apply IH, HP1 | reflexivity]. }
    destruct g; rewrite Hb, (Hk st HP); reflexivity.
Qed.

(** Where the rest of a pattern fails on every text of some kind, closed
    under taking tails, the whole pattern fails on such a text. *)
Lemma rmatch_fails (P : str -> Prop) (r : regex) :
  tail_closed P ->
  forall k, fails_where P k -> fails_where P (rmatch r k).
Proof.
  intros Hc. induction r as [|p|a IHa b IHb|a IHa b IHb|g a IHa|i a IHa
                            | | | |positive a IHa];
    intros k Hk.
  - exact Hk.
  - now apply cls_fails.
  - change (fails_where P (rmatch a (rmatch b k))). apply IHa, IHb, Hk.
  - apply alt_fails; [apply IHa | apply IHb]; exact Hk.
  - intros st HP.
    exact (star_loop_fails P g (rmatch a) k IHa Hk
             (S (length (m_rest st))) st HP).
  - intros st HP.
    change (rmatch a (fun st1 => k (set_group i (m_pos st) st1)) st = None).
    apply IHa; [|exact HP]. intros st1 HP1. apply Hk. exact HP1.
  - intros st HP. cbn [rmatch]. destruct (_ =? _)%nat;
      [apply Hk, HP | reflexivity].
  - intros st HP. cbn [rmatch]. destruct (at_eol st);
      [apply Hk, HP | reflexivity].
  - intros st HP. cbn [rmatch]. destruct (xorb _ _);
      [apply Hk, HP | reflexivity].
  - intros st HP. cbn [rmatch].
    destruct (rmatch a _ st); destruct positive;
      try reflexivity; apply Hk, HP.
Qed.

(** A pattern that asks for the character [x] fails on a text without
    it. *)
Lemma chr_fails (x : ascii) k :
  fails_where (fun s => existsb (chr_eqb x) s = false)
    (rmatch (Cls (chr_eqb x)) k).
Proof.
  intros st HP. cbn [rmatch]. destruct (m_rest st) as [|c tl]; [reflexivity|].
  cbn [existsb] in HP. apply orb_false_iff in HP. destruct HP as [HP _].
  now rewrite HP.
Qed.

Lemma existsb_skipn (x : ascii) (n : nat) (s : str) :
  existsb (chr_eqb x) s = false -> existsb (chr_eqb x) (skipn n s) = false.
Proof.
  intros H. rewrite <- (firstn_skipn n s), existsb_app in H.
  apply orb_false_iff in H. apply H.
Qed.

Lemma existsb_firstn (x : ascii) (n : nat) (s : str) :
  existsb (chr_eqb x) s = false -> existsb (chr_eqb x) (firstn n s) = false.
Proof.
  intros H. rewrite <- (firstn_skipn n s), existsb_app in H.
  apply orb_false_iff in H. apply H.
Qed.

(** ** Lines that are no declaration and no assignment *)

Ltac skip_part P Hc :=
  match goal with
  | |- fails_where P (rmatch (Seq ?a ?b) ?k) =>
      change (fails_where P (rmatch a (rmatch b k)));
      refine (rmatch_fails P a Hc _ _)
  end.

Ltac reach_part P :=
  match goal with
  | |- fails_where P (rmatch (Seq ?a ?b) ?k) =>
      change (fails_where P (rmatch a (rmatch b k)))
  end.

Lemma declaration_needs_colon (line : str) :
  existsb (chr_eqb ":"%char) line = false ->
  re_match RE_DECLARATION line = None.
Proof.
  set (P := fun s => existsb (chr_eqb ":"%char) s = false).
  assert (Hc : tail_closed P) by apply no_chr_tail.
  intros H.
  enough (Hf : fails_where P (rmatch RE_DECLARATION (fun st => Some st)))
    by exact (Hf (init_state line) H).
  unfold RE_DECLARATION. cbn [Seqs].
  do 5 skip_part P Hc. reach_part P. apply chr_fails.
Qed.

(** X21.  A line without colon is no declaration: [MatchDeclaration]
    reports nothing and finds nothing on it, whatever the positions and
    the kind asked for, and so [CheckVariables] and [CheckLocalConstants]
    leave the tables as they are. *)
Theorem no_colon_no_declaration filename (clean_lines : CleansedLines)
  (line_num : Z) :
  existsb (chr_eqb ":"%char) (line_of (lines clean_lines) line_num) = false ->
  (forall pos check_int_range req_decl_type endpos,
      MatchDeclaration filename clean_lines line_num pos check_int_range
        req_decl_type endpos = Ret ([], None))
  /\ (forall check_int_range st,
        CheckVariables filename clean_lines line_num check_int_range st
        = Ret (st, None))
  /\ (forall st,
        CheckLocalConstants filename clean_lines line_num st = Ret st).
Proof.
  intros H.
  assert (Hm : forall pos check_int_range req_decl_type endpos,
             MatchDeclaration filename clean_lines line_num pos
               check_int_range req_decl_type endpos = Ret ([], None)).
  { intros pos check_int_range req_decl_type endpos. unfold MatchDeclaration.
    rewrite declaration_needs_colon; [reflexivity|].
    unfold slice_from. apply existsb_skipn.
    destruct endpos as [e|]; [|exact H].
    unfold py_slice, slice. now apply existsb_firstn, existsb_skipn. }
  split; [exact Hm|]. split.
  - intros check_int_range st. unfold CheckVariables. now rewrite Hm.
  - intros st. unfold CheckLocalConstants. now rewrite Hm.
Qed.

Lemma no_colon_no_declaration_witness :
  CheckVariables (lit "a.vhd") (one_line "  y <= a and b;") 0 true
    signals_a_b_y
  = Ret (signals_a_b_y, None).
Proof.
  exact (proj1 (proj2 (no_colon_no_declaration (lit "a.vhd")
                         (one_line "  y <= a and b;") 0 eq_refl))
           true signals_a_b_y).
Defined.

Lemma assignment_needs_semicolon (line : str) :
  existsb (chr_eqb ";"%char) line = false ->
  re_match RE_ASSIGNMENT line = None.
Proof.
  set (P := fun s => existsb (chr_eqb ";"%char) s = false).
  assert (Hc : tail_closed P) by apply no_chr_tail.
  intros H.
  enough (Hf : fails_where P (rmatch RE_ASSIGNMENT (fun st => Some st)))
    by exact (Hf (init_state line) H).
  unfold RE_ASSIGNMENT. cbn [Seqs].
  do 6 skip_part P Hc. apply chr_fails.
Qed.

Lemma assignment_needs_equals (line : str) :
  existsb (chr_eqb "="%char) line = false ->
  re_match RE_ASSIGNMENT line = None.
Proof.
  set (P := fun s => existsb (chr_eqb "="%char) s = false).
  assert (Hc : tail_closed P) by apply no_chr_tail.
  intros H.
  enough (Hf : fails_where P (rmatch RE_ASSIGNMENT (fun st => Some st)))
    by exact (Hf (init_state line) H).
  unfold RE_ASSIGNMENT. cbn [Seqs].
  do 4 skip_part P Hc. reach_part P. apply chr_fails.
Qed.

(** X22.  A line without semicolon, or without equals sign, is not taken
    for an assignment: [FindUsedVariables] finds no name written on it,
    and every word of the line that is a signal counts as read.  The scan
    of a process body records no driver on such a line. *)
Theorem no_semicolon_no_assignment (st : symbols) (line : str) :
  existsb (chr_eqb ";"%char) line = false
  \/ existsb (chr_eqb "="%char) line = false ->
  (forall direct_lhs_name,
      FindUsedVariables st line direct_lhs_name
      = ([], filter (IsSignalIdentifier st) (findall RE_WORDS line), false))
  /\ forall (so : SetOrder) filename clean_lines start_line sensitivity_list
            sim_process sequential contains_all l sc,
       sc_symbols sc = st -> line_of (lines clean_lines) l = line ->
       let sc' := line_step filename clean_lines start_line sensitivity_list
                    sim_process sequential contains_all l sc in
       sc_symbols sc' = st /\ process_drivers sc' = process_drivers sc.
Proof.
  intros H.
  assert (Hm : re_match RE_ASSIGNMENT line = None)
    by (destruct H; [now apply assignment_needs_semicolon
                    | now apply assignment_needs_equals]).
  assert (Hf : forall b,
             FindUsedVariables st line b
             = ([], filter (IsSignalIdentifier st) (findall RE_WORDS line),
                false))
    by (intros b; unfold FindUsedVariables; now rewrite Hm).
  split; [exact Hf|].
  intros so filename clean_lines start_line sensitivity_list sim_process
    sequential contains_all l sc Hs Hl sc'.
  subst sc'. rewrite line_step_eq. cbv zeta. cbn [sc_symbols process_drivers].
  unfold writes_of. rewrite Hl, Hs, Hf. cbn [fst].
  rewrite set_order_nil. now split.
Qed.

Lemma no_semicolon_no_assignment_witness :
  FindUsedVariables signals_a_b_y (lit "  y <=") false
  = ([], [lit "y"], false).
Proof.
  exact (proj1 (no_semicolon_no_assignment signals_a_b_y (lit "  y <=")
                  (or_introl eq_refl))
           false).
Defined.
(** ** Comments over several lines *)

Lemma next_line_spec (p : str -> bool) (total : nat) (rest : list str) :
  forall i,
    (i + length rest = total)%nat ->
    (next_line p rest i total = total
     /\ forall k, (k < length rest)%nat -> p (nth k rest []) = false)
    \/ (exists k,
          next_line p rest i total = (i + k)%nat
          /\ (k < length rest)%nat
          /\ p (nth k rest []) = true
          /\ forall j, (j < k)%nat -> p (nth j rest []) = false).
Proof.
  induction rest as [|line rest IH]; intros i Hi; cbn [next_line].
  - left. split; [reflexivity|]. cbn. intros k Hk. lia.
  - destruct (p line) eqn:Ep.
    + right. exists 0%nat. rewrite Nat.add_0_r. cbn [length nth].
      split; [reflexivity|]. split; [lia|]. split; [exact Ep|].
      intros j Hj. lia.
    + cbn [length] in Hi.
      destruct (IH (S i) ltac:(lia)) as [[Hn Ha] | (k & Hn & Hk & Hp & Hm)].
      * left. split; [exact Hn|]. intros [|k] Hk; [exact Ep|].
        cbn [nth]. apply Ha. cbn [length] in Hk. lia.
      * right. exists (S k). split; [rewrite Hn; lia|].
        cbn [length nth]. split; [lia|]. split; [exact Hp|].
        intros [|j] Hj; [exact Ep|]. apply Hm. lia.
Qed.

Lemma nth_skipn_add {A} (i k : nat) (l : list A) (d : A) :
  nth k (skipn i l) d = nth (i + k) l d.
Proof.
  revert l. induction i as [|i IH]; intros l; [reflexivity|].
  destruct l as [|x l]; [now destruct k|]. cbn. apply IH.
Qed.

(** The next line from [lineix] on that meets the test: its index, the
    first one, or the number of lines when no line does. *)
Lemma next_line_lines (p : str -> bool) (lines : list str) (lineix : nat) :
  (lineix <= length lines)%nat ->
  let r := next_line p (skipn lineix lines) lineix (length lines) in
  (r = length lines
   /\ forall j, (lineix <= j < length lines)%nat ->
                p (nth j lines []) = false)
  \/ ((lineix <= r < length lines)%nat
      /\ p (nth r lines []) = true
      /\ forall j, (lineix <= j < r)%nat -> p (nth j lines []) = false).
Proof.
  intros Hl r.
  assert (Hs : (lineix + length (skipn lineix lines) = length lines)%nat)
    by (rewrite length_skipn; lia).
  destruct (next_line_spec p (length lines) (skipn lineix lines) lineix Hs)
    as [[Hn Ha] | (k & Hn & Hk & Hp & Hm)]; fold r in Hn.
  - left. split; [exact Hn|]. intros j Hj.
    specialize (Ha (j - lineix)%nat). rewrite nth_skipn_add in Ha.
    replace (lineix + (j - lineix))%nat with j in Ha by lia.
    apply Ha. rewrite length_skipn. lia.
  - right. rewrite length_skipn in Hk. rewrite nth_skipn_add in Hp.
    rewrite Hn. split; [lia|]. split; [exact Hp|]. intros j Hj.
    specialize (Hm (j - lineix)%nat). rewrite nth_skipn_add in Hm.
    replace (lineix + (j - lineix))%nat with j in Hm by lia.
    apply Hm. lia.
Qed.

Lemma clear_range_length (lines : list str) (begin end_ : nat) :
  forall i, length (clear_range lines i begin end_) = length lines.
Proof.
  induction lines as [|line rest IH]; intros i; cbn; [reflexivity|].
  now rewrite IH.
Qed.

Lemma clear_range_nth (lines : list str) (begin end_ : nat) :
  forall i j,
    nth j (clear_range lines i begin end_) []
    = if (j <? length lines)%nat
         && ((begin <=? i + j)%nat && (i + j <? end_)%nat)
      then lit "/**/" else nth j lines [].
Proof.
  induction lines as [|line rest IH]; intros i j.
  - cbn. now destruct j.
  - destruct j as [|j]; cbn [clear_range nth length].
    + rewrite Nat.add_0_r. reflexivity.
    + rewrite IH. replace (S i + j)%nat with (i + S j)%nat by lia.
      reflexivity.
Qed.

Lemma remove_comments_loop_spec (filename : str) (fuel : nat) :
  forall lines lineix,
    (length lines - lineix < fuel)%nat ->
    exists lines' reports,
      remove_comments_loop fuel filename lines lineix = Some (lines', reports)
      /\ length lines' = length lines
      /\ (forall j, nth j lines' [] = nth j lines []
                    \/ ((lineix <= j < length lines)%nat
                        /\ nth j lines' [] = lit "/**/"))
      /\ (reports = []
          \/ exists b,
               (lineix <= b < length lines)%nat
               /\ starts_multiline (nth b lines' []) = true
               /\ (forall j, (b <= j < length lines)%nat ->
                             ends_multiline (nth j lines' []) = false)
               /\ reports
                  = [report filename (OnlyLine (Z.of_nat b + 1))
                       "readability/multiline_comment" 5
                       (lit "Could not find end of multi-line comment")])
      /\ (reports = [] ->
          forall j, (lineix <= j < length lines)%nat ->
                    starts_multiline (nth j lines' []) = false).
Proof.
  induction fuel as [|fuel IH]; intros lines lineix Hf; [lia|].
  cbn [remove_comments_loop].
  destruct (Nat.ltb_spec lineix (length lines)) as [Hlt | Hge].
  2:{ exists lines, []. split; [reflexivity|]. split; [reflexivity|].
      split; [now left|]. split; [now left|]. intros _ j Hj. lia. }
  unfold FindNextMultiLineCommentStart, FindNextMultiLineCommentEnd.
  destruct (next_line_lines starts_multiline lines lineix ltac:(lia))
    as [[Hb Hnone] | (Hb & Hstart & Hmin)].
  { rewrite Hb, Nat.leb_refl.
    exists lines, []. split; [reflexivity|]. split; [reflexivity|].
    split; [now left|]. split; [now left|]. intros _. exact Hnone. }
  set (b := next_line starts_multiline (skipn lineix lines) lineix
              (length lines)) in *.
  replace (length lines <=? b)%nat with false
    by (symmetry; apply Nat.leb_gt; lia).
  destruct (next_line_lines ends_multiline lines b ltac:(lia))
    as [[He Hnone] | (He & Hend & _)].
  { rewrite He, Nat.leb_refl.
    exists lines. eexists. split; [reflexivity|]. split; [reflexivity|].
    split; [now left|]. split; [|discriminate].
    right. exists b. repeat split; try lia; try assumption. }
  set (e := next_line ends_multiline (skipn b lines) b (length lines)) in *.
  replace (length lines <=? e)%nat with false
    by (symmetry; apply Nat.leb_gt; lia).
  unfold RemoveMultiLineCommentsFromRange.
  set (lines1 := clear_range lines 0 b (e + 1)).
  assert (Hl1 : length lines1 = length lines) by apply clear_range_length.
  destruct (IH lines1 (e + 1)%nat ltac:(lia))
    as (lines' & reports & Hloop & Hlen & Hnth & Hrep & Hclean).
  exists lines', reports. split; [exact Hloop|].
  rewrite Hl1 in *. split; [exact Hlen|].
  assert (Hn1 : forall j,
             nth j lines1 []
             = if (j <? length lines)%nat
                  && ((b <=? j)%nat && (j <? e + 1)%nat)
               then lit "/**/" else nth j lines [])
    by (intros j; subst lines1; rewrite clear_range_nth; reflexivity).
  split; [|split].
  - intros j. destruct (Hnth j) as [Hj | [Hj Hc]].
    + rewrite Hj, Hn1.
      destruct (Nat.ltb_spec j (length lines)); cbn [andb]; [|now left].
      destruct (Nat.leb_spec b j); cbn [andb]; [|now left].
      destruct (Nat.ltb_spec j (e + 1)); [|now left].
      right. split; [lia | reflexivity].
    + right. split; [lia | exact Hc].
  - destruct Hrep as [-> | (b' & Hb' & H1 & H2 & H3)]; [now left|].
    right. exists b'. split; [lia|]. split; [exact H1|].
    split; [exact H2 | exact H3].
  - intros Hr j Hj.
    destruct (Nat.lt_ge_cases j (e + 1)) as [Hje | Hje];
      [|apply (Hclean Hr); lia].
    destruct (Hnth j) as [Hjn | [Hjn _]]; [|lia].
    rewrite Hjn, Hn1.
    replace (j <? length lines)%nat with true
      by (symmetry; apply Nat.ltb_lt; lia).
    replace (j <? e + 1)%nat with true by (symmetry; apply Nat.ltb_lt; lia).
    cbn [andb]. destruct (Nat.leb_spec b j); [reflexivity|].
    apply Hmin. lia.
Qed.

(** X23.  [RemoveMultiLineComments] comes to an end on every list of
    lines.  It keeps the number of lines; each line is left as it was or
    replaced by an empty block comment.  It hands at most one diagnostic
    to [error], for a comment that no later line closes, and anchors it
    on the line after the one that opens the comment.  When it hands none,
    no line is left that opens a comment over several lines. *)
Theorem multiline_comments_removed (filename : str) (lines : list str) :
  exists lines' reports,
    RemoveMultiLineComments filename lines = Some (lines', reports)
    /\ length lines' = length lines
    /\ (forall j, nth j lines' [] = nth j lines []
                  \/ nth j lines' [] = lit "/**/")
    /\ (reports = []
        \/ exists b,
             (b < length lines)%nat
             /\ starts_multiline (nth b lines' []) = true
             /\ (forall j, (b <= j < length lines)%nat ->
                           ends_multiline (nth j lines' []) = false)
             /\ reports
                = [report filename (OnlyLine (Z.of_nat b + 1))
                     "readability/multiline_comment" 5
                     (lit "Could not find end of multi-line comment")])
    /\ (reports = [] ->
        FindNextMultiLineCommentStart lines' 0 = length lines').
Proof.
  unfold RemoveMultiLineComments.
  destruct (remove_comments_loop_spec filename (S (length lines)) lines 0
              ltac:(lia))
    as (lines' & reports & Hloop & Hlen & Hnth & Hrep & Hclean).
  exists lines', reports. split; [exact Hloop|]. split; [exact Hlen|].
  split; [|split].
  - intros j. destruct (Hnth j) as [H | [_ H]]; auto.
  - destruct Hrep as [-> | (b & Hb & H1 & H2 & H3)]; [now left|].
    right. exists b. split; [lia|]. auto.
  - intros Hr. unfold FindNextMultiLineCommentStart.
    destruct (next_line_lines starts_multiline lines' 0 ltac:(lia))
      as [[H _] | (Hb & Hs & _)]; [exact H|].
    rewrite Hclean in Hs; [discriminate | exact Hr | lia].
Qed.

Lemma multiline_comments_removed_witness :
  let lines := [lit "a <= b;"; lit "/* two"; lit "   lines */"; lit "c <= d;"]
  in
  exists lines',
    RemoveMultiLineComments (lit "e.vhd") lines = Some (lines', [])
    /\ FindNextMultiLineCommentStart lines' 0 = length lines'.
Proof.
  intros lines.
  destruct (multiline_comments_removed (lit "e.vhd") lines)
    as (lines' & reports & H & _ & _ & _ & Hc).
  vm_compute in H. injection H as <- <-.
  eexists. split; [reflexivity|]. apply Hc. reflexivity.
Defined.
(** ** Blank lines *)

Lemma drop_while_nil (p : ascii -> bool) (s : str) :
  drop_while p s = [] <-> forallb p s = true.
Proof.
  induction s as [|c s IH]; cbn; [tauto|].
  destruct (p c); cbn; [exact IH|]. split; discriminate.
Qed.

Lemma space_not_stops (c : ascii) :
  is_space c = false -> chr_eqb c newline = false.
Proof.
  intros H. destruct (chr_eqb c newline) eqn:E; [|reflexivity].
  apply chr_eqb_eq in E. subst c. discriminate H.
Qed.

Lemma IsBlankLine_spec (line : str) :
  IsBlankLine line = forallb is_space line.
Proof.
  unfold IsBlankLine, re_match. cbn [Seqs].
  change (rmatch (Seq (Star true (Cls is_space)) Eol) (fun st => Some st)
            (init_state line))
    with (rmatch (Star true (Cls is_space)) (rmatch Eol (fun st => Some st))
            (init_state line)).
  rewrite rmatch_star_eq.
  destruct (take_drop_while is_space line) as (Hs & Hh & Ht).
  destruct (drop_while is_space line) as [|c t] eqn:Ed.
  - rewrite (proj1 (drop_while_nil is_space line) Ed).
    rewrite app_nil_r in Hs.
    erewrite (star_loop_greedy_success is_space _ _ line _ _ []);
      [reflexivity | cbn; now rewrite app_nil_r | now rewrite Hs | exact I
      | cbn; lia |].
    cbn [rmatch]. unfold at_eol.
    rewrite (consume_rest line []) by (cbn; now rewrite app_nil_r).
    reflexivity.
  - assert (Hf : forallb is_space line = false).
    { destruct (forallb is_space line) eqn:E; [|reflexivity].
      apply drop_while_nil in E. congruence. }
    rewrite Hf.
    rewrite (star_loop_greedy_fail is_space _ (take_while is_space line)
               _ _ (c :: t));
      [reflexivity | exact Hs | exact Hh | exact Ht | |].
    + cbn [init_state m_rest]. rewrite Hs at 2. rewrite length_app.
      cbn [length]. lia.
    + intros h1 h2 Hh12. cbn [rmatch]. unfold at_eol.
      rewrite (consume_rest h1 (h2 ++ c :: t))
        by (cbn; rewrite Hs at 1; rewrite Hh12, <- app_assoc; reflexivity).
      destruct h2 as [|d h2]; cbn [app].
      * destruct t; [|reflexivity]. cbn in Ht.
        now rewrite (space_not_stops c Ht).
      * destruct (h2 ++ c :: t) eqn:E; [|reflexivity].
        now destruct h2.
Qed.

(** X24.  [CheckStyle] reports redundant blank lines on a line exactly
    when that line and the two lines after it exist and hold white space
    only; then it hands over one diagnostic, anchored on that line. *)
Theorem blank_lines_rule (filename : str) (raw_lines : list str) (n : nat) :
  let blank := fun i => match nth_error raw_lines i with
                        | Some line => forallb is_space line
                        | None => false
                        end in
  CheckStyle_blank_lines filename raw_lines (Z.of_nat n)
  = if blank n && blank (S n) && blank (S (S n))
    then [report filename (OnlyLine (Z.of_nat n)) "whitespace/blank_line" 4
            (lit "Redundant blank lines. Consider deleting some of these "
             ++ lit "extra lines.")]
    else [].
Proof.
  intros blank. unfold CheckStyle_blank_lines. rewrite Nat2Z.id.
  assert (Hb : forall i, blank (n + i)%nat
                         = match nth_error (skipn n raw_lines) i with
                           | Some line => forallb is_space line
                           | None => false
                           end).
  { intros i. unfold blank. rewrite nth_error_skipn. reflexivity. }
  replace (blank n) with (blank (n + 0)%nat) by (f_equal; lia).
  replace (blank (S n)) with (blank (n + 1)%nat) by (f_equal; lia).
  replace (blank (S (S n))) with (blank (n + 2)%nat) by (f_equal; lia).
  rewrite !Hb.
  destruct (skipn n raw_lines) as [|a [|b [|c rest]]];
    cbn [firstn blank_scan nth_error]; rewrite ?IsBlankLine_spec;
    try reflexivity.
  - destruct (forallb is_space a); reflexivity.
  - destruct (forallb is_space a), (forallb is_space b); reflexivity.
  - destruct (forallb is_space a), (forallb is_space b),
      (forallb is_space c); reflexivity.
Qed.
(** ** The process rule: the header *)





Lemma first_line_spec (p : str -> bool) (all_lines : list str) (n : nat) :
  forall l e,
    first_line p all_lines n l = Some e ->
    l <= e < l + Z.of_nat n
    /\ p (line_of all_lines e) = true
    /\ forall j, l <= j < e -> p (line_of all_lines j) = false.
Proof.
  induction n as [|n IH]; intros l e H; cbn [first_line] in H;
    [discriminate|].
  destruct (p (line_of all_lines l)) eqn:E.
  - inversion H; subst. split; [lia|]. split; [exact E|]. intros j Hj. lia.
  - apply IH in H. destruct H as (Hl & Hp & Hm).
    split; [lia|]. split; [exact Hp|]. intros j Hj.
    destruct (Z.eq_dec j l) as [-> | Hne]; [exact E | apply Hm; lia].
Qed.


(** ** The process rule: names driven and read *)

Lemma str_set_add_In (x y : str) (s : list str) :
  In x (str_set_add y s) <-> x = y \/ In x s.
Proof.
  unfold str_set_add. destruct (str_in y s) eqn:E.
  - split; [auto|]. intros [-> | H]; [|exact H]. now apply str_in_In.
  - rewrite in_app_iff. cbn. split.
    + intros [H | [H | []]]; auto.
    + intros [H | H]; auto.
Qed.

Lemma fold_set_add_In (x : str) (names : list str) :
  forall s,
    In x (fold_left (fun s w => str_set_add (lower w) s) names s)
    <-> In x s \/ exists w, In w names /\ lower w = x.
Proof.
  induction names as [|n names IH]; intros s; cbn [fold_left].
  - split; [auto|]. intros [H | (w & [] & _)]. exact H.
  - rewrite IH, str_set_add_In. split.
    + intros [[-> | H] | (w & Hw & Hl)]; auto.
      * right. exists n. split; [now left | reflexivity].
      * right. exists w. split; [now right | exact Hl].
    + intros [H | (w & [<- | Hw] & Hl)]; auto.
      right. now exists w.
Qed.

Lemma body_scan_sets (so : SetOrder) filename clean_lines start_line
  end_line sensitivity_list sim_process sequential contains_all (n : nat) :
  forall l0 sc0 completed sc,
    body_scan filename clean_lines start_line end_line sensitivity_list
      sim_process sequential contains_all n l0 sc0 = Returns (completed, sc) ->
    (forall i, In i (process_drivers sc) ->
               In i (process_drivers sc0)
               \/ exists l w,
                    l0 <= l < l0 + Z.of_nat n
                    /\ In w (writes_of (sc_symbols sc0)
                               (line_of (lines clean_lines) l))
                    /\ lower w = i)
    /\ (forall i, In i (process_inputs sc) ->
                  In i (process_inputs sc0)
                  \/ exists l r,
                       l0 <= l < l0 + Z.of_nat n
                       /\ In r (reads_of (sc_symbols sc0)
                                  (line_of (lines clean_lines) l))
                       /\ lower r = i).
Proof.
  induction n as [|n IH]; intros l0 sc0 completed sc H; cbn [body_scan] in H.
  - inversion H; subst. split; intros i Hi; now left.
  - destruct (check_blocks _ _ _ _) as [[|]|e|]; try discriminate.
    + apply IH in H. rewrite line_step_eq in H. cbv zeta in H.
      cbn [sc_symbols process_drivers process_inputs] in H.
      destruct H as [Hd Hr].
      assert (Hk : forall line b,
                 FindUsedVariables
                   (record_writes start_line l0
                      (set_order
                         (writes_of (sc_symbols sc0)
                            (line_of (lines clean_lines) l0)))
                      (sc_symbols sc0)) line b
                 = FindUsedVariables (sc_symbols sc0) line b).
      { intros line b. symmetry. apply FindUsedVariables_keys.
        apply record_writes_keys. }
      split; intros i Hi.
      * destruct (Hd i Hi) as [H0 | (l & w & Hl & Hw & Hlow)].
        -- apply fold_set_add_In in H0.
           destruct H0 as [H0 | (w & Hw & Hlow)]; [now left|].
           right. exists l0, w. split; [lia|]. split; [|exact Hlow].
           now apply (proj1 (set_order_In _ _)) in Hw.
        -- right. exists l, w. split; [lia|]. split; [|exact Hlow].
           unfold writes_of in *. now rewrite Hk in Hw.
      * destruct (Hr i Hi) as [H0 | (l & r & Hl & Hw & Hlow)].
        -- apply fold_set_add_In in H0.
           destruct H0 as [H0 | (r & Hw & Hlow)]; [now left|].
           right. exists l0, r. split; [lia|]. split; [|exact Hlow].
           now apply (proj1 (set_order_In _ _)) in Hw.
        -- right. exists l, r. split; [lia|]. split; [|exact Hlow].
           unfold reads_of in *. now rewrite Hk in Hw.
    + inversion H; subst. split; intros i Hi; now left.
Qed.

(** X26.  A diagnostic of category [runtime/combinational_loop] is drawn
    only in a process that is neither a simulation process nor a
    sequential one, on the first line of the process, and names a signal
    that the process both drives and reads: the name is, in lower case,
    that of a signal written on a line of the process and that of a
    signal read on a line of the process. *)
Theorem combinational_loop_sound (so : SetOrder) filename clean_lines
  start_line end_line name sensitivity_list st reports st' d :
  CheckProcess filename clean_lines start_line end_line name
    sensitivity_list st = Returns (reports, st') ->
  In d reports ->
  d_category d = lit "runtime/combinational_loop" ->
  sensitivity_list <> []
  /\ is_sequential clean_lines start_line end_line = false
  /\ d_lineref d = OnlyLine start_line
  /\ d_confidence d = 5
  /\ exists i lw w lr r,
       d_message d
       = lit "Possible combinational loop detected on signal '" ++ i
         ++ lit "'."
       /\ start_line <= lw < end_line
       /\ In w (writes_of st (line_of (lines clean_lines) lw))
       /\ lower w = i
       /\ start_line <= lr < end_line
       /\ In r (reads_of st (line_of (lines clean_lines) lr))
       /\ lower r = i.
Proof.
  intros H Hd Hcat. apply CheckProcess_parts in H. cbv zeta in H.
  destruct H as (body_line & st1 & hr & completed & sc & clk_name & clk_line
                 & Hh & Hb & _ & ->).
  pose proof (header_scan_spec _ _ _ _ _ _ _ _ _ _ Hh)
    as (Hsig & Hl & hr' & Hhr & Hvar).
  cbn [app] in Hhr. subst hr'.
  pose proof (body_scan_sets _ _ _ _ _ _ _ _ _ _ _ _ _ _ Hb) as [Hdr Hin].
  cbn [process_drivers process_inputs sc_symbols] in Hdr, Hin.
  apply body_scan_reports in Hb. destruct Hb as (more & Hm & Hf).
  cbn [sc_reports app] in Hm. rewrite Hm in Hd. clear Hm.
  repeat (apply in_app_or in Hd; destruct Hd as [Hd | Hd]).
  - destruct (str_in _ _); [|destruct Hd].
    destruct Hd as [<- | []]. discriminate Hcat.
  - apply in_map_iff in Hd. destruct Hd as (x & <- & _). discriminate Hcat.
  - destruct (_ && _); [|destruct Hd]. unfold clock_reports in Hd.
    repeat (apply in_app_or in Hd; destruct Hd as [Hd | Hd]);
      match type of Hd with
      | In d (if ?c then _ else _) => destruct c; [|destruct Hd]
      end;
      destruct Hd as [<- | []]; discriminate Hcat.
  - rewrite Forall_forall in Hvar. apply Hvar in Hd.
    rewrite Hd in Hcat. discriminate Hcat.
  - rewrite Forall_forall in Hf.
    destruct (Hf d Hd) as (l & st_l & _ & _ & _ & Hi).
    unfold line_reports in Hi.
    repeat (apply in_app_or in Hi; destruct Hi as [Hi | Hi]).
    + pose proof (event_reports_kind filename
                    (length sensitivity_list =? 0)%nat l
                    (line_of (lines clean_lines) l)) as He.
      rewrite Forall_forall in He. rewrite (He d Hi) in Hcat.
      discriminate Hcat.
    + match type of Hi with
      | In d (multiple_drivers_reports ?f ?l ?p ?s ?w) =>
          pose proof (multiple_drivers_reports_kind f l p s w) as Hk'
      end.
      rewrite Forall_forall in Hk'. destruct (Hk' d Hi) as (Hc & _).
      rewrite Hc in Hcat. discriminate Hcat.
    + destruct (_ && _); [|destruct Hi]. unfold sensitivity_reports in Hi.
      apply in_flat_map in Hi. destruct Hi as (r & _ & Hi).
      destruct (_ && _); [|destruct Hi].
      destruct Hi as [<- | []]. discriminate Hcat.
  - destruct completed; [|destruct Hd].
    apply in_app_or in Hd. destruct Hd as [Hd | Hd].
    + unfold extra_reports in Hd. apply in_flat_map in Hd.
      destruct Hd as (item & _ & Hd). destruct (_ && _); [|destruct Hd].
      destruct Hd as [<- | []]. discriminate Hcat.
    + destruct (length sensitivity_list =? 0)%nat eqn:Es; [destruct Hd|].
      destruct (is_sequential clean_lines start_line end_line) eqn:Eq;
        [destruct Hd|].
      cbn [negb andb] in Hd. apply in_map_iff in Hd.
      destruct Hd as (i & <- & Hi).
      apply (Permutation_in _ (intersection_order_perm _)) in Hi.
      apply nodup_In, filter_In in Hi. destruct Hi as [Hid Hii].
      apply str_in_In in Hii.
      assert (Hkeys : forall line b,
                 FindUsedVariables st1 line b = FindUsedVariables st line b).
      { intros line b. apply FindUsedVariables_keys.
        unfold same_keys. now rewrite Hsig. }
      destruct (Hdr i Hid) as [[] | (lw & w & Hlw & Hw & Hloww)].
      destruct (Hin i Hii) as [[] | (lr & r & Hlr & Hr & Hlowr)].
      split; [now destruct sensitivity_list|]. split; [reflexivity|].
      split; [reflexivity|]. split; [reflexivity|].
      exists i, lw, w, lr, r. unfold span in Hlw, Hlr.
      unfold writes_of, reads_of in *. rewrite Hkeys in Hw, Hr.
      repeat split; try assumption; lia.
Qed.

Lemma combinational_loop_sound_witness :
  let file := file_of ["p: process(a, y)"; "begin"; "  y <= a and y;";
                       "end process;"]%string in
  let d := report (lit "p.vhd") (OnlyLine 0) "runtime/combinational_loop" 5
             (lit "Possible combinational loop detected on signal 'y'.") in
  [lit "a"; lit "y"] <> []
  /\ is_sequential file 0 3 = false
  /\ d_lineref d = OnlyLine 0
  /\ d_confidence d = 5
  /\ exists i lw w lr r,
       d_message d
       = lit "Possible combinational loop detected on signal '" ++ i
         ++ lit "'."
       /\ 0 <= lw < 3
       /\ In w (writes_of signals_a_b_y (line_of (lines file) lw))
       /\ lower w = i
       /\ 0 <= lr < 3
       /\ In r (reads_of signals_a_b_y (line_of (lines file) lr))
       /\ lower r = i.
Proof.
  intros file d.
  eapply (combinational_loop_sound nodup_order (lit "p.vhd") file 0 3
            (Some (lit "p")) [lit "a"; lit "y"] signals_a_b_y _ _ d).
  - vm_compute. reflexivity.
  - left. reflexivity.
  - reflexivity.
Defined.
(** ** The last occurrence of a name *)

Lemma rmatch_Lit_eq (name : str) : forall k st,
  rmatch (Lit name) k st
  = if startswith (m_rest st) name then k (consume name st) else None.
Proof.
  induction name as [|c name IH]; intros k st; [reflexivity|].
  cbn [Lit]. change (rmatch (Seq (Cls (chr_eqb c)) (Lit name)) k st)
    with (rmatch (Cls (chr_eqb c)) (rmatch (Lit name) k) st).
  cbn [rmatch startswith consume].
  destruct (m_rest st) as [|d rest0] eqn:E; [reflexivity|].
  rewrite (chr_eqb_sym d c).
  destruct (chr_eqb c d) eqn:Ec; [|reflexivity].
  apply chr_eqb_eq in Ec. subst d. cbn [andb tl]. rewrite IH. reflexivity.
Qed.

Lemma skipn_head {A} (n : nat) (l : list A) :
  skipn n l = match nth_error l n with
              | Some x => x :: skipn (S n) l
              | None => []
              end.
Proof.
  revert l. induction n as [|n IH]; intros [|x l]; try reflexivity.
  cbn [nth_error]. rewrite <- IH. reflexivity.
Qed.

Lemma consume_state_at (line name : str) : forall n,
  startswith (skipn n line) name = true ->
  consume name (state_at line n) = state_at line (n + length name).
Proof.
  induction name as [|c name IH]; intros n H.
  - cbn [consume length]. now rewrite Nat.add_0_r.
  - cbn [consume length]. rewrite skipn_head in H.
    destruct (nth_error line n) as [d|] eqn:E; [|discriminate].
    cbn [startswith] in H. apply andb_true_iff in H. destruct H as [Hc H].
    apply chr_eqb_eq in Hc. subst d.
    replace (n + S (length name))%nat with (S n + length name)%nat by lia.
    rewrite <- (IH (S n) H). f_equal.
    unfold advance, state_at. cbn [m_rest m_pos m_caps char_before].
    rewrite E. f_equal. rewrite (skipn_head n line), E. reflexivity.
Qed.

Lemma boundary_state (line : str) (n : nat) (st : mstate) :
  m_prev st = char_before line n -> m_rest st = skipn n line ->
  xorb (word_before st) (word_after st) = boundary line n.
Proof.
  intros Hp Hr. unfold boundary, word_before, word_after. rewrite Hp, Hr.
  rewrite (skipn_head n line). now destruct (nth_error line n).
Qed.

(** The name between word boundaries, matched at an index of the line. *)
Lemma word_at_match (line name : str) (n : nat) :
  rmatch (Seqs [Wb; Grp 1 (Lit name); Wb]) (fun st => Some st)
    (state_at line n)
  = if word_at line name n
    then Some (set_group 1 n (state_at line (n + length name)))
    else None.
Proof.
  cbn [Seqs].
  change (rmatch (Seq Wb (Seq (Grp 1 (Lit name)) Wb)) (fun st => Some st)
            (state_at line n))
    with (rmatch Wb
            (rmatch (Grp 1 (Lit name)) (rmatch Wb (fun st => Some st)))
            (state_at line n)).
  unfold word_at. cbn [rmatch].
  rewrite (boundary_state line n (state_at line n)) by reflexivity.
  destruct (boundary line n); [|reflexivity]. cbn [andb].
  rewrite rmatch_Lit_eq.
  change (m_rest (state_at line n)) with (skipn n line).
  destruct (startswith (skipn n line) name) eqn:Es; [|reflexivity].
  cbn [andb]. rewrite (consume_state_at line name n Es).
  change (m_pos (state_at line n)) with n.
  rewrite (boundary_state line (n + length name)
             (set_group 1 n (state_at line (n + length name))))
    by reflexivity.
  destruct (boundary line (n + length name)); reflexivity.
Qed.

Lemma rmatch_Cls_eq (p : ascii -> bool) k st :
  rmatch (Cls p) k st
  = match m_rest st with
    | c :: rest0 => if p c then k (advance c rest0 st) else None
    | [] => None
    end.
Proof. reflexivity. Qed.

(** The greedy repetition of any character, from an index of the line:
    what follows is matched at the last index at which it matches. *)
Lemma star_any_last (line : str) (k : mstate -> option mstate) (m : nat) :
  forall n fuel,
    (length line - n <= m)%nat -> (length line - n < fuel)%nat ->
    (n <= length line)%nat ->
    match star_loop true (rmatch (Cls any_chr)) k fuel (state_at line n) with
    | Some x =>
        exists j, (n <= j <= length line)%nat
                  /\ k (state_at line j) = Some x
                  /\ forall j', (j < j' <= length line)%nat ->
                                k (state_at line j') = None
    | None =>
        forall j, (n <= j <= length line)%nat -> k (state_at line j) = None
    end.
Proof.
  induction m as [|m IH]; intros n fuel Hm Hf Hn;
    (destruct fuel as [|fuel]; [lia|]); cbn [star_loop];
    rewrite rmatch_Cls_eq.
  - assert (En : n = length line) by lia. subst n.
    unfold state_at at 1. cbn [m_rest]. rewrite skipn_all.
    destruct (k (state_at line (length line))) as [x|] eqn:Ek.
    + exists (length line). split; [lia|]. split; [exact Ek|].
      intros j' Hj'. lia.
    + intros j Hj. assert (j = length line) by lia. now subst j.
  - unfold state_at at 1. cbn [m_rest]. rewrite (skipn_head n line).
    destruct (nth_error line n) as [c|] eqn:E.
    + unfold any_chr at 1.
      assert (Ea : advance c (skipn (S n) line) (state_at line n)
                   = state_at line (S n)).
      { unfold advance, state_at. cbn [m_pos m_caps char_before].
        now rewrite E. }
      rewrite Ea. change (m_pos (state_at line n)) with n.
      change (m_pos (state_at line (S n))) with (S n).
      replace (n <? S n)%nat with true by (symmetry; apply Nat.ltb_lt; lia).
      assert (Hlen : (n < length line)%nat)
        by (apply (proj1 (nth_error_Some line n)); congruence).
      specialize (IH (S n) fuel ltac:(lia) ltac:(lia) ltac:(lia)).
      destruct (star_loop true (rmatch (Cls any_chr)) k fuel
                  (state_at line (S n))) as [x|].
      * destruct IH as (j & Hj & Hk & Hlast).
        exists j. split; [lia|]. split; [exact Hk | exact Hlast].
      * fold (state_at line n).
        destruct (k (state_at line n)) as [x|] eqn:Ek.
        -- exists n. split; [lia|]. split; [exact Ek|].
           intros j' Hj'. apply IH. lia.
        -- intros j Hj. destruct (Nat.eq_dec j n) as [-> | Hne];
             [exact Ek | apply IH; lia].
    + assert (Hlen : (length line <= n)%nat)
        by (now apply (proj1 (nth_error_None line n))).
      assert (En : n = length line) by lia. subst n.
      fold (state_at line (length line)).
      destruct (k (state_at line (length line))) as [x|] eqn:Ek.
      * exists (length line). split; [lia|]. split; [exact Ek|].
        intros j' Hj'. lia.
      * intros j Hj. assert (j = length line) by lia. now subst j.
Qed.

Lemma last_word_pattern (line name : str) (n : nat) :
  (n <= length line)%nat ->
  match rmatch (Seqs [Star true (Cls any_chr); Wb; Grp 1 (Lit name); Wb])
          (fun st => Some st) (state_at line n) with
  | Some x =>
      exists j, (n <= j <= length line)%nat
                /\ word_at line name j = true
                /\ x = set_group 1 j (state_at line (j + length name))
                /\ forall j', (j < j' <= length line)%nat ->
                              word_at line name j' = false
  | None =>
      forall j, (n <= j <= length line)%nat -> word_at line name j = false
  end.
Proof.
  intros Hn.
  change (rmatch (Seqs [Star true (Cls any_chr); Wb; Grp 1 (Lit name); Wb])
            (fun st => Some st) (state_at line n))
    with (star_loop true (rmatch (Cls any_chr))
            (rmatch (Seqs [Wb; Grp 1 (Lit name); Wb]) (fun st => Some st))
            (S (length (skipn n line))) (state_at line n)).
  pose proof (star_any_last line
                (rmatch (Seqs [Wb; Grp 1 (Lit name); Wb])
                   (fun st => Some st))
                (length line - n) n (S (length (skipn n line)))
                (Nat.le_refl _)) as H.
  rewrite length_skipn in *. specialize (H ltac:(lia) Hn).
  destruct (star_loop _ _ _ _ _) as [x|].
  - destruct H as (j & Hj & Hk & Hlast). exists j. split; [exact Hj|].
    rewrite word_at_match in Hk.
    destruct (word_at line name j); [|discriminate].
    split; [reflexivity|]. split; [congruence|].
    intros j' Hj'. specialize (Hlast j' Hj'). rewrite word_at_match in Hlast.
    now destruct (word_at line name j').
  - intros j Hj. specialize (H j Hj). rewrite word_at_match in H.
    now destruct (word_at line name j).
Qed.

Lemma search_from_state_at (r : regex) (line : str) (m : nat) :
  forall n,
    (length line - n <= m)%nat -> (n <= length line)%nat ->
    (forall j, (n <= j <= length line)%nat ->
               rmatch r (fun st => Some st) (state_at line j) = None) ->
    search_from r (char_before line n) (skipn n line) n = None.
Proof.
  induction m as [|m IH]; intros n Hm Hn Hnone.
  - assert (En : n = length line) by lia. subst n.
    pose proof (Hnone (length line) ltac:(lia)) as H0.
    unfold state_at in H0. rewrite skipn_all in *. cbn [search_from].
    now rewrite H0.
  - pose proof (Hnone n ltac:(lia)) as H0. unfold state_at in H0.
    rewrite (skipn_head n line) in *.
    destruct (nth_error line n) as [c|] eqn:E; cbn [search_from];
      rewrite H0; [|reflexivity].
    assert (Hlen : (n < length line)%nat)
      by (apply (proj1 (nth_error_Some line n)); congruence).
    replace (Some c) with (char_before line (S n))
      by (cbn [char_before]; exact E).
    apply IH; [lia | lia |]. intros j Hj. apply Hnone. lia.
Qed.

Lemma re_search_at_start (r : regex) (line : str) (x : mstate) :
  rmatch r (fun st => Some st) (state_at line 0) = Some x ->
  re_search r line = Some (0%nat, x).
Proof.
  unfold re_search, state_at. cbn [char_before skipn]. intros H.
  destruct line; cbn [search_from]; now rewrite H.
Qed.

Lemma re_search_nowhere (r : regex) (line : str) :
  (forall j, (j <= length line)%nat ->
             rmatch r (fun st => Some st) (state_at line j) = None) ->
  re_search r line = None.
Proof.
  intros H.
  apply (search_from_state_at r line (length line) 0); [lia | lia |].
  intros j Hj. apply H. lia.
Qed.

(** X27.  A line reference built by [LineRef.FromStringR] is on the given
    line and as long as the name.  When the name stands somewhere in the
    line between word boundaries, the reference starts at the last such
    place; when it stands nowhere, the reference starts at column 0. *)
Theorem FromStringR_last_word (line_num : Z) (line name : str) :
  let r := FromStringR line_num line name in
  Line r = line_num
  /\ EndColumn r = Column r + len name
  /\ (forall n, (n <= length line)%nat -> word_at line name n = true ->
                Z.of_nat n <= Column r
                /\ word_at line name (Z.to_nat (Column r)) = true)
  /\ ((forall n, (n <= length line)%nat -> word_at line name n = false) ->
      Column r = 0).
Proof.
  unfold FromStringR, LineRef_init. cbn [Line Column EndColumn].
  split; [reflexivity|]. split; [reflexivity|].
  pose proof (last_word_pattern line name 0 ltac:(lia)) as H.
  destruct (rmatch _ _ (state_at line 0)) as [x|] eqn:Em.
  - rewrite (re_search_at_start _ line x Em).
    destruct H as (j & Hj & Hw & -> & Hlast).
    cbn [set_group m_caps cap_span Nat.eqb]. rewrite Nat2Z.id. split.
    + intros n Hn Hwn. split; [|exact Hw].
      destruct (Nat.le_gt_cases n j) as [Hle | Hgt]; [lia|].
      rewrite Hlast in Hwn by lia. discriminate.
    + intros Hno. rewrite Hno in Hw by lia. discriminate.
  - rewrite re_search_nowhere.
    + split; [|reflexivity]. intros n Hn Hwn.
      rewrite H in Hwn by lia. discriminate.
    + intros j Hj.
      pose proof (last_word_pattern line name j Hj) as Hj'.
      destruct (rmatch _ _ (state_at line j)) as [y|]; [|reflexivity].
      destruct Hj' as (j' & Hjj & Hw & _). rewrite H in Hw by lia.
      discriminate.
Qed.

Lemma FromStringR_last_word_witness :
  Z.of_nat 8 <= Column (FromStringR 0 (lit "process(a, a, b)") (lit "a"))
  /\ word_at (lit "process(a, a, b)") (lit "a")
       (Z.to_nat (Column (FromStringR 0 (lit "process(a, a, b)") (lit "a"))))
     = true.
Proof.
  apply (proj1 (proj2 (proj2
           (FromStringR_last_word 0 (lit "process(a, a, b)") (lit "a")))));
    [cbn; lia | reflexivity].
Defined.
